(** * Open Graph image pipeline of afilmory: layout engine, metadata
    summary, thumbnail resolver and the upload orchestration of the
    [afilmory:og-image] builder plugin.

    Sources embedded here:
    - [be/apps/core/src/modules/content/og/og.template.tsx]
      ([determineLayout], [fitWithinBox], the dimension coercion of
      [OgTemplate]);
    - [packages/builder/src/plugins/og-image-storage/index.ts]
      ([joinSegments], [getOrCreateRunState], [loadFontFile], [loadFonts],
      [loadSiteMeta], [guessContentType], [resolveThumbnailDataUrl],
      [formatDate], [buildExifInfo], [getPhotoDimensions] and the
      [afterPhotoProcess] hook; [normalizeDirectory], [trimSlashes],
      [resolveRemotePrefix] and [onInit]);
    - [be/apps/core/src/modules/content/og/og.template.tsx] again
      ([buildExifItems] and what [OgTemplate] hands to [InfoPanel]);
    - the OG service of the core application ([normalizeThumbnailPath],
      [tryFetchUrl], [fetchThumbnailBuffer], [buildThumbnailUrlCandidates],
      [resolveThumbnailSrc]). *)

From Stdlib Require Import ZArith QArith Floats Lia Lqa Ascii String.
From stdpp Require Import gmap strings list.

Set Default Proof Using "Type".

(* ===================================================================== *)
(** * Part I: the layout engine ([og.template.tsx])                       *)
(* ===================================================================== *)

Module Layout.

(** A JavaScript [number] is an IEEE-754 binary64 value.  The layout code
    only uses decimal literals, [-], [*], [/], the comparisons and
    [Number.isFinite], so it is written once over this interface and read
    at two instances: [float] (Rocq's primitive binary64 numbers, which is
    what the program runs on) and [Q] (the same code with every operation
    exact, used where a statement sets rounding aside). *)
Class JsNumber (N : Type) : Type := {
  num_lit : Z -> Z -> N;          (* the decimal literal p/q, 0 <= p, 0 < q *)
  num_sub : N -> N -> N;
  num_mul : N -> N -> N;
  num_div : N -> N -> N;
  num_ltb : N -> N -> bool;
  num_leb : N -> N -> bool;
  num_isFinite : N -> bool;
}.

Declare Scope num_scope.
Delimit Scope num_scope with num.
Notation "x - y" := (num_sub x y) : num_scope.
Notation "x * y" := (num_mul x y) : num_scope.
Notation "x / y" := (num_div x y) : num_scope.
Notation "x <? y" := (num_ltb x y) : num_scope.
Notation "x <=? y" := (num_leb x y) : num_scope.
Notation "x >? y" := (num_ltb y x) : num_scope.
Notation "x >=? y" := (num_leb y x) : num_scope.

(** binary64: a decimal literal denotes the double nearest to p/q, which is
    the correctly rounded quotient of the two (exactly representable)
    integers. *)
Definition float_of_Z (z : Z) : float := PrimFloat.of_uint63 (Uint63.of_Z z).

#[export] Instance float_number : JsNumber float := {
  num_lit p q := PrimFloat.div (float_of_Z p) (float_of_Z q);
  num_sub := PrimFloat.sub;
  num_mul := PrimFloat.mul;
  num_div := PrimFloat.div;
  num_ltb := PrimFloat.ltb;
  num_leb := PrimFloat.leb;
  num_isFinite := PrimFloat.is_finite;
}.

(** Exact rationals: no rounding, no overflow, every value finite. *)
#[export] Instance exact_number : JsNumber Q := {
  num_lit p q := Qdiv (inject_Z p) (inject_Z q);
  num_sub := Qminus;
  num_mul := Qmult;
  num_div := Qdiv;
  num_ltb x y := negb (Qle_bool y x);
  num_leb := Qle_bool;
  num_isFinite _ := true;
}.

Inductive LayoutType := Portrait | Square | Landscape | Wide.
Inductive Arrangement := ArrSplit | ArrStack | ArrWide.
Inductive PhotoFit := Cover | Contain.

Section Engine.
Context {N : Type} `{JsNumber N}.
Local Open Scope num_scope.

Record PhotoDimensions := { dim_width : N; dim_height : N }.

Record PhotoBox := { maxWidth : N; maxHeight : N }.

Record LayoutConfig := {
  type : LayoutType;
  arrangement : Arrangement;
  padding : N;
  gap : N;
  photoBox : PhotoBox;
  infoCompact : bool;
  photoFit : PhotoFit;
}.

Record PhotoSize := { width : N; height : N }.

(** [const CANVAS = { width: 1200, height: 628 }] *)
Definition CANVAS_width : N := num_lit 1200 1.
Definition CANVAS_height : N := num_lit 628 1.

(** [const ogAspect = CANVAS.width / CANVAS.height] *)
Definition ogAspect : N := CANVAS_width / CANVAS_height.

(** The first four lines of [determineLayout]: a non-finite or non-positive
    aspect becomes 1. *)
Definition finalAspect (aspect : N) : N :=
  if negb (num_isFinite aspect) || (aspect <=? num_lit 0 1)
  then num_lit 1 1 else aspect.

Definition determineLayout (aspect : N) : LayoutConfig :=
  let finalAspect := finalAspect aspect in
  if finalAspect <? num_lit 9 10 then
    let padding := num_lit 60 1 in
    {| type := Portrait;
       arrangement := ArrSplit;
       padding := padding;
       gap := num_lit 44 1;
       photoBox := {| maxWidth := CANVAS_width * num_lit 44 100;
                      maxHeight := CANVAS_height - padding * num_lit 2 1 |};
       infoCompact := false;
       photoFit := Cover |}
  else if finalAspect <=? num_lit 11 10 then
    let padding := num_lit 60 1 in
    {| type := Square;
       arrangement := ArrSplit;
       padding := padding;
       gap := num_lit 44 1;
       photoBox := {| maxWidth := CANVAS_width * num_lit 5 10;
                      maxHeight := CANVAS_height - padding * num_lit 2 1 |};
       infoCompact := false;
       photoFit := Cover |}
  else if finalAspect >=? num_lit 235 100 then
    let padding := num_lit 50 1 in
    {| type := Wide;
       arrangement := ArrWide;
       padding := padding;
       gap := num_lit 28 1;
       photoBox := {| maxWidth := CANVAS_width - padding * num_lit 2 1;
                      maxHeight := num_lit 340 1 |};
       infoCompact := true;
       photoFit := Contain |}
  else
    let padding := num_lit 54 1 in
    let landscapeArrangement :=
      if finalAspect / ogAspect <=? num_lit 82 100 then ArrSplit else ArrStack in
    {| type := Landscape;
       arrangement := landscapeArrangement;
       padding := padding;
       gap := num_lit 26 1;
       photoBox := {| maxWidth := CANVAS_width - padding * num_lit 2 1;
                      maxHeight := num_lit 410 1 |};
       infoCompact := false;
       photoFit := Cover |}.

Definition fitWithinBox (aspect : N) (box : PhotoBox) : PhotoSize :=
  let width := maxWidth box in
  let height := width / aspect in
  if height >? maxHeight box then
    let height := maxHeight box in
    let width := height * aspect in
    {| width := width; height := height |}
  else {| width := width; height := height |}.

(** The head of [OgTemplate]: both dimensions are coerced to a finite
    positive number before the aspect is taken; the layout is chosen from
    that aspect and the photo is fitted in the layout's box. *)
Definition coerceDimension (d : N) : N :=
  if num_isFinite d && (d >? num_lit 0 1) then d else num_lit 1 1.

Definition photoAspect (d : PhotoDimensions) : N :=
  coerceDimension (dim_width d) / coerceDimension (dim_height d).

Definition templateLayout (d : PhotoDimensions) : LayoutConfig * PhotoSize :=
  let layout := determineLayout (photoAspect d) in
  (layout, fitWithinBox (photoAspect d) (photoBox layout)).

End Engine.

Arguments PhotoDimensions N : clear implicits.
Arguments PhotoBox N : clear implicits.
Arguments LayoutConfig N : clear implicits.
Arguments PhotoSize N : clear implicits.

End Layout.

(* ===================================================================== *)
(** * Part II: the og-image builder plugin ([og-image-storage/index.ts])  *)
(* ===================================================================== *)

Module OgImagePlugin.
Import Layout.

Definition bytes : Type := list Byte.byte.

(** ** String helpers

    Strings are byte strings; case folding and trimming are the ASCII
    parts of [toLowerCase] and [trim]. *)

Definition chars (s : string) : list ascii := list_ascii_of_string s.
Definition of_chars (l : list ascii) : string := string_of_list_ascii l.

Fixpoint dropWhile {A} (f : A -> bool) (l : list A) : list A :=
  match l with
  | [] => []
  | x :: r => if f x then dropWhile f r else l
  end.

Definition dropWhileEnd {A} (f : A -> bool) (l : list A) : list A :=
  rev (dropWhile f (rev l)).

Definition slash : ascii := ascii_of_nat 47.
Definition backslash : ascii := ascii_of_nat 92.
Definition isSlash (c : ascii) : bool := Ascii.eqb c slash.

Definition isWhitespace (c : ascii) : bool :=
  let n := nat_of_ascii c in
  (Nat.leb 9 n && Nat.leb n 13) || Nat.eqb n 32.

Definition lowerChar (c : ascii) : ascii :=
  let n := nat_of_ascii c in
  if Nat.leb 65 n && Nat.leb n 90 then ascii_of_nat (n + 32) else c.

Definition toLowerCase (s : string) : string := of_chars (map lowerChar (chars s)).

Definition trim (s : string) : string :=
  of_chars (dropWhileEnd isWhitespace (dropWhile isWhitespace (chars s))).

Definition startsWith (s p : string) : bool := String.prefix p s.

Definition endsWith (s suffix : string) : bool :=
  String.prefix (String.rev suffix) (String.rev s).

(** JavaScript truthiness of a string and of a number. *)
Definition truthyString (s : string) : bool := negb (String.eqb s "").

Definition truthyNumber (n : float) : bool :=
  negb (PrimFloat.eqb n PrimFloat.zero || PrimFloat.is_nan n).

(** [a || b] on possibly missing strings. *)
Definition orString (a b : option string) : option string :=
  match a with
  | Some s => if truthyString s then a else b
  | None => b
  end.

Definition truthyOptString (a : option string) : bool :=
  match a with Some s => truthyString s | None => false end.

(** [value.replaceAll('\\', '/').replaceAll(/^\/+|\/+$/g, '')] *)
Definition normalizeSlashes (value : string) : string :=
  of_chars
    (dropWhileEnd isSlash
       (dropWhile isSlash
          (map (fun c => if Ascii.eqb c backslash then slash else c)
               (chars value)))).

Definition joinSegments (segments : list (option string)) : string :=
  let filtered :=
    List.filter truthyString
      (map (fun segment => normalizeSlashes (default "" segment)) segments) in
  String.concat "/" filtered.

Definition guessContentType (thumbnailUrl : string) : string :=
  let lowered := toLowerCase thumbnailUrl in
  if endsWith lowered ".png" then "image/png"
  else if endsWith lowered ".webp" then "image/webp"
  else "image/jpeg".

(** [/^https?:\/\//i.test(thumbnailUrl)] *)
Definition isAbsoluteHttpUrl (thumbnailUrl : string) : bool :=
  let lowered := toLowerCase thumbnailUrl in
  startsWith lowered "http://" || startsWith lowered "https://".

(** [thumbnailUrl.replace(/^\/+/, '')] *)
Definition stripLeadingSlashes (s : string) : string :=
  of_chars (dropWhile isSlash (chars s)).

(** ** Constants *)

Definition RUN_STATE_KEY : string := "state".
Definition DEFAULT_SITE_NAME : string := "Photo Gallery".
Definition DEFAULT_ACCENT_COLOR : string := "#007bff".
Definition ogAssetsRel : string := "be/apps/core/src/modules/content/og/assets".

(** ** Data *)

(** A value that is a string or a number (EXIF fields, [ExifInfo.iso]). *)
Inductive jsval := JStr (s : string) | JNum (n : float).

Definition truthy (v : jsval) : bool :=
  match v with JStr s => truthyString s | JNum n => truthyNumber n end.

(** [ExifInfo] of [og.template.tsx]. *)
Record ExifInfo := {
  focalLength : option string;
  aperture : option string;
  iso : option jsval;
  shutterSpeed : option string;
  camera : option string;
}.

(** The EXIF block of a manifest item.  Modelled from the spec: the
    declaration of [PhotoManifestItem] and of its [exif] block belongs to
    the builder's type definitions, outside the files embedded here.  The
    fields are the ones [buildExifInfo] and the hook read, typed as their
    uses require: the focal lengths and the camera strings are strings
    (they are assigned to the string fields of [ExifInfo] and trimmed), the
    other three are only tested for truthiness and interpolated, so they
    may be a string or a number. *)
Record PickedExif := {
  FocalLengthIn35mmFormat : option string;
  FocalLength : option string;
  FNumber : option jsval;
  ISO : option jsval;
  ExposureTime : option jsval;
  Make : option string;
  Model : option string;
  DateTimeOriginal : option string;
}.

(** The fields of [PhotoManifestItem] the plugin touches. *)
Record PhotoManifestItem := {
  id : string;
  title : option string;
  tags : option (list string);
  item_width : float;
  item_height : float;
  exif : option PickedExif;
  thumbnailUrl : option string;
  lastModified : option string;
  ogImageUrl : option string;
}.

Definition set_ogImageUrl (url : string) (item : PhotoManifestItem) : PhotoManifestItem :=
  {| id := id item; title := title item; tags := tags item;
     item_width := item_width item; item_height := item_height item;
     exif := exif item; thumbnailUrl := thumbnailUrl item;
     lastModified := lastModified item; ogImageUrl := Some url |}.

Record ThumbnailPluginData := {
  buffer : option bytes;
  localUrl : option string;
}.

Record OgTemplateProps := {
  photoTitle : string;
  siteName : string;
  templateTags : list string;
  formattedDate : option string;
  exifInfo : option ExifInfo;
  thumbnailSrc : option string;
  photoDimensions : PhotoDimensions float;
  accentColor : string;
}.

Record FontEntry := {
  font_name : string;
  font_data : bytes;
  font_style : string;
  font_weight : Z;
}.

Record SiteMeta := {
  meta_siteName : string;
  meta_accentColor : option string;
}.

Record PluginRunState := {
  uploaded : gset string;
  urlCache : gmap string string;
  fonts : option (list FontEntry);
  siteMeta : option SiteMeta;
}.

Record OgImagePluginOptions := {
  opt_siteName : option string;
  opt_accentColor : option string;
  opt_siteConfigPath : option string;
}.

Record ResolvedPluginConfig := {
  directory : string;
  remotePrefix : string;
  contentType : string;
  useDefaultStorage : bool;
  enabled : bool;
}.

(** The two storage managers a hook call can end up with. *)
Inductive StorageManager := BuilderStorage | ExternalStorage.

(** The closure of [ogImagePlugin(options)] after [onInit]: the options,
    [resolved], and whether [externalStorageManager] was created. *)
Record PluginInstance := {
  options : OgImagePluginOptions;
  resolved : option ResolvedPluginConfig;
  externalStorageManager : bool;
}.

(** What the hook reads of its argument: [payload.result.item],
    [payload.result.type], the two force flags of [payload.options] and the
    thumbnail plugin's entry of [payload.context.pluginData]. *)
Record Payload := {
  result_item : option PhotoManifestItem;
  result_type : string;
  isForceMode : bool;
  isForceManifest : bool;
  thumbnailData : option ThumbnailPluginData;
}.

(** ** Effects *)

(** A file the plugin looks at: [path.join(repoRoot, dir, file)] or
    [path.join(workdir, 'public', rel)]. *)
Inductive path :=
| RepoFile (dir file : string)
| PublicFile (rel : string).

(** The parsed site configuration, as far as [loadSiteMeta] reads it. *)
Record SiteConfigJson := {
  json_name : option string;
  json_title : option string;
  json_accentColor : option string;
}.

Record Response := {
  resp_ok : bool;
  resp_contentType : option string;     (* headers.get('content-type') *)
  resp_body : option bytes;             (* arrayBuffer(); None when it rejects *)
}.

Inductive channel := Main | Thumbnail.
Inductive level := Debug | Info | Warn | Error.

(** Every awaited call and every logger call of the plugin.  A result
    [None] stands for a rejected promise (a thrown error). *)
Inductive eff : Type -> Type :=
| ReadSiteConfig (siteConfigPath : option string) : eff (option SiteConfigJson)
| Stat (p : path) : eff bool                (* stat(p).catch(() => null), then isFile() *)
| ReadFile (p : path) : eff (option bytes)
| Fetch (url : string) : eff (option Response)
| RenderOgImage (template : OgTemplateProps) (fonts : list FontEntry) : eff (option bytes)
| UploadFile (sm : StorageManager) (key : string) (body : bytes) (contentType : string) : eff bool
| GeneratePublicUrl (sm : StorageManager) (key : string) : eff (option string)
| Log (c : channel) (l : level) (message : string) : eff unit.

Inductive prog (A : Type) : Type :=
| Ret (a : A)
| Vis {X : Type} (e : eff X) (k : X -> prog A).
Arguments Ret {A} a.
Arguments Vis {A X} e k.

Fixpoint bind {A B} (p : prog A) (f : A -> prog B) : prog B :=
  match p with
  | Ret a => f a
  | Vis e k => Vis e (fun x => bind (k x) f)
  end.

Definition trigger {X} (e : eff X) : prog X := Vis e Ret.

Declare Scope prog_scope.
Delimit Scope prog_scope with prog.
Bind Scope prog_scope with prog.
Notation "'let*' x ':=' c 'in' k" := (bind c (fun x => k))
  (at level 10, x name, c at level 100, k at level 200) : prog_scope.
Notation "'let*' ' p ':=' c 'in' k" :=
  (bind c (fun x => match x with p => k end))
  (at level 10, p pattern, c at level 100, k at level 200) : prog_scope.
Notation "c ';;' k" := (bind c (fun _ => k))
  (at level 100, k at level 200, right associativity) : prog_scope.
Local Open Scope prog_scope.

(** One entry of the trace per effect performed, with its answer. *)
Inductive event :=
| EvReadSiteConfig (siteConfigPath : option string) (r : option SiteConfigJson)
| EvStat (p : path) (isFile : bool)
| EvReadFile (p : path) (r : option bytes)
| EvFetch (url : string) (r : option Response)
| EvRender (template : OgTemplateProps) (fonts : list FontEntry) (r : option bytes)
| EvUpload (sm : StorageManager) (key : string) (body : bytes) (contentType : string) (ok : bool)
| EvPublicUrl (sm : StorageManager) (key : string) (r : option string)
| EvLog (c : channel) (l : level) (message : string).

Definition event_of {X} (e : eff X) : X -> event :=
  match e in eff X return X -> event with
  | ReadSiteConfig p => EvReadSiteConfig p
  | Stat p => EvStat p
  | ReadFile p => EvReadFile p
  | Fetch url => EvFetch url
  | RenderOgImage t f => EvRender t f
  | UploadFile sm key body ct => EvUpload sm key body ct
  | GeneratePublicUrl sm key => EvPublicUrl sm key
  | Log c l m => fun _ => EvLog c l m
  end.

(** The environment answers every effect, from a state of its own. *)
Definition handler (W : Type) : Type := forall X, eff X -> W -> X * W.

Fixpoint run {W A} (h : handler W) (p : prog A) (w : W) : A * W * list event :=
  match p with
  | Ret a => (a, w, [])
  | Vis e k =>
      let '(x, w1) := h _ e w in
      let '(a, w2, t) := run h (k x) w1 in
      (a, w2, event_of e x :: t)
  end.

Definition result_of {W A} (r : A * W * list event) : A := fst (fst r).
Definition trace_of {W A} (r : A * W * list event) : list event := snd r.

(** ** Library functions of the JavaScript runtime

    The plugin calls these; they are not its code. *)
Class JsLib : Type := {
  Number_toString : float -> string;       (* a number inside a template literal *)
  Buffer_toBase64 : bytes -> string;       (* buffer.toString('base64') *)
  Date_parse : string -> float;            (* NaN when the string is no date *)
  toLocaleDateString : float -> string;    (* en-US, numeric year, short month, numeric day *)
}.

Section Plugin.
Context `{JsLib}.
Local Open Scope string_scope.

(** A value inside a template literal. *)
Definition interpolate (v : jsval) : string :=
  match v with JStr s => s | JNum n => Number_toString n end.

Definition bufferToDataUrl (buffer : bytes) (contentType : string) : string :=
  let base64 := Buffer_toBase64 buffer in
  "data:" +:+ contentType +:+ ";base64," +:+ base64.

(** *** Run state *)

Definition getOrCreateRunState (container : gmap string PluginRunState)
  : PluginRunState * gmap string PluginRunState :=
  match container !! RUN_STATE_KEY with
  | Some state => (state, container)
  | None =>
      let state := {| uploaded := ∅; urlCache := ∅; fonts := None; siteMeta := None |} in
      (state, <[RUN_STATE_KEY := state]> container)
  end.

(** The run state is one object shared with the container: an assignment to
    one of its fields is seen through the container.  [store] writes the
    current value of the object back. *)
Definition store (state : PluginRunState) (container : gmap string PluginRunState)
  : gmap string PluginRunState :=
  <[RUN_STATE_KEY := state]> container.

Definition with_siteMeta (m : SiteMeta) (state : PluginRunState) : PluginRunState :=
  {| uploaded := uploaded state; urlCache := urlCache state;
     fonts := fonts state; siteMeta := Some m |}.

Definition with_fonts (f : option (list FontEntry)) (state : PluginRunState) : PluginRunState :=
  {| uploaded := uploaded state; urlCache := urlCache state;
     fonts := f; siteMeta := siteMeta state |}.

Definition add_uploaded (key : string) (state : PluginRunState) : PluginRunState :=
  {| uploaded := {[ key ]} ∪ uploaded state; urlCache := urlCache state;
     fonts := fonts state; siteMeta := siteMeta state |}.

Definition set_urlCache (key url : string) (state : PluginRunState) : PluginRunState :=
  {| uploaded := uploaded state; urlCache := <[key := url]> (urlCache state);
     fonts := fonts state; siteMeta := siteMeta state |}.

(** *** Fonts *)

Definition fontCandidates (fileName : string) : list path :=
  [ RepoFile ogAssetsRel fileName;
    RepoFile "apps/core/src/modules/content/og/assets" fileName;
    RepoFile "core/src/modules/content/og/assets" fileName ].

(** The [for] loop of [loadFontFile].  The outer [option] is the promise:
    [None] when [readFile] rejects; the inner one is [Buffer | null]. *)
Fixpoint loadFontFileFrom (candidates : list path) : prog (option (option bytes)) :=
  match candidates with
  | [] => Ret (Some None)
  | candidate :: rest =>
      let* isFile := trigger (Stat candidate) in
      if isFile then
        let* data := trigger (ReadFile candidate) in
        match data with
        | Some buffer => Ret (Some (Some buffer))
        | None => Ret None
        end
      else loadFontFileFrom rest
  end.

Definition loadFontFile (fileName : string) : prog (option (option bytes)) :=
  loadFontFileFrom (fontCandidates fileName).

Definition GEIST_FILE : string := "Geist-Medium.ttf".
Definition HARMONY_FILE : string := "HarmonyOS_Sans_SC_Medium.ttf".
Definition FONTS_WARNING : string :=
  "OG image plugin: fonts not found, skip rendering for this run.".

Definition loadFonts : prog (option (option (list FontEntry))) :=
  let* geist := loadFontFile GEIST_FILE in
  match geist with
  | None => Ret None
  | Some geist =>
    let* harmony := loadFontFile HARMONY_FILE in
    match harmony with
    | None => Ret None
    | Some harmony =>
      match geist, harmony with
      | Some geist, Some harmony =>
          Ret (Some (Some
            [ {| font_name := "Geist"; font_data := geist;
                 font_style := "normal"; font_weight := 400 |};
              {| font_name := "HarmonyOS Sans SC"; font_data := harmony;
                 font_style := "normal"; font_weight := 400 |} ]))
      | _, _ =>
          trigger (Log Main Warn FONTS_WARNING) ;;
          Ret (Some None)
      end
    end
  end.

(** *** Site metadata

    [ReadSiteConfig] stands for reading and parsing the file; the log line
    of the fallback is kept without the path and the error text. *)

Definition trimmed (s : option string) : option string :=
  match s with Some s => Some (trim s) | None => None end.

Definition loadSiteMeta (options : OgImagePluginOptions) : prog SiteMeta :=
  let fallback :=
    {| meta_siteName :=
         default DEFAULT_SITE_NAME (orString (trimmed (opt_siteName options)) (Some DEFAULT_SITE_NAME));
       meta_accentColor :=
         orString (trimmed (opt_accentColor options)) (Some DEFAULT_ACCENT_COLOR) |} in
  let* parsed := trigger (ReadSiteConfig (opt_siteConfigPath options)) in
  match parsed with
  | Some parsed =>
      Ret {| meta_siteName :=
               default (meta_siteName fallback)
                 (orString (trimmed (json_name parsed))
                    (orString (trimmed (json_title parsed)) (Some (meta_siteName fallback))));
             meta_accentColor :=
               orString (trimmed (json_accentColor parsed)) (meta_accentColor fallback) |}
  | None =>
      trigger (Log Main Info "OG image plugin: using fallback site meta (site config not readable).") ;;
      Ret fallback
  end.

(** *** Thumbnail *)

Definition resolveThumbnailDataUrl (item : PhotoManifestItem)
    (pluginData : option ThumbnailPluginData) : prog (option string) :=
  match pluginData ≫= buffer with
  | Some buffer => Ret (Some (bufferToDataUrl buffer "image/jpeg"))
  | None =>
    let thumbnailUrl := orString (pluginData ≫= localUrl) (thumbnailUrl item) in
    match thumbnailUrl with
    | None => Ret None
    | Some thumbnailUrl =>
      if negb (truthyString thumbnailUrl) then Ret None else
      let contentType := guessContentType thumbnailUrl in
      let* fetched :=
        (if isAbsoluteHttpUrl thumbnailUrl then
           let* response := trigger (Fetch thumbnailUrl) in
           match response with
           | Some response =>
               if resp_ok response then
                 match resp_body response with
                 | Some arrayBuffer =>
                     Ret (Some (bufferToDataUrl arrayBuffer
                                  (default contentType (resp_contentType response))))
                 | None =>
                     trigger (Log Thumbnail Warn
                       ("OG image plugin: failed to fetch remote thumbnail " +:+ thumbnailUrl)) ;;
                     Ret None
                 end
               else Ret None
           | None =>
               trigger (Log Thumbnail Warn
                 ("OG image plugin: failed to fetch remote thumbnail " +:+ thumbnailUrl)) ;;
               Ret None
           end
         else Ret None) in
      match fetched with
      | Some dataUrl => Ret (Some dataUrl)
      | None =>
          let normalized := stripLeadingSlashes thumbnailUrl in
          let localPath := PublicFile normalized in
          let* localBuffer := trigger (ReadFile localPath) in
          match localBuffer with
          | Some localBuffer => Ret (Some (bufferToDataUrl localBuffer contentType))
          | None =>
              trigger (Log Thumbnail Debug
                ("OG image plugin: could not read local thumbnail public/" +:+ normalized)) ;;
              Ret None
          end
      end
    end
  end.

(** *** Metadata summary *)

Definition formatDate (input : option string) : option string :=
  match input with
  | None => None
  | Some input =>
      if negb (truthyString input) then None else
      let timestamp := Date_parse input in
      if PrimFloat.is_nan timestamp then None
      else Some (toLocaleDateString timestamp)
  end.

Definition buildExifInfo (photo : PhotoManifestItem) : option ExifInfo :=
  match exif photo with
  | None => None
  | Some exif =>
      let focalLength := orString (FocalLengthIn35mmFormat exif) (FocalLength exif) in
      let aperture :=
        match FNumber exif with
        | Some f => if truthy f then Some ("f/" +:+ interpolate f) else None
        | None => None
        end in
      let iso := ISO exif in
      let shutterSpeed :=
        match ExposureTime exif with
        | Some t => if truthy t then Some (interpolate t +:+ "s") else None
        | None => None
        end in
      let camera :=
        if truthyOptString (Make exif) && truthyOptString (Model exif) then
          Some (trim (trim (default "" (Make exif)) +:+ " " +:+ trim (default "" (Model exif))))
        else
          match Model exif with
          | Some model => Some model
          | None => Make exif
          end in
      if negb (truthyOptString focalLength) && negb (truthyOptString aperture)
         && negb (from_option truthy false iso)
         && negb (truthyOptString shutterSpeed) && negb (truthyOptString camera)
      then None
      else Some {| focalLength := focalLength; aperture := aperture; iso := iso;
                   shutterSpeed := shutterSpeed; camera := camera |}
  end.

Definition getPhotoDimensions (photo : PhotoManifestItem) : PhotoDimensions float :=
  {| dim_width := if truthyNumber (item_width photo) then item_width photo else num_lit 1 1;
     dim_height := if truthyNumber (item_height photo) then item_height photo else num_lit 1 1 |}.

(** *** The [afterPhotoProcess] hook *)

(** How the hook's promise settles. *)
Inductive Outcome := Resolved | Rejected.

(** What a hook call leaves behind: the shared container, the item (the
    hook writes [ogImageUrl] into the object it was given) and how the
    promise settled. *)
Record HookResult := {
  hr_shared : gmap string PluginRunState;
  hr_item : option PhotoManifestItem;
  hr_outcome : Outcome;
}.

Definition finish (container : gmap string PluginRunState)
    (item : option PhotoManifestItem) : prog HookResult :=
  Ret {| hr_shared := container; hr_item := item; hr_outcome := Resolved |}.

Definition remoteKeyOf (resolved : ResolvedPluginConfig) (item : PhotoManifestItem) : string :=
  joinSegments [Some (remotePrefix resolved); Some (id item +:+ ".png")].

Definition shouldRenderOf (payload : Payload) : bool :=
  negb (String.eqb (result_type payload) "skipped")
  || isForceMode payload || isForceManifest payload.

Definition templateOf (item : PhotoManifestItem) (meta : SiteMeta)
    (thumbnailSrc : option string) : OgTemplateProps :=
  {| photoTitle :=
       default "Untitled Photo" (orString (orString (title item) (Some (id item)))
                                          (Some "Untitled Photo"));
     siteName := if truthyString (meta_siteName meta) then meta_siteName meta
                 else DEFAULT_SITE_NAME;
     templateTags := take 3 (default [] (tags item));
     formattedDate :=
       formatDate (match exif item ≫= DateTimeOriginal with
                   | Some d => Some d
                   | None => lastModified item
                   end);
     exifInfo := buildExifInfo item;
     thumbnailSrc := thumbnailSrc;
     photoDimensions := getPhotoDimensions item;
     accentColor := default DEFAULT_ACCENT_COLOR (meta_accentColor meta) |}.

(** The block under [if (!shouldRender)]. *)
Definition resolveExisting (storageManager : StorageManager) (remoteKey : string)
    (state : PluginRunState) (container : gmap string PluginRunState)
    (item : PhotoManifestItem) : prog HookResult :=
  let* remoteUrl := trigger (GeneratePublicUrl storageManager remoteKey) in
  match remoteUrl with
  | Some remoteUrl =>
      finish (store (set_urlCache remoteKey remoteUrl state) container)
             (Some (set_ogImageUrl remoteUrl item))
  | None =>
      trigger (Log Main Info
        ("OG image plugin: skipped rendering and could not resolve URL for "
           +:+ remoteKey +:+ ".")) ;;
      finish (store state container) (Some item)
  end.

(** The part of the [try] block after a successful render: upload unless the
    key was uploaded in this run and no force flag is set, then look the
    public URL up (cache first) and write it to the item. *)
Definition publish (resolved : ResolvedPluginConfig) (storageManager : StorageManager)
    (payload : Payload) (remoteKey : string) (png : bytes)
    (state : PluginRunState) (container : gmap string PluginRunState)
    (item : PhotoManifestItem) : prog HookResult :=
  let* afterUpload :=
    (if negb (bool_decide (remoteKey ∈ uploaded state))
        || isForceMode payload || isForceManifest payload
     then
       let* ok := trigger (UploadFile storageManager remoteKey png (contentType resolved)) in
       if ok then Ret (Some (add_uploaded remoteKey state))
       else
         trigger (Log Main Error ("OG image plugin: failed to upload " +:+ remoteKey)) ;;
         Ret None
     else Ret (Some state)) in
  match afterUpload with
  | None => finish (store state container) (Some item)
  | Some state =>
      let cached := urlCache state !! remoteKey in
      if truthyOptString cached then
        finish (store state container)
               (Some (set_ogImageUrl (default "" cached) item))
      else
        let* remoteUrl := trigger (GeneratePublicUrl storageManager remoteKey) in
        match remoteUrl with
        | Some remoteUrl =>
            finish (store (set_urlCache remoteKey remoteUrl state) container)
                   (Some (set_ogImageUrl remoteUrl item))
        | None =>
            trigger (Log Main Error
              ("OG image plugin: failed to generate URL for " +:+ remoteKey)) ;;
            finish (store state container) (Some item)
        end
  end.

(** [resolved.useDefaultStorage ? builder.getStorageManager() :
    externalStorageManager]; the builder always has a storage manager. *)
Definition storageManagerOf (plugin : PluginInstance) (resolved : ResolvedPluginConfig)
  : option StorageManager :=
  if useDefaultStorage resolved then Some BuilderStorage
  else if externalStorageManager plugin then Some ExternalStorage
  else None.

(** The lines from [getOrCreateRunState] to the fonts check: the site
    metadata and the fonts are loaded into the run state unless it holds
    them already.  [LoadRejected] is the case of a font file that [stat]
    found and [readFile] could not read: the error leaves the hook. *)
Inductive Prepared :=
| LoadRejected (state : PluginRunState)
| Ready (state : PluginRunState) (meta : SiteMeta).

Definition prepareRunState (options : OgImagePluginOptions)
    (state : PluginRunState) : prog Prepared :=
  let* '(state, meta) :=
    match siteMeta state with
    | Some meta => Ret (state, meta)
    | None =>
        let* meta := loadSiteMeta options in
        Ret (with_siteMeta meta state, meta)
    end in
  match fonts state with
  | Some _ => Ret (Ready state meta)
  | None =>
      let* loadedFonts := loadFonts in
      match loadedFonts with
      | Some loadedFonts => Ret (Ready (with_fonts loadedFonts state) meta)
      | None => Ret (LoadRejected state)
      end
  end.

(** The rest of the hook once the fonts are there. *)
Definition processItem (resolved : ResolvedPluginConfig)
    (storageManager : StorageManager) (payload : Payload)
    (fonts : list FontEntry) (meta : SiteMeta)
    (state : PluginRunState) (container : gmap string PluginRunState)
    (item : PhotoManifestItem) : prog HookResult :=
  let shouldRender := shouldRenderOf payload in
  let remoteKey := remoteKeyOf resolved item in
  if negb shouldRender then
    resolveExisting storageManager remoteKey state container item
  else
    let* thumbnailSrc := resolveThumbnailDataUrl item (thumbnailData payload) in
    let* png := trigger (RenderOgImage (templateOf item meta thumbnailSrc) fonts) in
    match png with
    | Some png =>
        publish resolved storageManager payload remoteKey png state container item
    | None =>
        trigger (Log Main Error
          ("OG image plugin: failed to render OG image for " +:+ id item)) ;;
        finish (store state container) (Some item)
    end.

Definition afterPhotoProcess (plugin : PluginInstance) (payload : Payload)
    (runShared : gmap string PluginRunState) : prog HookResult :=
  match resolved plugin with
  | None => finish runShared (result_item payload)
  | Some resolved =>
  if negb (enabled resolved) then finish runShared (result_item payload) else
  match result_item payload with
  | None => finish runShared None
  | Some item =>
  match storageManagerOf plugin resolved with
  | None =>
      trigger (Log Main Warn
        "OG image plugin could not resolve storage manager. Skipping upload.") ;;
      finish runShared (Some item)
  | Some storageManager =>
  let '(state, container) := getOrCreateRunState runShared in
  let* prepared := prepareRunState (options plugin) state in
  match prepared with
  | LoadRejected state =>
      Ret {| hr_shared := store state container; hr_item := Some item;
             hr_outcome := Rejected |}
  | Ready state meta =>
  match fonts state with
  | None => finish (store state container) (Some item)
  | Some fonts =>
      processItem resolved storageManager payload fonts meta state container item
  end end end end end.

(** Modelled from the spec: the batch driver that calls the hook (the
    builder's plugin runner) is outside the files embedded here.
    Following the concurrency section of the specification, one run hands
    the items to the hook one after the other, each call seeing the
    container the previous one left, and goes on to the next item however
    a call ended. *)
Fixpoint runPlugin (plugin : PluginInstance) (payloads : list Payload)
    (runShared : gmap string PluginRunState)
  : prog (gmap string PluginRunState * list HookResult) :=
  match payloads with
  | [] => Ret (runShared, [])
  | payload :: rest =>
      let* r := afterPhotoProcess plugin payload runShared in
      let* out := runPlugin plugin rest (hr_shared r) in
      Ret (fst out, r :: snd out)
  end.

(** *** Reading the run state and the trace *)

Definition uploadedKeys (container : gmap string PluginRunState) : gset string :=
  match container !! RUN_STATE_KEY with
  | Some state => uploaded state
  | None => ∅
  end.

Definition cachedUrls (container : gmap string PluginRunState) : gmap string string :=
  match container !! RUN_STATE_KEY with
  | Some state => urlCache state
  | None => ∅
  end.

Definition loadedFonts (container : gmap string PluginRunState) : option (list FontEntry) :=
  container !! RUN_STATE_KEY ≫= fonts.

Definition isUpload (ev : event) : bool :=
  match ev with EvUpload _ _ _ _ _ => true | _ => false end.
Definition isRender (ev : event) : bool :=
  match ev with EvRender _ _ _ => true | _ => false end.
Definition isPublicUrl (ev : event) : bool :=
  match ev with EvPublicUrl _ _ _ => true | _ => false end.
Definition isStat (ev : event) : bool :=
  match ev with EvStat _ _ => true | _ => false end.
Definition isFontsWarning (ev : event) : bool :=
  match ev with
  | EvLog Main Warn message => String.eqb message FONTS_WARNING
  | _ => false
  end.

Definition count (f : event -> bool) (t : list event) : nat :=
  length (List.filter f t).

Definition isLog (ev : event) : bool :=
  match ev with EvLog _ _ _ => true | _ => false end.

(** The trace without its logger calls. *)
Definition calls (t : list event) : list event :=
  List.filter (fun ev => negb (isLog ev)) t.

(** What a fetch brought: the body and the declared content type of a
    response that is [ok] and whose body could be read. *)
Definition fetchedBody (response : option Response) : option (bytes * option string) :=
  match response with
  | Some response =>
      if resp_ok response then
        match resp_body response with
        | Some body => Some (body, resp_contentType response)
        | None => None
        end
      else None
  | None => None
  end.


(** A trace is quiet when nothing was rendered, uploaded or resolved. *)
Definition quiet (t : list event) : Prop :=
  forall ev, In ev t ->
    isRender ev = false /\ isUpload ev = false /\ isPublicUrl ev = false.

(** A font file is missing in a trace when every [stat] of one of its
    candidate paths found no file. *)
Definition fontMissing (fileName : string) (t : list event) : Prop :=
  forall p isFile, In (EvStat p isFile) t -> In p (fontCandidates fileName) ->
                   isFile = false.

(** A font file that [stat] found could not be read. *)
Definition fontUnreadable (t : list event) : Prop :=
  exists fileName p,
    (fileName = GEIST_FILE \/ fileName = HARMONY_FILE) /\
    In p (fontCandidates fileName) /\
    In (EvStat p true) t /\ In (EvReadFile p None) t.

(** *** The ways the tail of the hook can go

    [processItem] performs at most one render, one upload and one URL
    resolution, in this order.  The relations below list its runs: the
    result and the trace of each path through the source. *)

(** The upload decision.  [None] is the failed upload. *)
Inductive UploadStep (cfg : ResolvedPluginConfig) (sm : StorageManager)
    (payload : Payload) (key : string) (png : bytes) (state : PluginRunState)
  : option PluginRunState -> list event -> Prop :=
| US_skipped :
    key ∈ uploaded state ->
    isForceMode payload = false -> isForceManifest payload = false ->
    UploadStep cfg sm payload key png state (Some state) []
| US_uploaded :
    key ∉ uploaded state \/ isForceMode payload = true \/ isForceManifest payload = true ->
    UploadStep cfg sm payload key png state (Some (add_uploaded key state))
      [EvUpload sm key png (contentType cfg) true]
| US_failed message :
    key ∉ uploaded state \/ isForceMode payload = true \/ isForceManifest payload = true ->
    UploadStep cfg sm payload key png state None
      [EvUpload sm key png (contentType cfg) false; EvLog Main Error message].

Inductive PublishRun (cfg : ResolvedPluginConfig) (sm : StorageManager)
    (payload : Payload) (key : string) (png : bytes) (state : PluginRunState)
    (container : gmap string PluginRunState) (item : PhotoManifestItem)
  : HookResult -> list event -> Prop :=
| PB_upload_failed tu :
    UploadStep cfg sm payload key png state None tu ->
    PublishRun cfg sm payload key png state container item
      {| hr_shared := store state container; hr_item := Some item;
         hr_outcome := Resolved |} tu
| PB_cached state1 tu url :
    UploadStep cfg sm payload key png state (Some state1) tu ->
    urlCache state1 !! key = Some url -> truthyString url = true ->
    PublishRun cfg sm payload key png state container item
      {| hr_shared := store state1 container;
         hr_item := Some (set_ogImageUrl url item);
         hr_outcome := Resolved |} tu
| PB_resolved state1 tu url :
    UploadStep cfg sm payload key png state (Some state1) tu ->
    truthyOptString (urlCache state1 !! key) = false ->
    PublishRun cfg sm payload key png state container item
      {| hr_shared := store (set_urlCache key url state1) container;
         hr_item := Some (set_ogImageUrl url item);
         hr_outcome := Resolved |}
      (tu ++ [EvPublicUrl sm key (Some url)])
| PB_unresolved state1 tu message :
    UploadStep cfg sm payload key png state (Some state1) tu ->
    truthyOptString (urlCache state1 !! key) = false ->
    PublishRun cfg sm payload key png state container item
      {| hr_shared := store state1 container; hr_item := Some item;
         hr_outcome := Resolved |}
      (tu ++ [EvPublicUrl sm key None; EvLog Main Error message]).

Inductive ProcessRun (cfg : ResolvedPluginConfig) (sm : StorageManager)
    (payload : Payload) (state : PluginRunState)
    (container : gmap string PluginRunState) (item : PhotoManifestItem)
  : HookResult -> list event -> Prop :=
| PR_existing url :
    shouldRenderOf payload = false ->
    ProcessRun cfg sm payload state container item
      {| hr_shared := store (set_urlCache (remoteKeyOf cfg item) url state) container;
         hr_item := Some (set_ogImageUrl url item);
         hr_outcome := Resolved |}
      [EvPublicUrl sm (remoteKeyOf cfg item) (Some url)]
| PR_existing_failed message :
    shouldRenderOf payload = false ->
    ProcessRun cfg sm payload state container item
      {| hr_shared := store state container; hr_item := Some item;
         hr_outcome := Resolved |}
      [EvPublicUrl sm (remoteKeyOf cfg item) None; EvLog Main Info message]
| PR_render_failed t0 template fonts message :
    shouldRenderOf payload = true -> quiet t0 ->
    ProcessRun cfg sm payload state container item
      {| hr_shared := store state container; hr_item := Some item;
         hr_outcome := Resolved |}
      (t0 ++ [EvRender template fonts None; EvLog Main Error message])
| PR_published t0 template fonts png r t1 :
    shouldRenderOf payload = true -> quiet t0 ->
    PublishRun cfg sm payload (remoteKeyOf cfg item) png state container item r t1 ->
    ProcessRun cfg sm payload state container item r
      (t0 ++ EvRender template fonts (Some png) :: t1).

(** The runs of the whole hook: it leaves at one of its guards, or it
    could not get the fonts, or it went on to [processItem] on the run state
    found in (or created for) the container. *)
Inductive HookRun (plugin : PluginInstance) (payload : Payload)
    (runShared : gmap string PluginRunState)
  : HookResult -> list event -> Prop :=
| HR_idle t :
    quiet t ->
    HookRun plugin payload runShared
      {| hr_shared := runShared; hr_item := result_item payload;
         hr_outcome := Resolved |} t
| HR_unprepared item container outcome t :
    result_item payload = Some item -> quiet t ->
    uploadedKeys container = uploadedKeys runShared ->
    cachedUrls container = cachedUrls runShared ->
    loadedFonts container = None ->
    (outcome = Rejected -> fontUnreadable t) ->
    HookRun plugin payload runShared
      {| hr_shared := container; hr_item := Some item; hr_outcome := outcome |} t
| HR_processed cfg item sm state container t0 r t1 :
    resolved plugin = Some cfg -> result_item payload = Some item ->
    quiet t0 ->
    uploaded state = uploadedKeys runShared ->
    urlCache state = cachedUrls runShared ->
    (loadedFonts runShared = None ->
     ~ (fontMissing GEIST_FILE t0 \/ fontMissing HARMONY_FILE t0)) ->
    ProcessRun cfg sm payload state container item r t1 ->
    HookRun plugin payload runShared r (t0 ++ t1).

End Plugin.

(** ** Sample environments *)

(** A runtime library for the examples: it prints the two numbers the
    examples use. *)
Definition sampleLib : JsLib := {|
  Number_toString n :=
    if PrimFloat.eqb n (num_lit 28 10) then "2.8"
    else if PrimFloat.eqb n (num_lit 100 1) then "100" else "NaN";
  Buffer_toBase64 _ := "AAAA";
  Date_parse _ := PrimFloat.nan;
  toLocaleDateString _ := "Jul 4, 2023";
|}.

(** An environment that answers each kind of call the same way throughout:
    whether the font files exist, and whether rendering, uploading and URL
    resolution succeed.  There is no site configuration and no thumbnail. *)
Record Scenario := {
  sc_fonts : bool;
  sc_render : bool;
  sc_upload : bool;
  sc_url : bool;
}.

Definition scenarioEnv (s : Scenario) : handler unit :=
  fun X e w =>
    (match e in eff X return X with
     | ReadSiteConfig _ => None
     | Stat _ => sc_fonts s
     | ReadFile (RepoFile _ _) => Some []
     | ReadFile (PublicFile _) => None
     | Fetch _ => None
     | RenderOgImage _ _ => if sc_render s then Some [] else None
     | UploadFile _ _ _ _ => sc_upload s
     | GeneratePublicUrl _ key =>
         if sc_url s then Some ("https://cdn.example/" +:+ key) else None
     | Log _ _ _ => tt
     end, w).

Definition sampleConfig : ResolvedPluginConfig :=
  {| directory := ".afilmory/og-images"; remotePrefix := ".afilmory/og-images";
     contentType := "image/png"; useDefaultStorage := true; enabled := true |}.

Definition samplePlugin : PluginInstance :=
  {| options := {| opt_siteName := None; opt_accentColor := None;
                   opt_siteConfigPath := None |};
     resolved := Some sampleConfig;
     externalStorageManager := false |}.

Definition sampleItem (name : string) : PhotoManifestItem :=
  {| id := name; title := Some name; tags := None;
     item_width := num_lit 1600 1; item_height := num_lit 900 1;
     exif := None; thumbnailUrl := None; lastModified := None;
     ogImageUrl := None |}.

Definition samplePayload (name type : string) (force : bool) : Payload :=
  {| result_item := Some (sampleItem name); result_type := type;
     isForceMode := force; isForceManifest := false;
     thumbnailData := None |}.

Definition allGood : Scenario :=
  {| sc_fonts := true; sc_render := true; sc_upload := true; sc_url := true |}.
Definition noUpload : Scenario :=
  {| sc_fonts := true; sc_render := true; sc_upload := false; sc_url := true |}.
Definition noFonts : Scenario :=
  {| sc_fonts := false; sc_render := true; sc_upload := true; sc_url := true |}.

(** A container in the middle of a run: the fonts are loaded and the image
    of item [a] was uploaded. *)
Definition sampleShared : gmap string PluginRunState :=
  {[ RUN_STATE_KEY :=
       {| uploaded := {[ ".afilmory/og-images/a.png" ]}; urlCache := ∅;
          fonts := Some []; siteMeta := None |} ]}.

(** An environment for the thumbnail resolver: the fetch answers with the
    given response, the local read with the given bytes. *)
Definition thumbnailEnv (response : option Response) (localFile : option bytes)
  : handler unit :=
  fun X e w =>
    (match e in eff X return X with
     | ReadSiteConfig _ => None
     | Stat _ => false
     | ReadFile _ => localFile
     | Fetch _ => response
     | RenderOgImage _ _ => None
     | UploadFile _ _ _ _ => false
     | GeneratePublicUrl _ _ => None
     | Log _ _ _ => tt
     end, w).

Definition remoteThumbnailItem : PhotoManifestItem :=
  {| id := "t"; title := None; tags := None;
     item_width := num_lit 1600 1; item_height := num_lit 900 1;
     exif := None; thumbnailUrl := Some "https://cdn.example/thumbnails/T.WEBP";
     lastModified := None; ogImageUrl := None |}.

(** An item whose only EXIF field is the given ISO value. *)
Definition isoOnlyPhoto (v : jsval) : PhotoManifestItem :=
  {| id := "iso"; title := None; tags := None;
     item_width := num_lit 1600 1; item_height := num_lit 900 1;
     exif := Some {| FocalLengthIn35mmFormat := None; FocalLength := None;
                     FNumber := None; ISO := Some v; ExposureTime := None;
                     Make := None; Model := None; DateTimeOriginal := None |};
     thumbnailUrl := None; lastModified := None; ogImageUrl := None |}.

End OgImagePlugin.

(* ===================================================================== *)
(** * Part II-b: set-up of the plugin ([onInit] and its path helpers)     *)
(* ===================================================================== *)

Module PluginSetup.
Import Layout OgImagePlugin.
Local Open Scope string_scope.
Local Open Scope list_scope.

Definition DEFAULT_DIRECTORY : string := ".afilmory/og-images".
Definition DEFAULT_CONTENT_TYPE : string := "image/png".

Definition normalizeDirectory (directory : option string) : string :=
  let value := default DEFAULT_DIRECTORY
                 (orString (trimmed directory) (Some DEFAULT_DIRECTORY)) in
  let normalized := normalizeSlashes value in
  if truthyString normalized then normalized else DEFAULT_DIRECTORY.

Definition trimSlashes (value : option string) : option string :=
  match value with
  | None => None
  | Some value =>
      if negb (truthyString value) then None else
      let normalized := normalizeSlashes value in
      if (0 <? String.length normalized)%nat then Some normalized else None
  end.

(** A storage configuration.  Modelled from the spec: the declaration of
    [StorageConfig] belongs to the builder's storage interfaces, outside
    the files embedded here.  The two fields are the ones [onInit] and
    [resolveRemotePrefix] read: the provider's name, and the key prefix
    that the S3-compatible configurations carry. *)
Record StorageConfig := {
  provider : string;
  prefix : option string;
}.

Definition resolveRemotePrefix (config : StorageConfig) (directory : string) : string :=
  if String.eqb (provider config) "s3" || String.eqb (provider config) "oss"
     || String.eqb (provider config) "cos"
  then
    let base := trimSlashes (prefix config) in
    joinSegments [base; Some directory]
  else joinSegments [Some directory].

(** The options [onInit] reads, beside the ones the hook hands to
    [loadSiteMeta] ([siteName], [accentColor], [siteConfigPath]). *)
Record InitOptions := {
  enable : option bool;
  opt_directory : option string;
  opt_storageConfig : option StorageConfig;
  opt_contentType : option string;
  hookOptions : OgImagePluginOptions;
}.

(** What [onInit] does to the logger and to the builder. *)
Inductive InitEffect :=
| WarnUnsupported (message : string)
| AddExcludePrefix (remotePrefix : string)
| NewStorageManager (config : StorageConfig).

(** The closure after [onInit]: [resolved] and [externalStorageManager]
    (with the options, a [PluginInstance]), [resolved.storageConfig], and
    the calls made on the way. *)
Record Initialized := {
  instance : PluginInstance;
  resolvedStorageConfig : option StorageConfig;
  initEffects : list InitEffect;
}.

Definition EAGLE_WARNING : string :=
  "OG image plugin does not support Eagle storage provider; plugin disabled.".

(** [onInit], given [config.user?.storage] and what
    [builder.getStorageConfig()] returns. *)
Definition onInit (opts : InitOptions) (userStorage : option StorageConfig)
    (builderStorage : StorageConfig) : Initialized :=
  let enable := default true (enable opts) in
  let dir := normalizeDirectory (opt_directory opts) in
  let ctype := default DEFAULT_CONTENT_TYPE (opt_contentType opts) in
  if negb enable then
    {| instance :=
         {| options := hookOptions opts;
            resolved := Some {| directory := dir; remotePrefix := "";
                                contentType := ctype; useDefaultStorage := true;
                                enabled := false |};
            externalStorageManager := false |};
       resolvedStorageConfig := None;
       initEffects := [] |}
  else
    let fallbackStorage := default builderStorage userStorage in
    let storageConfig := default fallbackStorage (opt_storageConfig opts) in
    let useDefault :=
      match opt_storageConfig opts with Some _ => false | None => true end in
    if String.eqb (provider storageConfig) "eagle" then
      {| instance :=
           {| options := hookOptions opts;
              resolved := Some {| directory := dir; remotePrefix := "";
                                  contentType := ctype;
                                  useDefaultStorage := useDefault;
                                  enabled := false |};
              externalStorageManager := false |};
         resolvedStorageConfig := None;
         initEffects := [WarnUnsupported EAGLE_WARNING] |}
    else
      let prefix := resolveRemotePrefix storageConfig dir in
      {| instance :=
           {| options := hookOptions opts;
              resolved := Some {| directory := dir; remotePrefix := prefix;
                                  contentType := ctype;
                                  useDefaultStorage := useDefault;
                                  enabled := true |};
              externalStorageManager := negb useDefault |};
         resolvedStorageConfig := Some storageConfig;
         initEffects :=
           if useDefault then [AddExcludePrefix prefix]
           else [NewStorageManager storageConfig] |}.

(** The plugin as [ogImagePlugin(options)] returns it, before [onInit]
    ran: [resolved] is still [null]. *)
Definition ogImagePlugin (opts : InitOptions) : PluginInstance :=
  {| options := hookOptions opts; resolved := None; externalStorageManager := false |}.

End PluginSetup.

(* ===================================================================== *)
(** * Part II-c: the info panel of the template ([og.template.tsx])       *)
(* ===================================================================== *)

Module Template.
Import Layout OgImagePlugin.
Local Open Scope string_scope.
Local Open Scope list_scope.

Section Template.
Context `{JsLib}.

(** One entry of the EXIF line: [{ label, text }]. *)
Record ExifItem := { label : string; text : string }.

(** [if (value) items.push({ label, text: value })] *)
Definition exifItem (label : string) (value : option string) : list ExifItem :=
  match value with
  | Some text => if truthyString text then [{| label := label; text := text |}] else []
  | None => []
  end.

Definition buildExifItems (exifInfo : option ExifInfo) : list ExifItem :=
  exifItem "f" (exifInfo ≫= aperture)
  ++ exifItem "s" (exifInfo ≫= shutterSpeed)
  ++ match exifInfo ≫= iso with
     | Some v => if truthy v then [{| label := "iso"; text := interpolate v |}] else []
     | None => []
     end
  ++ exifItem "mm" (exifInfo ≫= focalLength).

Record InfoPanelProps := {
  info_title : string;
  info_tags : list string;
  info_exifItems : list ExifItem;
  info_camera : option string;
  info_formattedDate : option string;
  info_accentColor : string;
  info_compact : bool;
}.

(** The props [OgTemplate] computes for its [InfoPanel]. *)
Definition infoPanelProps (props : OgTemplateProps) : InfoPanelProps :=
  let layout := determineLayout (photoAspect (photoDimensions props)) in
  {| info_title := if truthyString (photoTitle props) then photoTitle props
                   else "Untitled Photo";
     info_tags := templateTags props;
     info_exifItems := buildExifItems (exifInfo props);
     info_camera := exifInfo props ≫= camera;
     info_formattedDate := formattedDate props;
     info_accentColor := accentColor props;
     info_compact := infoCompact layout |}.

(** What [InfoPanel] puts on the canvas, without the styles: the title,
    the tags up to the limit, and the camera, the EXIF line and the date
    when there is something to show. *)
Record InfoPanelView := {
  view_title : string;
  view_tags : list string;
  view_camera : option string;
  view_exifItems : list ExifItem;
  view_date : option string;
  view_accentColor : string;
}.

Definition InfoPanel (p : InfoPanelProps) : InfoPanelView :=
  let tagLimit := if info_compact p then 2%nat else 3%nat in
  {| view_title := info_title p;
     view_tags := if (0 <? length (info_tags p))%nat
                  then take tagLimit (info_tags p) else [];
     view_camera := if truthyOptString (info_camera p) then info_camera p else None;
     view_exifItems := if (0 <? length (info_exifItems p))%nat
                       then info_exifItems p else [];
     view_date := if truthyOptString (info_formattedDate p)
                  then info_formattedDate p else None;
     view_accentColor := info_accentColor p |}.

End Template.
End Template.

(* ===================================================================== *)
(** * Part II-d: the thumbnail lookup of the OG service ([OgService])    *)
(* ===================================================================== *)

Module OgService.
Import Layout OgImagePlugin.
Local Open Scope string_scope.
Local Open Scope list_scope.
Local Open Scope prog_scope.

(** [value.replace(/\.webp$/i, '.jpg')] *)
Definition replaceWebpSuffix (value : string) : string :=
  if endsWith (toLowerCase value) ".webp"
  then of_chars (take (length (chars value) - 5) (chars value)) +:+ ".jpg"
  else value.

Definition normalizeThumbnailPath (value : option string) : option string :=
  match value with
  | None => None
  | Some value =>
      if negb (truthyString value) then None else
      let replaced := replaceWebpSuffix value in
      Some replaced
  end.

(** [ThumbnailCandidateResult] *)
Record ThumbnailCandidateResult := {
  tc_buffer : bytes;
  tc_contentType : string;
}.

(** [tryFetchUrl]: whatever goes wrong inside the [try] gives [null]. *)
Definition tryFetchUrl (url : string) : prog (option ThumbnailCandidateResult) :=
  let* response := trigger (Fetch url) in
  match response with
  | Some response =>
      if negb (resp_ok response) then Ret None else
      match resp_body response with
      | Some arrayBuffer =>
          let contentType := default "image/jpeg" (resp_contentType response) in
          Ret (Some {| tc_buffer := arrayBuffer; tc_contentType := contentType |})
      | None => Ret None
      end
  | None => Ret None
  end.

(** The [for] loop of [fetchThumbnailBuffer]. *)
Fixpoint fetchFirst (requests : list string) : prog (option ThumbnailCandidateResult) :=
  match requests with
  | [] => Ret None
  | candidate :: rest =>
      let* fetched := tryFetchUrl candidate in
      match fetched with
      | Some fetched => Ret (Some fetched)
      | None => fetchFirst rest
      end
  end.

(** [Array.from(new Set(result))]: the first occurrence of each element,
    in the order of insertion. *)
Fixpoint uniqueFrom (seen : list string) (l : list string) : list string :=
  match l with
  | [] => []
  | x :: rest =>
      if bool_decide (x ∈ seen) then uniqueFrom seen rest
      else x :: uniqueFrom (x :: seen) rest
  end.

Definition unique (l : list string) : list string := uniqueFrom [] l.

(** [value.replace(/\/+$/, '')] *)
Definition stripTrailingSlashes (s : string) : string :=
  of_chars (dropWhileEnd isSlash (chars s)).

Section Service.
Context `{JsLib}.

(** The [URL] class of the runtime: a parsed base, and
    [new URL(path, base).toString()], which is [None] when the constructor
    throws. *)
Variable Base : Type.
Variable URL_resolve : string -> Base -> option string.

(** [buildThumbnailUrlCandidates], given what [resolveBaseUrl(context)]
    returns and the value of [process.env.OG_THUMBNAIL_ORIGIN].  [None] is
    the [TypeError] of a [URL] that cannot be built. *)
Definition buildThumbnailUrlCandidates (base : option Base)
    (OG_THUMBNAIL_ORIGIN : option string) (thumbnailPath : string)
  : option (list string) :=
  let externalOverride := trimmed OG_THUMBNAIL_ORIGIN in
  let normalizedPath :=
    if startsWith thumbnailPath "/" then thumbnailPath else "/" +:+ thumbnailPath in
  result ←
    (if startsWith thumbnailPath "http://" || startsWith thumbnailPath "https://"
     then Some [thumbnailPath]
     else
       fromBase ←
         match base with
         | Some base =>
             first ← URL_resolve normalizedPath base;
             if negb (startsWith normalizedPath "/static/web/") then
               second ← URL_resolve ("/static/web" +:+ normalizedPath) base;
               Some [first; second]
             else Some [first]
         | None => Some []
         end;
       Some (fromBase ++
             match externalOverride with
             | Some externalOverride =>
                 if truthyString externalOverride
                 then [stripTrailingSlashes externalOverride +:+ normalizedPath]
                 else []
             | None => []
             end));
  Some (unique result).

(** [fetchThumbnailBuffer] and [resolveThumbnailSrc]; the outer [option]
    of the result is the promise, [None] when it rejects. *)
Definition fetchThumbnailBuffer (base : option Base) (OG_THUMBNAIL_ORIGIN : option string)
    (thumbnailPath : string) : prog (option (option ThumbnailCandidateResult)) :=
  match buildThumbnailUrlCandidates base OG_THUMBNAIL_ORIGIN thumbnailPath with
  | None => Ret None
  | Some requests =>
      let* fetched := fetchFirst requests in
      Ret (Some fetched)
  end.

Definition resolveThumbnailSrc (base : option Base) (OG_THUMBNAIL_ORIGIN : option string)
    (photo : PhotoManifestItem) : prog (option (option string)) :=
  match normalizeThumbnailPath (thumbnailUrl photo) with
  | None => Ret (Some None)
  | Some normalized =>
      let* fetched := fetchThumbnailBuffer base OG_THUMBNAIL_ORIGIN normalized in
      match fetched with
      | None => Ret None
      | Some None => Ret (Some None)
      | Some (Some fetched) =>
          Ret (Some (Some (bufferToDataUrl (tc_buffer fetched) (tc_contentType fetched))))
      end
  end.

End Service.
End OgService.

(* ===================================================================== *)
(** * Part II-e: reading paths, traces and run states                     *)
(* ===================================================================== *)

Module Observations.
Import Layout OgImagePlugin PluginSetup Template OgService.
Local Open Scope string_scope.
Local Open Scope list_scope.

(** ** Paths *)

(** A path in normal form: no backslash, no slash at either end. *)
Definition normalPath (s : string) : Prop :=
  ~ In backslash (chars s) /\ startsWith s "/" = false /\ endsWith s "/" = false.

Definition normalChars (l : list ascii) : Prop :=
  ~ In backslash l /\
  (forall x r, l = x :: r -> isSlash x = false) /\
  (forall x r, l = r ++ [x] -> isSlash x = false).

Definition unbackslash (c : ascii) : ascii :=
  if Ascii.eqb c backslash then slash else c.

(** The segments [joinSegments] keeps. *)
Definition kept (segments : list (option string)) : list string :=
  List.filter truthyString
    (map (fun segment => normalizeSlashes (default "" segment)) segments).

(** The item's part of the remote key: the id with backslashes turned into
    slashes and leading slashes dropped. *)
Definition keyName (id : string) : string :=
  of_chars (dropWhile isSlash (map unbackslash (chars id))).

(** An id is plain when it holds no backslash and does not start with a
    slash. *)
Definition plainId (id : string) : Prop :=
  ~ In backslash (chars id) /\ startsWith id "/" = false.

(** The providers whose prefix [resolveRemotePrefix] reads. *)
Definition prefixBearing (config : StorageConfig) : bool :=
  String.eqb (provider config) "s3" || String.eqb (provider config) "oss"
  || String.eqb (provider config) "cos".

(** ** Set-up *)

(** The storage [onInit] settles on. *)
Definition effectiveStorage (opts : InitOptions) (userStorage : option StorageConfig)
    (builderStorage : StorageConfig) : StorageConfig :=
  default (default builderStorage userStorage) (opt_storageConfig opts).

(** Whether [onInit] leaves the plugin enabled. *)
Definition willEnable (opts : InitOptions) (userStorage : option StorageConfig)
    (builderStorage : StorageConfig) : bool :=
  default true (enable opts)
  && negb (String.eqb (provider (effectiveStorage opts userStorage builderStorage)) "eagle").

(** The storage manager the hook is to use. *)
Definition expectedManager (opts : InitOptions) : StorageManager :=
  match opt_storageConfig opts with Some _ => ExternalStorage | None => BuilderStorage end.

(** ** Traces *)

(** Every event a program can produce, whatever the environment answers,
    satisfies [P]. *)
Fixpoint always {A} (P : event -> Prop) (p : prog A) : Prop :=
  match p with
  | Ret _ => True
  | Vis e k => forall x, P (event_of e x) /\ always P (k x)
  end.

Definition siteMetaOf (container : gmap string PluginRunState) : option SiteMeta :=
  container !! RUN_STATE_KEY ≫= siteMeta.

Definition isReadSiteConfig (ev : event) : bool :=
  match ev with EvReadSiteConfig _ _ => true | _ => false end.

(** A read of a file of the repository: the font files. *)
Definition isFontRead (ev : event) : bool :=
  match ev with EvReadFile (RepoFile _ _) _ => true | _ => false end.

Definition STORAGE_WARNING : string :=
  "OG image plugin could not resolve storage manager. Skipping upload.".

(** The result of a hook call that returned at one of its guards. *)
Definition idle (payload : Payload) (runShared : gmap string PluginRunState) : HookResult :=
  {| hr_shared := runShared; hr_item := result_item payload; hr_outcome := Resolved |}.

(** The events after the fonts check leave the fonts and the site
    configuration alone. *)
Definition tailEvent (ev : event) : Prop :=
  isStat ev = false /\ isFontRead ev = false /\ isReadSiteConfig ev = false /\
  isFontsWarning ev = false.

(** The [stat] calls that found no file at the given paths. *)
Definition statMisses (candidates : list path) : list event :=
  map (fun p => EvStat p false) candidates.

(** A font file is absent when every one of its candidate paths was
    probed and none is a file. *)
Definition fontAbsent (fileName : string) (t : list event) : Prop :=
  forall p, In p (fontCandidates fileName) -> In (EvStat p false) t.

(** The value [loadFonts] returns for the two buffers. *)
Definition fontEntries (geist harmony : bytes) : list FontEntry :=
  [ {| font_name := "Geist"; font_data := geist;
       font_style := "normal"; font_weight := 400 |};
    {| font_name := "HarmonyOS Sans SC"; font_data := harmony;
       font_style := "normal"; font_weight := 400 |} ].

Definition stateOf (prepared : Prepared) : PluginRunState :=
  match prepared with LoadRejected st => st | Ready st _ => st end.

(** How often [prepareRunState] reads the site configuration. *)
Definition siteConfigReads (state : PluginRunState) : nat :=
  match siteMeta state with Some _ => 0 | None => 1 end.

(** The renderer and storage calls of a trace. *)
Definition pipeline (t : list event) : list event :=
  List.filter (fun ev => isRender ev || isUpload ev || isPublicUrl ev) t.

(** The sequences of renderer and storage calls one hook call can make. *)
Definition pipelineShape (p : list event) : Prop :=
  p = [] \/
  (exists sm key r, p = [EvPublicUrl sm key r]) \/
  (exists template fonts, p = [EvRender template fonts None]) \/
  (exists template fonts png tail,
     p = EvRender template fonts (Some png) :: tail /\
     (tail = [] \/
      (exists sm key r, tail = [EvPublicUrl sm key r]) \/
      (exists sm key ct, tail = [EvUpload sm key png ct false]) \/
      (exists sm key ct, tail = [EvUpload sm key png ct true]) \/
      (exists sm key ct r,
         tail = [EvUpload sm key png ct true; EvPublicUrl sm key r]))).

(** The title the hook hands to the renderer: [item.title || item.id ||
    'Untitled Photo']. *)
Definition titleOf (item : PhotoManifestItem) : string :=
  if truthyOptString (title item) then default "" (title item)
  else if truthyString (id item) then id item else "Untitled Photo".

(** ** The OG service *)

(** The test on the scheme in [buildThumbnailUrlCandidates]. *)
Definition isAbsolute (thumbnailPath : string) : bool :=
  startsWith thumbnailPath "http://" || startsWith thumbnailPath "https://".

(** What a fetch brought, as [tryFetchUrl] reads it. *)
Definition fetchResult (response : option Response) : option ThumbnailCandidateResult :=
  match fetchedBody response with
  | Some (body, contentType) =>
      Some {| tc_buffer := body; tc_contentType := default "image/jpeg" contentType |}
  | None => None
  end.

(** Requests with their answers. *)
Definition fetches (urls : list string) (responses : list (option Response))
  : list event :=
  zip_with EvFetch urls responses.

Section Observations.
Context `{JsLib}.

Definition isFontPath (p : path) : Prop :=
  In p (fontCandidates GEIST_FILE) \/ In p (fontCandidates HARMONY_FILE).

(** What one call of the hook may do, given the plugin and the payload. *)
Definition hookEvent (plugin : PluginInstance) (payload : Payload) (ev : event) : Prop :=
  match ev with
  | EvReadSiteConfig p _ => p = opt_siteConfigPath (options plugin)
  | EvStat p _ => isFontPath p
  | EvReadFile (RepoFile d f) _ => isFontPath (RepoFile d f)
  | EvReadFile (PublicFile _) _ => True
  | EvFetch _ _ => True
  | EvRender template _ _ =>
      exists item meta thumbnailSrc,
        result_item payload = Some item /\
        template = templateOf item meta thumbnailSrc
  | EvUpload sm key _ ct _ =>
      exists cfg item,
        resolved plugin = Some cfg /\ result_item payload = Some item /\
        storageManagerOf plugin cfg = Some sm /\
        key = remoteKeyOf cfg item /\ ct = contentType cfg
  | EvPublicUrl sm key _ =>
      exists cfg item,
        resolved plugin = Some cfg /\ result_item payload = Some item /\
        storageManagerOf plugin cfg = Some sm /\
        key = remoteKeyOf cfg item
  | EvLog Main Warn message =>
      message = FONTS_WARNING \/
      (message = STORAGE_WARNING /\
       exists cfg, resolved plugin = Some cfg /\ storageManagerOf plugin cfg = None)
  | EvLog _ _ _ => True
  end.

(** An EXIF entry for a field that is a string or a number. *)
Definition numberItem (label : string) (value : option jsval)
    (show : jsval -> string) : list ExifItem :=
  match value with
  | Some v => if truthy v then [{| label := label; text := show v |}] else []
  | None => []
  end.

(** The EXIF line of an item, read off its EXIF block. *)
Definition exifLine (photo : PhotoManifestItem) : list ExifItem :=
  match exif photo with
  | None => []
  | Some e =>
      numberItem "f" (FNumber e) (fun v => "f/" +:+ interpolate v)
      ++ numberItem "s" (ExposureTime e) (fun v => interpolate v +:+ "s")
      ++ numberItem "iso" (ISO e) interpolate
      ++ exifItem "mm" (orString (FocalLengthIn35mmFormat e) (FocalLength e))
  end.

End Observations.

(** ** Sample values *)

(** A container whose run state holds the fonts and a URL for item [a]. *)
Definition cachedShared : gmap string PluginRunState :=
  {[ RUN_STATE_KEY :=
       {| uploaded := ∅;
          urlCache := {[ ".afilmory/og-images/a.png" := "https://cdn.example/a.png" ]};
          fonts := Some []; siteMeta := None |} ]}.

(** Options that switch the plugin off. *)
Definition disabledOptions : InitOptions :=
  {| enable := Some false; opt_directory := None; opt_storageConfig := None;
     opt_contentType := None;
     hookOptions := {| opt_siteName := None; opt_accentColor := None;
                       opt_siteConfigPath := None |} |}.

Definition localStorage : StorageConfig :=
  {| provider := "local"; prefix := None |}.

End Observations.

(* ===================================================================== *)
(** * Part III: properties of the layout engine                           *)
(* ===================================================================== *)

Module LayoutSpec.
Import Layout.
Local Open Scope num_scope.

(** The decimal literals of the layout code, as binary64 values. *)
Example float_literals :
  (num_lit 9 10 : float) = 0x1.ccccccccccccdp-1%float /\
  (num_lit 11 10 : float) = 0x1.199999999999ap+0%float /\
  (num_lit 235 100 : float) = 0x1.2cccccccccccdp+1%float /\
  (num_lit 82 100 : float) = 0x1.a3d70a3d70a3dp-1%float /\
  (num_lit 44 100 : float) = 0x1.c28f5c28f5c29p-2%float /\
  (num_lit 1200 1 : float) = 1200%float.
Proof. repeat split. Qed.

(** ** Comparison of binary64 values that are not NaN is total. *)

Lemma SFcompare_swap (x y : spec_float) :
  SFcompare y x = option_map CompOpp (SFcompare x y).
Proof.
  destruct x as [sx| sx | |sx mx ex], y as [sy|sy| |sy my ey];
    try reflexivity; try (destruct sx; reflexivity);
    try (destruct sy; reflexivity); try (destruct sx, sy; reflexivity).
  assert (Hm : Pos.compare_cont Eq my mx = CompOpp (Pos.compare_cont Eq mx my)).
  { rewrite (Pos.compare_cont_antisym mx my Eq). reflexivity. }
  destruct sx, sy; simpl; try reflexivity;
    rewrite (Z.compare_antisym ex ey);
    destruct (ex ?= ey)%Z; simpl; try reflexivity;
    rewrite Hm; try rewrite CompOpp_involutive; reflexivity.
Qed.

Lemma float_ltb_negb_leb (x y : float) :
  PrimFloat.is_nan x = false -> PrimFloat.is_nan y = false ->
  PrimFloat.ltb x y = negb (PrimFloat.leb y x).
Proof.
  unfold PrimFloat.is_nan. intros Hx Hy.
  apply negb_false_iff in Hx, Hy.
  rewrite FloatAxioms.eqb_spec in Hx, Hy.
  rewrite FloatAxioms.ltb_spec, FloatAxioms.leb_spec.
  unfold SFeqb, SFltb, SFleb in *.
  rewrite (SFcompare_swap (Prim2SF x) (Prim2SF y)).
  destruct (Prim2SF x) as [sx|sx| |sx mx ex] eqn:Ex; try discriminate;
  destruct (Prim2SF y) as [sy|sy| |sy my ey] eqn:Ey; try discriminate;
  match goal with |- context [SFcompare ?a ?b] =>
    destruct (SFcompare a b) as [[]|] eqn:E; try reflexivity; discriminate E end.
Qed.

Lemma float_finite_not_nan (x : float) :
  PrimFloat.is_finite x = true -> PrimFloat.is_nan x = false.
Proof.
  unfold PrimFloat.is_finite. intros Hf.
  apply negb_true_iff, orb_false_iff in Hf. apply Hf.
Qed.

(** The clamped aspect is always a finite number. *)
Lemma finalAspect_finite (a : float) : PrimFloat.is_finite (finalAspect a) = true.
Proof.
  unfold finalAspect. simpl.
  destruct (PrimFloat.is_finite a) eqn:Ea; simpl.
  - destruct (PrimFloat.leb a _); [reflexivity | exact Ea].
  - reflexivity.
Qed.

Ltac sf_order :=
  repeat match goal with
  | |- context [Z.compare ?a ?b] => destruct (Z.compare_spec a b)
  | H : context [Z.compare ?a ?b] |- _ => destruct (Z.compare_spec a b)
  | |- context [Pos.compare_cont Eq ?a ?b] =>
      change (Pos.compare_cont Eq a b) with (Pos.compare a b);
      destruct (Pos.compare_spec a b)
  | H : context [Pos.compare_cont Eq ?a ?b] |- _ =>
      change (Pos.compare_cont Eq a b) with (Pos.compare a b) in H;
      destruct (Pos.compare_spec a b)
  end; simpl in *; try reflexivity; try discriminate; try lia.

Lemma SFleb_trans (x y z : spec_float) :
  SFleb x y = true -> SFleb y z = true -> SFleb x z = true.
Proof.
  unfold SFleb, SFcompare.
  destruct x as [[]|[]| |[] mx ex], y as [[]|[]| |[] my ey],
           z as [[]|[]| |[] mz ez];
    simpl; intros Hxy Hyz; try reflexivity; try discriminate; sf_order.
Qed.

Lemma SFleb_ltb_trans (x y z : spec_float) :
  SFleb x y = true -> SFltb y z = true -> SFltb x z = true.
Proof.
  unfold SFleb, SFltb, SFcompare.
  destruct x as [[]|[]| |[] mx ex], y as [[]|[]| |[] my ey],
           z as [[]|[]| |[] mz ez];
    simpl; intros Hxy Hyz; try reflexivity; try discriminate; sf_order.
Qed.

Lemma SFltb_leb (x y : spec_float) : SFltb x y = true -> SFleb x y = true.
Proof.
  unfold SFltb, SFleb. destruct (SFcompare x y) as [[]|]; congruence.
Qed.

Lemma float_leb_trans (x y z : float) :
  PrimFloat.leb x y = true -> PrimFloat.leb y z = true -> PrimFloat.leb x z = true.
Proof. rewrite !FloatAxioms.leb_spec. apply SFleb_trans. Qed.

Lemma float_leb_ltb_trans (x y z : float) :
  PrimFloat.leb x y = true -> PrimFloat.ltb y z = true -> PrimFloat.ltb x z = true.
Proof.
  rewrite !FloatAxioms.leb_spec, !FloatAxioms.ltb_spec. apply SFleb_ltb_trans.
Qed.

Lemma float_ltb_leb (x y : float) :
  PrimFloat.ltb x y = true -> PrimFloat.leb x y = true.
Proof. rewrite FloatAxioms.leb_spec, FloatAxioms.ltb_spec. apply SFltb_leb. Qed.

(** The category is decided by three tests on the clamped aspect, in the
    order of the source. *)
Lemma determineLayout_type {N} `{JsNumber N} (a : N) :
  type (determineLayout a) =
    if finalAspect a <? num_lit 9 10 then Portrait
    else if finalAspect a <=? num_lit 11 10 then Square
    else if finalAspect a >=? num_lit 235 100 then Wide
    else Landscape.
Proof.
  unfold determineLayout.
  destruct (finalAspect a <? num_lit 9 10); [reflexivity|].
  destruct (finalAspect a <=? num_lit 11 10); [reflexivity|].
  destruct (finalAspect a >=? num_lit 235 100); reflexivity.
Qed.

Lemma determineLayout_landscape_arrangement {N} `{JsNumber N} (a : N) :
  type (determineLayout a) = Landscape ->
  arrangement (determineLayout a) =
    if finalAspect a / ogAspect <=? num_lit 82 100 then ArrSplit else ArrStack.
Proof.
  unfold determineLayout.
  destruct (finalAspect a <? num_lit 9 10); [discriminate|].
  destruct (finalAspect a <=? num_lit 11 10); [discriminate|].
  destruct (finalAspect a >=? num_lit 235 100); [discriminate|].
  reflexivity.
Qed.

(** C1. For every aspect [a], with non-finite and non-positive values
    clamped to 1, [determineLayout] returns exactly one of the four
    categories: the four conditions below are decided on the clamped aspect,
    exclude one another and cover every number.  The square interval is
    closed at both ends (0.9 and 1.1 are square), 2.35 is wide, and a
    landscape layout is split when [a / (1200/628) <= 0.82] and stack
    otherwise. *)
Theorem determineLayout_classification (a : float) :
  let fa := finalAspect a in
  let cfg := determineLayout a in
  (num_isFinite a = false \/ (a <=? num_lit 0 1) = true -> fa = num_lit 1 1) /\
  (num_isFinite a = true -> (a <=? num_lit 0 1) = false -> fa = a) /\
  (type cfg = Portrait <-> (fa <? num_lit 9 10) = true) /\
  (type cfg = Square <->
     (num_lit 9 10 <=? fa) = true /\ (fa <=? num_lit 11 10) = true) /\
  (type cfg = Landscape <->
     (num_lit 11 10 <? fa) = true /\ (fa <? num_lit 235 100) = true) /\
  (type cfg = Wide <-> (num_lit 235 100 <=? fa) = true) /\
  type (determineLayout (num_lit 9 10 : float)) = Square /\
  type (determineLayout (num_lit 11 10 : float)) = Square /\
  type (determineLayout (num_lit 235 100 : float)) = Wide /\
  (type cfg = Landscape ->
     arrangement cfg =
       if fa / (num_lit 1200 1 / num_lit 628 1) <=? num_lit 82 100
       then ArrSplit else ArrStack).
Proof.
  intros fa cfg.
  assert (Hnan : PrimFloat.is_nan fa = false)
    by apply float_finite_not_nan, finalAspect_finite.
  pose proof (float_ltb_negb_leb fa (num_lit 9 10) Hnan eq_refl) as T1.
  pose proof (float_ltb_negb_leb (num_lit 11 10) fa eq_refl Hnan) as T2.
  pose proof (float_ltb_negb_leb fa (num_lit 235 100) Hnan eq_refl) as T3.
  pose proof (float_leb_ltb_trans (num_lit 235 100) fa (num_lit 9 10)) as X1.
  pose proof (float_leb_trans (num_lit 235 100) fa (num_lit 11 10)) as X2.
  pose proof (float_leb_ltb_trans (num_lit 11 10) fa (num_lit 9 10)) as X3.
  pose proof (float_ltb_leb (num_lit 11 10) fa) as X4.
  assert (C1 : PrimFloat.ltb (num_lit 235 100) (num_lit 9 10) = false) by reflexivity.
  assert (C2 : PrimFloat.leb (num_lit 235 100) (num_lit 11 10) = false) by reflexivity.
  assert (C3 : PrimFloat.ltb (num_lit 11 10) (num_lit 9 10) = false) by reflexivity.
  rewrite C1 in X1. rewrite C2 in X2. rewrite C3 in X3.
  split; [|split].
  { subst fa. unfold finalAspect. intros [E | E]; rewrite E; [reflexivity|].
    rewrite orb_true_r. reflexivity. }
  { subst fa. unfold finalAspect. intros E1 E2. rewrite E1, E2. reflexivity. }
  split; [|split; [|split; [|split; [|split; [|split; [|split]]]]]];
    try reflexivity;
    try (apply determineLayout_landscape_arrangement);
    subst cfg; rewrite determineLayout_type; fold fa;
    change (@num_ltb float float_number) with PrimFloat.ltb in *;
    change (@num_leb float float_number) with PrimFloat.leb in *;
    clear Hnan C1 C2 C3; revert T1 T2 T3 X1 X2 X3 X4;
    generalize (PrimFloat.ltb fa (num_lit 9 10)) as b1;
    generalize (PrimFloat.leb fa (num_lit 11 10)) as b2;
    generalize (PrimFloat.leb (num_lit 235 100) fa) as b3;
    generalize (PrimFloat.leb (num_lit 9 10) fa) as b4;
    generalize (PrimFloat.ltb (num_lit 11 10) fa) as b5;
    generalize (PrimFloat.ltb fa (num_lit 235 100)) as b6;
    intros b6 b5 b4 b3 b2 b1;
    destruct b1, b2, b3, b4, b5, b6; simpl; intros;
    split; intros; try discriminate; try reflexivity; intuition congruence.
Qed.

(** ** Box fitting *)


Section Exact.
Local Open Scope Q_scope.

Lemma Qdiv_mult_cancel (w a : Q) : ~ a == 0 -> (w / a) * a == w.
Proof. intros Ha. field. exact Ha. Qed.

Lemma fitWithinBox_within (a W Hm : Q) :
  0 < a -> 0 < W -> 0 < Hm ->
  let r := fitWithinBox a {| maxWidth := W; maxHeight := Hm |} in
  width r <= W /\ height r <= Hm /\ width r / height r == a.
Proof.
  intros Ha HW HH r.
  subst r. unfold fitWithinBox. cbn [maxWidth maxHeight].
  change (@num_div Q exact_number) with Qdiv.
  change (@num_mul Q exact_number) with Qmult.
  change (@num_ltb Q exact_number Hm (W / a)) with (negb (Qle_bool (W / a) Hm)).
  assert (Ha0 : ~ a == 0) by lra.
  pose proof (Qdiv_mult_cancel W a Ha0) as Hwa.
  destruct (Qle_bool (W / a) Hm) eqn:E; cbn [negb width height].
  - apply Qle_bool_iff in E. repeat split.
    + lra.
    + exact E.
    + field. split; lra.
  - assert (Hlt : Hm < W / a).
    { apply Qnot_le_lt. intros Hle. apply Qle_bool_iff in Hle. congruence. }
    repeat split.
    + rewrite <- Hwa. apply Qmult_le_compat_r; lra.
    + lra.
    + field. lra.
Qed.



(** In exact arithmetic the coerced dimensions are positive, so is their
    ratio, and every box of [determineLayout] has positive sides: the photo
    size the template computes stays within the layout's box and keeps the
    photo's aspect, whatever the dimensions. *)
Lemma coerceDimension_positive (d : Q) : 0 < coerceDimension d.
Proof.
  unfold coerceDimension.
  change (num_isFinite d) with true.
  change (@num_ltb Q exact_number (num_lit 0 1) d)
    with (negb (Qle_bool d (0 / 1))).
  destruct (Qle_bool d (0 / 1)) eqn:E; cbn [andb negb]; [reflexivity|].
  apply Qnot_le_lt. intros Hle.
  assert (Hz : 0 / 1 == 0) by reflexivity.
  assert (Hc : Qle_bool d (0 / 1) = true).
  { apply Qle_bool_iff. rewrite Hz. exact Hle. }
  congruence.
Qed.

Lemma determineLayout_box_positive (a : Q) :
  0 < maxWidth (photoBox (determineLayout a)) /\
  0 < maxHeight (photoBox (determineLayout a)).
Proof.
  unfold determineLayout.
  destruct (finalAspect a <? num_lit 9 10)%num; [split; reflexivity|].
  destruct (finalAspect a <=? num_lit 11 10)%num; [split; reflexivity|].
  destruct (finalAspect a >=? num_lit 235 100)%num; split; reflexivity.
Qed.

Lemma templateLayout_fits (d : PhotoDimensions Q) :
  let '(layout, size) := templateLayout d in
  width size <= maxWidth (photoBox layout) /\
  height size <= maxHeight (photoBox layout) /\
  width size / height size == photoAspect d.
Proof.
  unfold templateLayout.
  assert (Ha : 0 < photoAspect d).
  { unfold photoAspect. apply Qlt_shift_div_l.
    - apply coerceDimension_positive.
    - rewrite Qmult_0_l. apply coerceDimension_positive. }
  destruct (determineLayout_box_positive (photoAspect d)) as [HW HH].
  destruct (photoBox (determineLayout (photoAspect d))) as [W Hm].
  apply (fitWithinBox_within (photoAspect d) W Hm Ha HW HH).
Qed.

End Exact.

(** On binary64 itself, at the aspects 16:9, 4:3, 9:16 and 2.4:1 with the
    box of their layout, the fitted size stays within the box. *)
Example templateLayout_binary64 :
  forallb
    (fun d : Z * Z =>
       let '(layout, size) :=
         templateLayout {| dim_width := num_lit (fst d) 1;
                           dim_height := num_lit (snd d) 1 |} in
       (width size <=? maxWidth (photoBox layout))
       && (height size <=? maxHeight (photoBox layout)))
    [(1600, 900); (4000, 3000); (1080, 1920); (2400, 1000)]%Z = true.
Proof. vm_compute. reflexivity. Qed.

(** The two worked examples of the layout: 9:16 is portrait, split, with a
    528 wide box; 16:9 is landscape, stacked. *)
Example determineLayout_9_16 :
  let cfg := determineLayout (num_lit 9 16 : float) in
  type cfg = Portrait /\ arrangement cfg = ArrSplit /\
  maxWidth (photoBox cfg) = num_lit 528 1.
Proof. repeat split. Qed.

Example determineLayout_16_9 :
  let cfg := determineLayout (num_lit 16 9 : float) in
  type cfg = Landscape /\ arrangement cfg = ArrStack.
Proof. repeat split. Qed.

End LayoutSpec.

(* ===================================================================== *)
(** * Part IV: properties of the og-image plugin                          *)
(* ===================================================================== *)

Module PluginSpec.
Import Layout OgImagePlugin.
Local Open Scope string_scope.
Local Open Scope prog_scope.
Local Open Scope list_scope.

Section Facts.
Context `{JsLib}.
Context {W : Type} (h : handler W).

(** ** Running programs *)

Lemma run_bind {A B} (p : prog A) (f : A -> prog B) (w : W) :
  run h (bind p f) w =
    let '(a, w1, t1) := run h p w in
    let '(b, w2, t2) := run h (f a) w1 in
    (b, w2, t1 ++ t2).
Proof.
  revert w. induction p as [a | X e k IH]; intros w; simpl.
  - destruct (run h (f a) w) as [[b w2] t2]. reflexivity.
  - destruct (h X e w) as [x w1]. rewrite IH.
    destruct (run h (k x) w1) as [[a w2] t].
    destruct (run h (f a) w2) as [[b w3] t2]. reflexivity.
Qed.

Lemma run_trigger {X} (e : eff X) (w : W) :
  run h (trigger e) w = (fst (h X e w), snd (h X e w), [event_of e (fst (h X e w))]).
Proof. unfold trigger. simpl. destruct (h X e w). reflexivity. Qed.

(** ** Quiet traces *)

Lemma quiet_nil : quiet [].
Proof. intros ev []. Qed.

Lemma quiet_app (t1 t2 : list event) : quiet t1 -> quiet t2 -> quiet (t1 ++ t2).
Proof.
  intros H1 H2 ev Hin. apply in_app_or in Hin. destruct Hin; auto.
Qed.

Lemma quiet_cons (ev : event) (t : list event) :
  isRender ev = false -> isUpload ev = false -> isPublicUrl ev = false ->
  quiet t -> quiet (ev :: t).
Proof.
  intros H1 H2 H3 Ht ev' [<- | Hin]; auto.
Qed.

Lemma count_app (f : event -> bool) (t1 t2 : list event) :
  count f (t1 ++ t2) = (count f t1 + count f t2)%nat.
Proof. unfold count. rewrite List.filter_app, length_app. reflexivity. Qed.

Lemma quiet_count (t : list event) :
  quiet t ->
  count isRender t = 0%nat /\ count isUpload t = 0%nat /\ count isPublicUrl t = 0%nat.
Proof.
  unfold count. induction t as [|ev t IH]; intros Hq; [repeat split|].
  destruct (Hq ev (or_introl eq_refl)) as (H1 & H2 & H3).
  destruct IH as (I1 & I2 & I3); [intros e He; apply Hq; right; exact He|].
  simpl. rewrite H1, H2, H3. auto.
Qed.


(** ** Fonts *)

Lemma loadFontFileFrom_run (candidates : list path) (w : W) r w' t :
  run h (loadFontFileFrom candidates) w = (r, w', t) ->
  quiet t /\
  (forall p b, In (EvStat p b) t -> In p candidates) /\
  ((forall p b, In (EvStat p b) t -> b = false) -> r = Some None) /\
  (r = None ->
   exists p, In p candidates /\ In (EvStat p true) t /\ In (EvReadFile p None) t).
Proof.
  revert w r w' t. induction candidates as [|c rest IH]; intros w r w' t; simpl.
  - intros [= <- <- <-]. repeat split; try easy.
  - destruct (h bool (Stat c) w) as [isFile w1] eqn:E1.
    destruct isFile.
    + simpl. destruct (h _ (ReadFile c) w1) as [data w2] eqn:E2.
      destruct data as [buffer|]; simpl; intros [= <- <- <-].
      * split; [|split; [|split]].
        -- repeat (apply quiet_cons; [reflexivity..|]). apply quiet_nil.
        -- intros p b [[= <- <-]|[[=]|[]]]. now left.
        -- intros Hf. specialize (Hf c true (or_introl eq_refl)). discriminate.
        -- discriminate.
      * split; [|split; [|split]].
        -- repeat (apply quiet_cons; [reflexivity..|]). apply quiet_nil.
        -- intros p b [[= <- <-]|[[=]|[]]]. now left.
        -- intros Hf. specialize (Hf c true (or_introl eq_refl)). discriminate.
        -- intros _. exists c. split; [now left|]. split; [now left|].
           right. now left.
    + destruct (run h (loadFontFileFrom rest) w1) as [[r1 w2] t1] eqn:E2.
      intros [= <- <- <-].
      destruct (IH _ _ _ _ E2) as (Q & S & M & R).
      split; [|split; [|split]].
      * apply quiet_cons; auto.
      * intros p b [[= <- <-]|Hin]; [now left|]. right. eauto.
      * intros Hf. apply M. intros p b Hin. apply (Hf p b). now right.
      * intros Hr. destruct (R Hr) as (p & Hp1 & Hp2 & Hp3). exists p.
        split; [now right|]. split; now right.
Qed.


Ltac quiet_trace :=
  repeat (apply quiet_app || (apply quiet_cons; [reflexivity..|]));
  try apply quiet_nil; try assumption.

Lemma fontMissing_app_l (f : string) (t1 t2 : list event) :
  fontMissing f (t1 ++ t2) -> fontMissing f t1.
Proof. intros Hm p b Hin. apply Hm. apply in_or_app. now left. Qed.

Lemma fontMissing_app_r (f : string) (t1 t2 : list event) :
  fontMissing f (t1 ++ t2) -> fontMissing f t2.
Proof. intros Hm p b Hin. apply Hm. apply in_or_app. now right. Qed.

Lemma loadFontFile_missing (f : string) (w : W) r w' t :
  run h (loadFontFile f) w = (r, w', t) ->
  fontMissing f t -> r = Some None.
Proof.
  intros Hrun Hm. apply loadFontFileFrom_run in Hrun as (_ & S & M & _).
  apply M. intros p b Hin. apply (Hm p b Hin). exact (S p b Hin).
Qed.


Lemma fontUnreadable_app_r (t1 t2 : list event) :
  fontUnreadable t2 -> fontUnreadable (t1 ++ t2).
Proof.
  intros (f & p & Hf & Hp & Hs & Hr). exists f, p.
  repeat split; auto; apply in_or_app; now right.
Qed.


Lemma fontUnreadable_read (t : list event) :
  fontUnreadable t -> exists p, In (EvReadFile p None) t.
Proof. intros (f & p & _ & _ & _ & Hr). now exists p. Qed.

Lemma loadFonts_run (w : W) r w' t :
  run h loadFonts w = (r, w', t) ->
  quiet t /\
  (fontMissing GEIST_FILE t \/ fontMissing HARMONY_FILE t ->
     r = Some None \/ r = None) /\
  (r = None -> fontUnreadable t).
Proof.
  unfold loadFonts. rewrite run_bind.
  destruct (run h (loadFontFile GEIST_FILE) w) as [[g w1] t1] eqn:E1.
  pose proof (loadFontFileFrom_run _ _ _ _ _ E1) as (Q1 & _ & _ & R1).
  destruct g as [g|]; cbn beta iota.
  2:{ simpl. intros [= <- <- <-]. rewrite app_nil_r. split; [exact Q1|].
      split; [now right|]. intros _.
      destruct (R1 eq_refl) as (p & Hp1 & Hp2 & Hp3).
      exists GEIST_FILE, p. auto. }
  rewrite run_bind.
  destruct (run h (loadFontFile HARMONY_FILE) w1) as [[hm w2] t2] eqn:E2.
  pose proof (loadFontFileFrom_run _ _ _ _ _ E2) as (Q2 & _ & _ & R2).
  destruct hm as [hm|]; simpl.
  2:{ intros [= <- <- <-]. rewrite app_nil_r. split; [quiet_trace|]. split; [now right|].
      intros _. destruct (R2 eq_refl) as (p & Hp1 & Hp2 & Hp3).
      apply fontUnreadable_app_r. exists HARMONY_FILE, p. auto. }
  destruct g as [g|], hm as [hm|]; simpl;
    try destruct (h unit (Log Main Warn FONTS_WARNING) w2) as [[] w3];
    intros [= <- <- <-]; (split; [quiet_trace|]); (split; [|discriminate]);
    try (intros _; now left).
  intros [Hm | Hm].
  - apply fontMissing_app_l in Hm.
    pose proof (loadFontFile_missing _ _ _ _ _ E1 Hm). discriminate.
  - apply fontMissing_app_r, fontMissing_app_l in Hm.
    pose proof (loadFontFile_missing _ _ _ _ _ E2 Hm). discriminate.
Qed.

Lemma loadSiteMeta_run (options : OgImagePluginOptions) (w : W) r w' t :
  run h (loadSiteMeta options) w = (r, w', t) -> quiet t.
Proof.
  unfold loadSiteMeta. simpl.
  destruct (h _ (ReadSiteConfig (opt_siteConfigPath options)) w) as [[parsed|] w1];
    simpl.
  - intros [= <- <- <-]. quiet_trace.
  - destruct (h unit _ w1) as [[] w2]. intros [= <- <- <-]. quiet_trace.
Qed.

(** What [prepareRunState] leaves: the upload set and the URL cache are
    untouched; fonts already loaded stay; fonts not yet loaded stay absent
    when one of the two files is missing. *)
Lemma prepareRunState_run (options : OgImagePluginOptions)
    (state : PluginRunState) (w : W) r w' t :
  run h (prepareRunState options state) w = (r, w', t) ->
  quiet t /\
  match r with
  | LoadRejected state' =>
      uploaded state' = uploaded state /\ urlCache state' = urlCache state /\
      fonts state' = None /\ fontUnreadable t
  | Ready state' meta =>
      uploaded state' = uploaded state /\ urlCache state' = urlCache state /\
      (fonts state = None ->
       fontMissing GEIST_FILE t \/ fontMissing HARMONY_FILE t ->
       fonts state' = None)
  end.
Proof.
  unfold prepareRunState. rewrite run_bind.
  destruct (run h (match siteMeta state with
                   | Some meta => Ret (state, meta)
                   | None => let* meta := loadSiteMeta options in
                             Ret (with_siteMeta meta state, meta)
                   end) w) as [[[st1 meta] w1] t1] eqn:E1.
  assert (H1 : quiet t1 /\ uploaded st1 = uploaded state /\
               urlCache st1 = urlCache state /\ fonts st1 = fonts state).
  { destruct (siteMeta state) as [m|].
    - simpl in E1. injection E1 as <- <- <- <-.
      split; [apply quiet_nil|]. repeat split.
    - rewrite run_bind in E1.
      destruct (run h (loadSiteMeta options) w) as [[m w0] t0] eqn:E0.
      simpl in E1. injection E1 as <- <- <- <-. rewrite app_nil_r.
      split; [eapply loadSiteMeta_run, E0|]. repeat split. }
  destruct H1 as (Q1 & U1 & C1 & F1).
  destruct (fonts st1) as [f|] eqn:Ef.
  - simpl. intros [= <- <- <-]. rewrite app_nil_r. split; [exact Q1|].
    repeat split; auto. intros Hn. rewrite <- F1 in Hn. discriminate.
  - rewrite run_bind.
    destruct (run h loadFonts w1) as [[lf w2] t2] eqn:E2.
    destruct (loadFonts_run _ _ _ _ E2) as (Q2 & M2 & R2).
    destruct lf as [lf|]; simpl; intros [= <- <- <-]; rewrite app_nil_r;
      (split; [quiet_trace|]).
    + repeat split; auto. simpl. intros _ Hm.
      assert (Hm2 : fontMissing GEIST_FILE t2 \/ fontMissing HARMONY_FILE t2).
      { destruct Hm as [Hm|Hm]; [left|right]; eapply fontMissing_app_r, Hm. }
      destruct (M2 Hm2) as [Hr|Hr]; [now injection Hr|discriminate].
    + repeat split; auto. apply fontUnreadable_app_r. now apply R2.
Qed.


(** ** Thumbnail *)

Lemma resolveThumbnailDataUrl_quiet (item : PhotoManifestItem)
    (pluginData : option ThumbnailPluginData) (w : W) r w' t :
  run h (resolveThumbnailDataUrl item pluginData) w = (r, w', t) -> quiet t.
Proof.
  unfold resolveThumbnailDataUrl.
  destruct (pluginData ≫= buffer) as [buf|].
  { simpl. intros [= <- <- <-]. apply quiet_nil. }
  destruct (orString (pluginData ≫= localUrl) (thumbnailUrl item)) as [url|].
  2:{ simpl. intros [= <- <- <-]. apply quiet_nil. }
  destruct (truthyString url); cbn [negb].
  2:{ simpl. intros [= <- <- <-]. apply quiet_nil. }
  rewrite run_bind.
  match goal with |- context [run h ?p w] =>
    destruct (run h p w) as [[fetched w1] t1] eqn:E1 end.
  assert (Q1 : quiet t1).
  { destruct (isAbsoluteHttpUrl url).
    - simpl in E1. destruct (h _ (Fetch url) w) as [[resp|] w0].
      + destruct (resp_ok resp).
        * destruct (resp_body resp).
          -- simpl in E1. injection E1 as <- <- <-. quiet_trace.
          -- simpl in E1. destruct (h unit _ w0) as [[] w00].
             injection E1 as <- <- <-. quiet_trace.
        * simpl in E1. injection E1 as <- <- <-. quiet_trace.
      + simpl in E1. destruct (h unit _ w0) as [[] w00].
        injection E1 as <- <- <-. quiet_trace.
    - simpl in E1. injection E1 as <- <- <-. apply quiet_nil. }
  destruct fetched as [dataUrl|].
  - simpl. intros [= <- <- <-]. quiet_trace.
  - simpl. destruct (h _ (ReadFile _) w1) as [[buf|] w2].
    + simpl. intros [= <- <- <-]. quiet_trace.
    + simpl. destruct (h unit _ w2) as [[] w3]. intros [= <- <- <-]. quiet_trace.
Qed.


(** C9. The thumbnail resolver tries its sources in a fixed order and the
    first success wins: in-memory bytes (as image/jpeg, nothing else is
    tried); an absolute http(s) URL is fetched and a response that is ok is
    encoded with its declared content type, or else with the type guessed
    from the extension; a URL that is not absolute, or whose fetch failed,
    is read as a file under the public root; when that fails too the
    result is absent.  No path raises. *)
Theorem resolveThumbnailDataUrl_order (item : PhotoManifestItem)
    (pluginData : option ThumbnailPluginData) (w : W) :
  let out := run h (resolveThumbnailDataUrl item pluginData) w in
  let r := result_of out in
  let t := trace_of out in
  let thumbnailUrl := orString (pluginData ≫= localUrl) (thumbnailUrl item) in
  let localResult url x :=
    option_map (fun b => bufferToDataUrl b (guessContentType url)) x in
  (forall buf, pluginData ≫= buffer = Some buf ->
     r = Some (bufferToDataUrl buf "image/jpeg") /\ t = []) /\
  (forall url, pluginData ≫= buffer = None -> thumbnailUrl = Some url ->
     truthyString url = true -> isAbsoluteHttpUrl url = true ->
     exists response,
       (forall body declared, fetchedBody response = Some (body, declared) ->
          calls t = [EvFetch url response] /\
          r = Some (bufferToDataUrl body (default (guessContentType url) declared))) /\
       (fetchedBody response = None ->
          exists x,
            calls t = [EvFetch url response;
                       EvReadFile (PublicFile (stripLeadingSlashes url)) x] /\
            r = localResult url x)) /\
  (forall url, pluginData ≫= buffer = None -> thumbnailUrl = Some url ->
     truthyString url = true -> isAbsoluteHttpUrl url = false ->
     exists x,
       calls t = [EvReadFile (PublicFile (stripLeadingSlashes url)) x] /\
       r = localResult url x) /\
  (pluginData ≫= buffer = None -> truthyOptString thumbnailUrl = false ->
     r = None /\ t = []) /\
  (forall url, guessContentType url =
     if endsWith (toLowerCase url) ".png" then "image/png"
     else if endsWith (toLowerCase url) ".webp" then "image/webp"
     else "image/jpeg").
Proof.
  intros out r t turl localResult. subst out r t turl.
  unfold resolveThumbnailDataUrl, result_of, trace_of.
  destruct (pluginData ≫= buffer) as [buf|] eqn:Eb.
  { simpl. repeat split; intros; try discriminate; try congruence. }
  destruct (orString (pluginData ≫= localUrl) (thumbnailUrl item)) as [url|] eqn:Eu.
  2:{ simpl. repeat split; intros; try discriminate; try congruence. }
  destruct (truthyString url) eqn:Et; cbn [negb].
  2:{ simpl. repeat split; intros; try discriminate; try congruence. }
  split; [intros; discriminate|].
  destruct (isAbsoluteHttpUrl url) eqn:Ea.
  - split; [|split; [intros ? _ [= <-]; congruence|split; [simpl; rewrite Et; discriminate|reflexivity]]].
    intros ? _ [= <-] _ _. simpl.
    destruct (h _ (Fetch url) w) as [response w0]. exists response.
    destruct response as [response|]; simpl.
    + destruct (resp_ok response) eqn:Eok; simpl.
      * destruct (resp_body response) as [body|] eqn:Ebody; simpl.
        -- split; [intros ? ? [= <- <-]; auto | discriminate].
        -- destruct (h unit _ w0) as [[] w1]. simpl.
           destruct (h _ (ReadFile _) w1) as [[buf|] w2]; simpl;
             try destruct (h unit _ w2) as [[] w3]; simpl;
             (split; [discriminate|]); intros _; eexists; split; reflexivity.
      * destruct (h _ (ReadFile _) w0) as [[buf|] w2]; simpl;
          try destruct (h unit _ w2) as [[] w3]; simpl;
          (split; [discriminate|]); intros _; eexists; split; reflexivity.
    + destruct (h unit _ w0) as [[] w1]. simpl.
      destruct (h _ (ReadFile _) w1) as [[buf|] w2]; simpl;
        try destruct (h unit _ w2) as [[] w3]; simpl;
        (split; [discriminate|]); intros _; eexists; split; reflexivity.
  - split; [intros ? _ [= <-]; congruence|].
    split; [|split; [simpl; rewrite Et; discriminate|reflexivity]].
    intros ? _ [= <-] _ _. simpl.
    destruct (h _ (ReadFile _) w) as [[buf|] w2]; simpl;
      try destruct (h unit _ w2) as [[] w3]; simpl;
      eexists; split; reflexivity.
Qed.


(** ** The tail of the hook *)

Lemma publish_run (cfg : ResolvedPluginConfig) (sm : StorageManager)
    (payload : Payload) (key : string) (png : bytes) (state : PluginRunState)
    (container : gmap string PluginRunState) (item : PhotoManifestItem)
    (w : W) r w' t :
  run h (publish cfg sm payload key png state container item) w = (r, w', t) ->
  PublishRun cfg sm payload key png state container item r t.
Proof.
  unfold publish. rewrite run_bind.
  match goal with |- context [run h ?p w] =>
    destruct (run h p w) as [[afterUpload w1] tu] eqn:E1 end.
  assert (U : UploadStep cfg sm payload key png state afterUpload tu).
  { destruct (bool_decide (key ∈ uploaded state)) eqn:Ein.
    - apply bool_decide_eq_true in Ein.
      destruct (isForceMode payload) eqn:Ef1; [|destruct (isForceManifest payload) eqn:Ef2];
        cbn [negb orb] in E1.
      3:{ simpl in E1. injection E1 as <- <- <-. now constructor. }
      all: simpl in E1; destruct (h bool _ w) as [[] w0]; simpl in E1;
        try destruct (h unit _ w0) as [[] w00]; injection E1 as <- <- <-;
        constructor; auto.
    - apply bool_decide_eq_false in Ein. cbn [negb orb] in E1.
      simpl in E1; destruct (h bool _ w) as [[] w0]; simpl in E1;
        try destruct (h unit _ w0) as [[] w00]; injection E1 as <- <- <-;
        constructor; auto. }
  destruct afterUpload as [state1|].
  2:{ simpl. intros [= <- <- <-]. rewrite app_nil_r. now constructor. }
  cbn beta iota.
  destruct (urlCache state1 !! key) as [cached|] eqn:Ec; cbn [truthyOptString].
  - destruct (truthyString cached) eqn:Et.
    + simpl. intros [= <- <- <-]. rewrite app_nil_r. now apply PB_cached.
    + simpl. destruct (h _ (GeneratePublicUrl sm key) w1) as [[url|] w2]; simpl.
      * intros [= <- <- <-]. apply PB_resolved; auto. now rewrite Ec.
      * destruct (h unit _ w2) as [[] w3]. intros [= <- <- <-].
        apply PB_unresolved; auto. now rewrite Ec.
  - simpl. destruct (h _ (GeneratePublicUrl sm key) w1) as [[url|] w2]; simpl.
    + intros [= <- <- <-]. apply PB_resolved; auto. now rewrite Ec.
    + destruct (h unit _ w2) as [[] w3]. intros [= <- <- <-].
      apply PB_unresolved; auto. now rewrite Ec.
Qed.

Lemma processItem_run (cfg : ResolvedPluginConfig) (sm : StorageManager)
    (payload : Payload) (fonts : list FontEntry) (meta : SiteMeta)
    (state : PluginRunState) (container : gmap string PluginRunState)
    (item : PhotoManifestItem) (w : W) r w' t :
  run h (processItem cfg sm payload fonts meta state container item) w = (r, w', t) ->
  ProcessRun cfg sm payload state container item r t.
Proof.
  unfold processItem.
  destruct (shouldRenderOf payload) eqn:Es; cbn [negb].
  - rewrite run_bind.
    destruct (run h (resolveThumbnailDataUrl item (thumbnailData payload)) w)
      as [[thumbnailSrc w1] t0] eqn:E0.
    pose proof (resolveThumbnailDataUrl_quiet _ _ _ _ _ _ E0) as Q0.
    rewrite run_bind, run_trigger.
    destruct (h _ (RenderOgImage (templateOf item meta thumbnailSrc) fonts) w1)
      as [[png|] w2]; cbn [fst snd event_of].
    + destruct (run h (publish cfg sm payload (remoteKeyOf cfg item) png state
                         container item) w2) as [[r2 w3] t2] eqn:E2.
      intros [= <- <- <-]. apply publish_run in E2.
      change ([EvRender (templateOf item meta thumbnailSrc) fonts (Some png)] ++ t2)
        with (EvRender (templateOf item meta thumbnailSrc) fonts (Some png) :: t2).
      now apply PR_published.
    + simpl. destruct (h unit _ w2) as [[] w3]. intros [= <- <- <-].
      now apply PR_render_failed.
  - unfold resolveExisting. simpl.
    destruct (h _ (GeneratePublicUrl sm (remoteKeyOf cfg item)) w) as [[url|] w1]; simpl.
    + intros [= <- <- <-]. now apply PR_existing.
    + destruct (h unit _ w1) as [[] w2]. intros [= <- <- <-].
      now apply PR_existing_failed.
Qed.

Lemma uploadedKeys_store (state : PluginRunState)
    (container : gmap string PluginRunState) :
  uploadedKeys (store state container) = uploaded state.
Proof. unfold uploadedKeys, store. now rewrite lookup_insert_eq. Qed.

Lemma cachedUrls_store (state : PluginRunState)
    (container : gmap string PluginRunState) :
  cachedUrls (store state container) = urlCache state.
Proof. unfold cachedUrls, store. now rewrite lookup_insert_eq. Qed.

Lemma loadedFonts_store (state : PluginRunState)
    (container : gmap string PluginRunState) :
  loadedFonts (store state container) = fonts state.
Proof. unfold loadedFonts, store. now rewrite lookup_insert_eq. Qed.

Lemma getOrCreateRunState_spec (runShared : gmap string PluginRunState) :
  let '(state, container) := getOrCreateRunState runShared in
  uploaded state = uploadedKeys runShared /\
  urlCache state = cachedUrls runShared /\
  fonts state = loadedFonts runShared /\
  container !! RUN_STATE_KEY = Some state.
Proof.
  unfold getOrCreateRunState, uploadedKeys, cachedUrls, loadedFonts.
  destruct (runShared !! RUN_STATE_KEY) as [state|] eqn:E; simpl.
  - auto.
  - repeat split. now rewrite lookup_insert_eq.
Qed.

Lemma afterPhotoProcess_run (plugin : PluginInstance) (payload : Payload)
    (runShared : gmap string PluginRunState) (w : W) r w' t :
  run h (afterPhotoProcess plugin payload runShared) w = (r, w', t) ->
  HookRun plugin payload runShared r t.
Proof.
  unfold afterPhotoProcess.
  destruct (resolved plugin) as [cfg|] eqn:Er.
  2:{ simpl. intros [= <- <- <-]. constructor. apply quiet_nil. }
  destruct (enabled cfg); cbn [negb].
  2:{ simpl. intros [= <- <- <-]. constructor. apply quiet_nil. }
  destruct (result_item payload) as [item|] eqn:Ei.
  2:{ simpl. intros [= <- <- <-]. rewrite <- Ei. constructor. apply quiet_nil. }
  destruct (storageManagerOf plugin cfg) as [sm|].
  2:{ simpl. destruct (h unit _ w) as [[] w1]. intros [= <- <- <-].
      rewrite <- Ei. constructor. quiet_trace. }
  pose proof (getOrCreateRunState_spec runShared) as G.
  destruct (getOrCreateRunState runShared) as [state container].
  destruct G as (GU & GC & GF & GL).
  rewrite run_bind.
  destruct (run h (prepareRunState (options plugin) state) w) as [[prepared w1] t0] eqn:E0.
  destruct (prepareRunState_run _ _ _ _ _ _ E0) as (Q0 & P0).
  destruct prepared as [state1|state1 meta].
  - simpl. intros [= <- <- <-]. rewrite app_nil_r.
    destruct P0 as (PU & PC & PF & PR).
    apply HR_unprepared; auto.
    + rewrite uploadedKeys_store. congruence.
    + rewrite cachedUrls_store. congruence.
    + now rewrite loadedFonts_store.
  - destruct P0 as (PU & PC & PF).
    destruct (fonts state1) as [fonts1|] eqn:Ef.
    + destruct (run h (processItem cfg sm payload fonts1 meta state1 container item) w1)
        as [[r1 w2] t1] eqn:E1.
      intros [= <- <- <-]. apply processItem_run in E1.
      apply (HR_processed plugin payload runShared cfg item sm state1 container);
        auto; try congruence.
      intros Hn Hm. rewrite <- GF in Hn. specialize (PF Hn Hm). congruence.
    + simpl. intros [= <- <- <-]. rewrite app_nil_r.
      apply HR_unprepared; auto.
      * rewrite uploadedKeys_store. congruence.
      * rewrite cachedUrls_store. congruence.
      * now rewrite loadedFonts_store.
      * discriminate.
Qed.


(** ** Reading traces *)

Ltac quiet_absurd :=
  match goal with
  | Q : quiet ?t, I : In ?ev ?t |- _ =>
      let R := fresh in let U := fresh in let P := fresh in
      destruct (Q ev I) as (R & U & P); simpl in R, U, P; discriminate
  end.

Ltac in_trace :=
  repeat match goal with
  | I : In _ (_ ++ _) |- _ => apply in_app_or in I; destruct I as [I|I]
  | I : In _ (_ :: _) |- _ => destruct I as [I|I]
  | I : In _ [] |- _ => destruct I
  | E : @eq event _ ?x |- _ => is_var x; subst x
  | E : @eq event _ _ |- _ => first [discriminate E | injection E as ?; subst]
  end.

Ltac inv_runs :=
  repeat match goal with
  | R : ProcessRun _ _ _ _ _ _ _ _ |- _ => inversion R; clear R; subst
  | R : PublishRun _ _ _ _ _ _ _ _ _ _ |- _ => inversion R; clear R; subst
  | R : UploadStep _ _ _ _ _ _ _ _ |- _ => inversion R; clear R; subst
  end.

Lemma quiet_In (t : list event) (ev : event) :
  quiet t -> In ev t ->
  isRender ev = false /\ isUpload ev = false /\ isPublicUrl ev = false.
Proof. intros Q I. exact (Q ev I). Qed.




(** The upload step performs at most one upload, of the given key and
    bytes; it performs one exactly when the key is new or a flag is set. *)
Lemma UploadStep_trace cfg sm payload key png state res tu :
  UploadStep cfg sm payload key png state res tu ->
  (tu = [] /\ res = Some state /\ key ∈ uploaded state /\
   isForceMode payload = false /\ isForceManifest payload = false) \/
  ((key ∉ uploaded state \/ isForceMode payload = true \/ isForceManifest payload = true) /\
   exists ok logs,
     tu = EvUpload sm key png (contentType cfg) ok :: logs /\
     Forall (fun ev => isLog ev = true) logs /\
     res = (if ok then Some (add_uploaded key state) else None)).
Proof.
  intros [Hin F1 F2 | Hatt | msg Hatt].
  - left. auto.
  - right. split; [exact Hatt|]. exists true, []. auto.
  - right. split; [exact Hatt|]. exists false, [EvLog Main Error msg].
    repeat split. repeat constructor.
Qed.

Lemma logs_count (f : event -> bool) (logs : list event) :
  (forall c l m, f (EvLog c l m) = false) ->
  Forall (fun ev => isLog ev = true) logs -> count f logs = 0%nat.
Proof.
  intros Hf. unfold count. induction 1 as [|ev logs Hev _ IH]; [reflexivity|].
  destruct ev; try discriminate. simpl. rewrite Hf. exact IH.
Qed.

Lemma logs_In (logs : list event) (ev : event) :
  Forall (fun ev => isLog ev = true) logs -> In ev logs -> isLog ev = true.
Proof. intros Hl Hin. rewrite Forall_forall in Hl. apply Hl, list_elem_of_In, Hin. Qed.

(** The events of a publish run: the upload step, then at most one URL
    resolution and its log line. *)
Lemma PublishRun_trace cfg sm payload key png state container item r t :
  PublishRun cfg sm payload key png state container item r t ->
  exists res tu rest,
    UploadStep cfg sm payload key png state res tu /\ t = tu ++ rest /\
    count isUpload rest = 0%nat /\
    (forall ev, In ev rest -> isUpload ev = false /\ isRender ev = false) /\
    (res = None -> rest = []).
Proof.
  intros [tu HU | st1 tu url HU Hc Ht | st1 tu url HU Hc | st1 tu msg HU Hc].
  - exists None, tu, []. rewrite app_nil_r.
    split; [exact HU|]. split; [reflexivity|]. split; [reflexivity|].
    split; [intros ev []|reflexivity].
  - exists (Some st1), tu, []. rewrite app_nil_r.
    split; [exact HU|]. split; [reflexivity|]. split; [reflexivity|].
    split; [intros ev []|discriminate].
  - exists (Some st1), tu, [EvPublicUrl sm key (Some url)].
    split; [exact HU|]. split; [reflexivity|]. split; [reflexivity|].
    split; [|discriminate]. intros ev Hin. in_trace. split; reflexivity.
  - exists (Some st1), tu, [EvPublicUrl sm key None; EvLog Main Error msg].
    split; [exact HU|]. split; [reflexivity|]. split; [reflexivity|].
    split; [|discriminate]. intros ev Hin. in_trace; split; reflexivity.
Qed.



(** C5. When the upload of an item fails, the hook stops there: the run's
    [uploaded] set and URL cache are what they were, the item is untouched,
    no URL is resolved and the upload is not tried again.  The trace ends
    with the render, the failed upload and the error line. *)
Theorem failed_upload_aborts_item (plugin : PluginInstance) (payload : Payload)
    (runShared : gmap string PluginRunState) (w : W)
    (sm : StorageManager) (k : string) (body : bytes) (ct : string) :
  In (EvUpload sm k body ct false)
     (trace_of (run h (afterPhotoProcess plugin payload runShared) w)) ->
  let out := run h (afterPhotoProcess plugin payload runShared) w in
  let r := result_of out in
  let t := trace_of out in
  uploadedKeys (hr_shared r) = uploadedKeys runShared /\
  cachedUrls (hr_shared r) = cachedUrls runShared /\
  hr_item r = result_item payload /\
  (forall ev, In ev t -> isPublicUrl ev = false) /\
  count isUpload t = 1%nat /\
  (exists t0 template fonts message,
     quiet t0 /\
     t = t0 ++ [EvRender template fonts (Some body);
                EvUpload sm k body ct false; EvLog Main Error message]) /\
  hr_outcome r = Resolved.
Proof.
  intros Hin out r t. subst out r t. unfold result_of, trace_of in *.
  destruct (run h (afterPhotoProcess plugin payload runShared) w) as [[r w'] t] eqn:E.
  cbn [fst snd] in *. apply afterPhotoProcess_run in E.
  destruct E as [t Q | item' c o t Hi Q HU HC HF HR
                | cfg' item' sm' state container t0 r t1 Hc Hi Q HU HC HF HP];
    try quiet_absurd.
  destruct HP as [url Hs' | msg Hs' | t00 tpl fonts msg Hs' Q0
                 | t00 tpl fonts png r t2 Hs' Q0 HPub];
    try (in_trace; quiet_absurd).
  destruct HPub as [tu HUp | st1 tu url HUp Hc' Ht' | st1 tu url HUp Hc'
                   | st1 tu msg HUp Hc'];
    inversion HUp; subst; clear HUp; try (in_trace; quiet_absurd).
  in_trace; try quiet_absurd.
  cbn [hr_shared hr_item hr_outcome].
  rewrite uploadedKeys_store, cachedUrls_store.
  destruct (quiet_count t0 Q) as (_ & Cu0 & _).
  destruct (quiet_count t00 Q0) as (_ & Cu00 & _).
  split; [congruence|]. split; [congruence|]. split; [congruence|].
  split; [|split; [|split; [|reflexivity]]].
  - intros ev Hev. in_trace; try reflexivity.
    + now apply (quiet_In t0).
    + now apply (quiet_In t00).
  - rewrite !count_app, Cu0, Cu00. reflexivity.
  - exists (t0 ++ t00), tpl, fonts, message. split; [now apply quiet_app|].
    now rewrite <- app_assoc.
Qed.

(** ** The [uploaded] set *)

Lemma PublishRun_uploaded cfg sm payload key png state container item r t :
  PublishRun cfg sm payload key png state container item r t ->
  forall k, k ∈ uploadedKeys (hr_shared r) <->
            k ∈ uploaded state \/
            exists sm' body ct, In (EvUpload sm' k body ct true) t.
Proof.
  intros HP k.
  assert (Hstep : forall res tu, UploadStep cfg sm payload key png state res tu ->
            forall st1, res = Some st1 ->
            forall extra, (forall sm' k' body ct, ~ In (EvUpload sm' k' body ct true) extra) ->
            (k ∈ uploaded st1 <->
             k ∈ uploaded state \/
             exists sm' body ct, In (EvUpload sm' k body ct true) (tu ++ extra))).
  { intros res tu HU st1 Hres extra Hextra. inversion HU; subst; simplify_eq.
    - split; [now left|]. intros [Hk|(sm' & b & c & Hin)]; [exact Hk|].
      simpl in Hin. now apply Hextra in Hin.
    - unfold add_uploaded. cbn [uploaded]. rewrite elem_of_union, elem_of_singleton.
      split.
      + intros [->|Hk]; [right|now left]. exists sm, png, (contentType cfg). now left.
      + intros [Hk|(sm' & b & c & Hin)]; [now right|].
        destruct Hin as [Hin|Hin]; [injection Hin as _ -> _ _; now left|].
        now apply Hextra in Hin. }
  destruct HP as [tu HU | st1 tu url HU Hc Ht | st1 tu url HU Hc | st1 tu msg HU Hc];
    cbn [hr_shared]; rewrite uploadedKeys_store.
  - inversion HU; subst. split; [now left|].
    intros [Hk|(sm' & b & c & Hin)]; [exact Hk|]. in_trace.
  - rewrite <- (app_nil_r tu). apply (Hstep _ _ HU); auto.
  - unfold set_urlCache. cbn [uploaded]. apply (Hstep _ _ HU); auto.
    intros sm' k' b c Hin. in_trace.
  - apply (Hstep _ _ HU); auto. intros sm' k' b c Hin. in_trace.
Qed.

Lemma HookRun_uploaded (plugin : PluginInstance) (payload : Payload)
    (runShared : gmap string PluginRunState) r t :
  HookRun plugin payload runShared r t ->
  forall k, k ∈ uploadedKeys (hr_shared r) <->
            k ∈ uploadedKeys runShared \/
            exists sm body ct, In (EvUpload sm k body ct true) t.
Proof.
  intros HR k.
  assert (Hq : forall t', quiet t' ->
            forall sm body ct, ~ In (EvUpload sm k body ct true) t').
  { intros t' Q sm body ct Hin. quiet_absurd. }
  destruct HR as [t Q | item' c o t Hi Q HU HC HF HR
                 | cfg' item' sm state container t0 r t1 Hc Hi Q HU HC HF HP];
    cbn [hr_shared].
  - split; [now left|]. intros [Hk|(sm1 & b1 & c1 & Hin)]; [exact Hk|].
    now apply Hq in Hin.
  - rewrite HU. split; [now left|]. intros [Hk|(sm1 & b1 & c1 & Hin)]; [exact Hk|].
    now apply Hq in Hin.
  - rewrite <- HU.
    destruct HP as [url Hs' | msg Hs' | t00 tpl fonts msg Hs' Q0
                   | t00 tpl fonts png r t2 Hs' Q0 HPub];
      cbn [hr_shared]; try rewrite uploadedKeys_store;
      try (unfold set_urlCache; cbn [uploaded]).
    1-3: split; [now left|]; intros [Hk|(sm1 & b1 & c1 & Hin)]; [exact Hk|];
         in_trace; try (now apply Hq in Hin).
    rewrite (PublishRun_uploaded _ _ _ _ _ _ _ _ _ _ HPub k).
    split; intros [Hk|(sm1 & b1 & c1 & Hin)]; try (now left); right;
      exists sm1, b1, c1.
    + apply in_or_app. right. apply in_or_app. right. now right.
    + in_trace; try (now apply Hq in Hin). exact Hin.
Qed.


(** A hook call uploads at most once: every upload event of its trace is
    the same event. *)
Lemma HookRun_single_upload (plugin : PluginInstance) (payload : Payload)
    (runShared : gmap string PluginRunState) r t :
  HookRun plugin payload runShared r t ->
  (count isUpload t <= 1)%nat /\
  forall ev1 ev2, In ev1 t -> In ev2 t ->
    isUpload ev1 = true -> isUpload ev2 = true -> ev1 = ev2.
Proof.
  intros HR.
  assert (Hq : forall t', quiet t' -> forall ev, In ev t' -> isUpload ev = true -> False).
  { intros t' Q ev Hin Hu. destruct (Q ev Hin) as (_ & Hu' & _). congruence. }
  destruct HR as [t Q | item' c o t Hi Q HU HC HF HR
                 | cfg' item' sm state container t0 r t1 Hc Hi Q HU HC HF HP].
  - destruct (quiet_count t Q) as (_ & -> & _). split; [lia|].
    intros ev1 ev2 H1 _ U1 _. destruct (Hq t Q ev1 H1 U1).
  - destruct (quiet_count t Q) as (_ & -> & _). split; [lia|].
    intros ev1 ev2 H1 _ U1 _. destruct (Hq t Q ev1 H1 U1).
  - destruct (quiet_count t0 Q) as (_ & C0 & _).
    destruct HP as [url Hs' | msg Hs' | t00 tpl fonts msg Hs' Q0
                   | t00 tpl fonts png r t2 Hs' Q0 HPub].
    + rewrite count_app, C0. split; [cbn; lia|].
      intros ev1 ev2 H1 H2 U1 U2. exfalso. in_trace; try discriminate.
      all: eapply Hq; eauto.
    + rewrite count_app, C0. split; [cbn; lia|].
      intros ev1 ev2 H1 H2 U1 U2. exfalso. in_trace; try discriminate.
      all: eapply Hq; eauto.
    + destruct (quiet_count t00 Q0) as (_ & C00 & _).
      rewrite !count_app, C0, C00. split; [cbn; lia|].
      intros ev1 ev2 H1 H2 U1 U2. exfalso.
      apply in_app_or in H1. destruct H1 as [H1|H1]; [now apply (Hq t0 Q ev1)|].
      apply in_app_or in H1. destruct H1 as [H1|H1]; [now apply (Hq t00 Q0 ev1)|].
      in_trace; discriminate.
    + destruct (quiet_count t00 Q0) as (_ & C00 & _).
      destruct (PublishRun_trace _ _ _ _ _ _ _ _ _ _ HPub)
        as (res & tu & rest & HUp & -> & Cr & Hrest & _).
      assert (Hin : forall ev,
                In ev (t0 ++ t00 ++ EvRender tpl fonts (Some png) :: tu ++ rest) ->
                isUpload ev = true -> In ev tu).
      { intros ev Hev Uev.
        apply in_app_or in Hev. destruct Hev as [Hev|Hev]; [destruct (Hq t0 Q ev Hev Uev)|].
        apply in_app_or in Hev. destruct Hev as [Hev|Hev]; [destruct (Hq t00 Q0 ev Hev Uev)|].
        destruct Hev as [<-|Hev]; [discriminate|].
        apply in_app_or in Hev. destruct Hev as [Hev|Hev]; [exact Hev|].
        apply Hrest in Hev. destruct Hev. congruence. }
      change (EvRender tpl fonts (Some png) :: tu ++ rest)
        with ([EvRender tpl fonts (Some png)] ++ tu ++ rest).
      rewrite !count_app, C0, C00, Cr.
      destruct (UploadStep_trace _ _ _ _ _ _ _ _ HUp)
        as [(-> & _) | (_ & ok & logs & -> & Hlogs & _)].
      * split; [cbn; lia|]. intros ev1 ev2 H1 _ U1 _. destruct (Hin ev1 H1 U1).
      * change (EvUpload sm (remoteKeyOf cfg' item') png (contentType cfg') ok :: logs)
          with ([EvUpload sm (remoteKeyOf cfg' item') png (contentType cfg') ok] ++ logs).
        rewrite count_app, (logs_count isUpload logs); auto. split; [cbn; lia|].
        assert (Hone : forall ev, In ev ([EvUpload sm (remoteKeyOf cfg' item') png
                                             (contentType cfg') ok] ++ logs) ->
                         isUpload ev = true ->
                         ev = EvUpload sm (remoteKeyOf cfg' item') png (contentType cfg') ok).
        { intros ev [<-|Hev] Uev; [reflexivity|].
          apply (logs_In _ _ Hlogs) in Hev. destruct ev; discriminate. }
        intros ev1 ev2 H1 H2 U1 U2.
        rewrite (Hone ev1 (Hin ev1 H1 U1) U1), (Hone ev2 (Hin ev2 H2 U2) U2).
        reflexivity.
Qed.

(** In one hook call the set changes by exactly the key of a successful
    upload, and not at all without one. *)
Lemma HookRun_uploaded_step (plugin : PluginInstance) (payload : Payload)
    (runShared : gmap string PluginRunState) r t :
  HookRun plugin payload runShared r t ->
  (forall sm k body ct, In (EvUpload sm k body ct true) t ->
     uploadedKeys (hr_shared r) = {[ k ]} ∪ uploadedKeys runShared) /\
  ((forall sm k body ct, ~ In (EvUpload sm k body ct true) t) ->
     uploadedKeys (hr_shared r) = uploadedKeys runShared).
Proof.
  intros HR.
  pose proof (HookRun_uploaded _ _ _ _ _ HR) as Hiff.
  destruct (HookRun_single_upload _ _ _ _ _ HR) as (_ & Hsame).
  split.
  - intros sm k body ct Hin. apply set_eq. intros k'.
    rewrite Hiff, elem_of_union, elem_of_singleton. split.
    + intros [Hk|(sm' & b' & c' & Hin')]; [now right|left].
      pose proof (Hsame _ _ Hin' Hin eq_refl eq_refl) as E. now injection E.
    + intros [->|Hk]; [right; eauto|now left].
  - intros Hno. apply set_eq. intros k'. rewrite Hiff. split; [|now left].
    intros [Hk|(sm' & b' & c' & Hin')]; [exact Hk|]. now apply Hno in Hin'.
Qed.

(** ** A run over several items *)

Lemma run_runPlugin_cons (plugin : PluginInstance) (payload : Payload)
    (rest : list Payload) (runShared : gmap string PluginRunState) (w : W) :
  run h (runPlugin plugin (payload :: rest) runShared) w =
    let '(r, w1, t1) := run h (afterPhotoProcess plugin payload runShared) w in
    let '(out, w2, t2) := run h (runPlugin plugin rest (hr_shared r)) w1 in
    ((fst out, r :: snd out), w2, t1 ++ t2).
Proof.
  cbn [runPlugin]. rewrite run_bind.
  destruct (run h (afterPhotoProcess plugin payload runShared) w) as [[r w1] t1].
  rewrite run_bind.
  destruct (run h (runPlugin plugin rest (hr_shared r)) w1) as [[out w2] t2].
  simpl. now rewrite app_nil_r.
Qed.

Lemma run_runPlugin_app (plugin : PluginInstance) (before after : list Payload)
    (runShared : gmap string PluginRunState) (w : W) :
  run h (runPlugin plugin (before ++ after) runShared) w =
    let '(mid, w1, t1) := run h (runPlugin plugin before runShared) w in
    let '(out, w2, t2) := run h (runPlugin plugin after (fst mid)) w1 in
    ((fst out, snd mid ++ snd out), w2, t1 ++ t2).
Proof.
  revert runShared w. induction before as [|p before IH]; intros runShared w.
  - simpl. destruct (run h (runPlugin plugin after runShared) w) as [[[c rs] w2] t2].
    reflexivity.
  - rewrite <- app_comm_cons, !run_runPlugin_cons.
    destruct (run h (afterPhotoProcess plugin p runShared) w) as [[r w1] t1].
    rewrite IH.
    destruct (run h (runPlugin plugin before (hr_shared r)) w1) as [[mid w2] t2].
    cbn [fst snd].
    destruct (run h (runPlugin plugin after (fst mid)) w2) as [[out w3] t3].
    cbn [fst snd]. rewrite <- !app_assoc. reflexivity.
Qed.

Lemma runPlugin_uploaded (plugin : PluginInstance) (payloads : list Payload)
    (runShared : gmap string PluginRunState) (w : W) :
  let out := run h (runPlugin plugin payloads runShared) w in
  forall k, k ∈ uploadedKeys (fst (result_of out)) <->
            k ∈ uploadedKeys runShared \/
            exists sm body ct, In (EvUpload sm k body ct true) (trace_of out).
Proof.
  revert runShared w. induction payloads as [|p rest IH]; intros runShared w out k;
    subst out.
  - unfold result_of, trace_of. cbn [runPlugin run fst snd].
    split; [now left|]. intros [Hk|(? & ? & ? & [])]. exact Hk.
  - rewrite run_runPlugin_cons.
    destruct (run h (afterPhotoProcess plugin p runShared) w) as [[r w1] t1] eqn:E1.
    apply afterPhotoProcess_run in E1.
    pose proof (HookRun_uploaded _ _ _ _ _ E1 k) as H1.
    specialize (IH (hr_shared r) w1 k). unfold result_of, trace_of in *.
    destruct (run h (runPlugin plugin rest (hr_shared r)) w1) as [[o w2] t2].
    cbn [fst snd] in *. rewrite IH, H1.
    split.
    + intros [[Hk|(sm & b & c & Hin)]|(sm & b & c & Hin)]; [now left|right..];
        exists sm, b, c; apply in_or_app; auto.
    + intros [Hk|(sm & b & c & Hin)]; [now left; left|].
      apply in_app_or in Hin. destruct Hin as [Hin|Hin];
        [left; right|right]; exists sm, b, c; exact Hin.
Qed.

(** C10. Within a run the [uploaded] set only grows: what it holds after
    some items is still there after more items.  A key is in the set at the
    end exactly when it was there at the start or an upload of that very
    key succeeded during the run; so, in a run that starts with an empty
    set, every key of the set was uploaded successfully.  A single hook
    call uploads at most once, adds exactly the key of its successful
    upload and leaves the set alone without one. *)
Theorem uploaded_keys_only_grow (plugin : PluginInstance)
    (before after : list Payload)
    (runShared : gmap string PluginRunState) (w : W) :
  let mid := run h (runPlugin plugin before runShared) w in
  let out := run h (runPlugin plugin (before ++ after) runShared) w in
  let final := fst (result_of out) in
  uploadedKeys runShared ⊆ uploadedKeys (fst (result_of mid)) /\
  uploadedKeys (fst (result_of mid)) ⊆ uploadedKeys final /\
  (forall k, k ∈ uploadedKeys final <->
             k ∈ uploadedKeys runShared \/
             exists sm body ct, In (EvUpload sm k body ct true) (trace_of out)) /\
  (uploadedKeys runShared = ∅ ->
   forall k, k ∈ uploadedKeys final ->
             exists sm body ct, In (EvUpload sm k body ct true) (trace_of out)) /\
  (forall payload shared w',
     let call := run h (afterPhotoProcess plugin payload shared) w' in
     (count isUpload (trace_of call) <= 1)%nat /\
     (forall sm k body ct, In (EvUpload sm k body ct true) (trace_of call) ->
        uploadedKeys (hr_shared (result_of call)) = {[ k ]} ∪ uploadedKeys shared) /\
     ((forall sm k body ct, ~ In (EvUpload sm k body ct true) (trace_of call)) ->
        uploadedKeys (hr_shared (result_of call)) = uploadedKeys shared)).
Proof.
  intros mid out final.
  pose proof (runPlugin_uploaded plugin before runShared w) as Hmid.
  pose proof (runPlugin_uploaded plugin (before ++ after) runShared w) as Hout.
  cbn zeta in Hmid, Hout. fold mid in Hmid. fold out in Hout. fold final in Hout.
  split; [|split; [|split; [|split]]].
  - intros k Hk. apply Hmid. now left.
  - subst final out. rewrite run_runPlugin_app. fold mid.
    destruct mid as [[m w1] t1].
    pose proof (runPlugin_uploaded plugin after (fst m) w1) as Hafter.
    cbn zeta in Hafter.
    destruct (run h (runPlugin plugin after (fst m)) w1) as [[o w2] t2].
    unfold result_of in *. cbn [fst snd] in *.
    intros k Hk. apply Hafter. now left.
  - exact Hout.
  - intros Hempty k Hk. apply Hout in Hk. destruct Hk as [Hk|Hk]; [|exact Hk].
    rewrite Hempty in Hk. now apply not_elem_of_empty in Hk.
  - intros payload shared w' call. subst call. unfold result_of, trace_of.
    destruct (run h (afterPhotoProcess plugin payload shared) w') as [[r w2] t] eqn:E.
    cbn [fst snd]. apply afterPhotoProcess_run in E.
    split; [apply (HookRun_single_upload _ _ _ _ _ E)|].
    apply (HookRun_uploaded_step _ _ _ _ _ E).
Qed.

(** ** Missing fonts *)




(** ** Metadata summary *)


End Facts.

(** ** Examples on the sample environment *)



Lemma failed_upload_aborts_item_witness :
  let out := run (scenarioEnv noUpload)
               (afterPhotoProcess (H := sampleLib) samplePlugin
                  (samplePayload "b" "new" false) sampleShared) tt in
  let r := result_of out in
  uploadedKeys (hr_shared r) = uploadedKeys sampleShared /\
  hr_item r = Some (sampleItem "b") /\
  count isUpload (trace_of out) = 1%nat.
Proof.
  destruct (failed_upload_aborts_item (H := sampleLib) (scenarioEnv noUpload)
              samplePlugin (samplePayload "b" "new" false) sampleShared tt
              BuilderStorage ".afilmory/og-images/b.png" [] "image/png")
    as (HU & _ & HI & _ & HC & _).
  - vm_compute. do 3 right. left. reflexivity.
  - repeat split; assumption.
Defined.


(** The resolver on a remote thumbnail: a response without a declared type
    is encoded with the type guessed from the extension; after a failed
    fetch the same URL is read under the public root; with both failing
    the result is absent. *)
Example resolveThumbnailDataUrl_remote :
  let ok := Some {| resp_ok := true; resp_contentType := None; resp_body := Some [] |} in
  let go env :=
    run env (resolveThumbnailDataUrl (H := sampleLib) remoteThumbnailItem None) tt in
  result_of (go (thumbnailEnv ok None)) = Some "data:image/webp;base64,AAAA" /\
  calls (trace_of (go (thumbnailEnv ok None)))
    = [EvFetch "https://cdn.example/thumbnails/T.WEBP" ok] /\
  result_of (go (thumbnailEnv None (Some []))) = Some "data:image/webp;base64,AAAA" /\
  calls (trace_of (go (thumbnailEnv None (Some []))))
    = [EvFetch "https://cdn.example/thumbnails/T.WEBP" None;
       EvReadFile (PublicFile "https://cdn.example/thumbnails/T.WEBP") (Some [])] /\
  result_of (go (thumbnailEnv None None)) = None.
Proof. vm_compute. repeat split. Qed.

(** One run over the same item four times (new, new again, forced,
    skipped): three renders; two uploads, as the second is suppressed by the
    [uploaded] set and the forced one is not; two URL resolutions, the
    first one and the one of the skipped item, the others being served from
    the cache; the fonts are probed once. *)
Example run_dedup_and_force :
  let t := trace_of (run (scenarioEnv allGood)
                       (runPlugin (H := sampleLib) samplePlugin
                          [samplePayload "a" "new" false;
                           samplePayload "a" "new" false;
                           samplePayload "a" "new" true;
                           samplePayload "a" "skipped" false] ∅) tt) in
  count isRender t = 3%nat /\ count isUpload t = 2%nat /\
  count isPublicUrl t = 2%nat /\ count isStat t = 2%nat.
Proof. vm_compute. repeat split. Qed.

(** C7. Two items in a run without font files: the six candidate paths are
    probed for each item and the warning is logged for each item. *)
Lemma fonts_checked_again_for_each_item :
  let t := trace_of (run (scenarioEnv noFonts)
                       (runPlugin (H := sampleLib) samplePlugin
                          [samplePayload "a" "new" false;
                           samplePayload "b" "new" false] ∅) tt) in
  count isStat t = 12%nat /\ count isFontsWarning t = 2%nat.
Proof. vm_compute. split; reflexivity. Qed.


Example buildExifInfo_iso_100 :
  buildExifInfo (H := sampleLib) (isoOnlyPhoto (JNum (num_lit 100 1))) =
    Some {| focalLength := None; aperture := None;
            iso := Some (JNum (num_lit 100 1));
            shutterSpeed := None; camera := None |}.
Proof. reflexivity. Qed.

End PluginSpec.

(* ===================================================================== *)
(** * Part V: paths and remote keys                                       *)
(* ===================================================================== *)

Module StringFacts.
Import Layout OgImagePlugin PluginSetup Observations.
Local Open Scope string_scope.
Local Open Scope list_scope.

Lemma chars_of_chars (l : list ascii) : chars (of_chars l) = l.
Proof. apply list_ascii_of_string_of_list_ascii. Qed.

Lemma of_chars_chars (s : string) : of_chars (chars s) = s.
Proof. apply string_of_list_ascii_of_string. Qed.

Lemma chars_app (a b : string) : chars (a +:+ b) = chars a ++ chars b.
Proof.
  induction a as [|c a IH]; simpl; [reflexivity|]. unfold chars in *. simpl.
  now rewrite IH.
Qed.

Lemma chars_rev_app (s1 s2 : string) :
  chars (String.rev_app s1 s2) = rev (chars s1) ++ chars s2.
Proof.
  revert s2. induction s1 as [|c s1 IH]; intros s2; [reflexivity|].
  cbn [String.rev_app]. rewrite IH. unfold chars. simpl.
  now rewrite <- app_assoc.
Qed.

Lemma chars_rev (s : string) : chars (String.rev s) = rev (chars s).
Proof. unfold String.rev. rewrite chars_rev_app. apply app_nil_r. Qed.

Lemma chars_inj (a b : string) : chars a = chars b -> a = b.
Proof.
  intros E. rewrite <- (of_chars_chars a), <- (of_chars_chars b). now rewrite E.
Qed.

Lemma truthyString_chars (s : string) : truthyString s = true <-> chars s <> [].
Proof. unfold truthyString. destruct s; simpl; split; easy. Qed.

Lemma truthyString_false (s : string) : truthyString s = false <-> s = "".
Proof. unfold truthyString. destruct s; simpl; split; easy. Qed.

Lemma truthy_nonempty (s : string) : s <> "" -> truthyString s = true.
Proof. destruct s; [contradiction|reflexivity]. Qed.

Lemma truthyString_append_r (a b : string) :
  truthyString b = true -> truthyString (a +:+ b) = true.
Proof. destruct a; [auto|reflexivity]. Qed.

Lemma append_empty (a b : string) : a +:+ b = "" -> a = "" /\ b = "".
Proof. destruct a; simpl; [auto|discriminate]. Qed.

Lemma append_inv_tail (a b t : string) : a +:+ t = b +:+ t -> a = b.
Proof.
  intros E. apply chars_inj. apply (f_equal chars) in E.
  rewrite !chars_app in E. now apply app_inv_tail in E.
Qed.

(** [startsWith] and [endsWith] on character lists. *)
Lemma prefix_chars (p s : string) :
  String.prefix p s = true <-> exists r, chars s = chars p ++ r.
Proof.
  revert s. induction p as [|a p IH]; intros s.
  - destruct s; simpl; split; eauto.
  - destruct s as [|b s]; simpl.
    + split; [discriminate|]. intros [r Hr]. discriminate.
    + destruct (ascii_dec a b) as [->|Hne].
      * rewrite IH. unfold chars. simpl. split; intros [r Hr]; exists r; congruence.
      * split; [discriminate|]. intros [r Hr]. unfold chars in Hr. simpl in Hr.
        congruence.
Qed.

Lemma startsWith_chars (s p : string) :
  startsWith s p = true <-> exists r, chars s = chars p ++ r.
Proof. apply prefix_chars. Qed.

Lemma endsWith_chars (s p : string) :
  endsWith s p = true <-> exists r, chars s = r ++ chars p.
Proof.
  unfold endsWith. rewrite prefix_chars, !chars_rev. split; intros [r Hr].
  - exists (rev r). apply (f_equal (@rev ascii)) in Hr.
    rewrite rev_involutive, rev_app_distr, rev_involutive in Hr. exact Hr.
  - exists (rev r). rewrite Hr, rev_app_distr. reflexivity.
Qed.

Lemma endsWith_last (s p : string) (c : ascii) (q : list ascii) :
  chars p = q ++ [c] -> endsWith s p = true -> exists r, chars s = r ++ [c].
Proof.
  intros Hp Hs. apply endsWith_chars in Hs as [r Hr]. exists (r ++ q).
  now rewrite Hr, Hp, app_assoc.
Qed.

Lemma chars_toLowerCase (s : string) : chars (toLowerCase s) = map lowerChar (chars s).
Proof. unfold toLowerCase. apply chars_of_chars. Qed.

Lemma toLowerCase_app (a b : string) :
  toLowerCase (a +:+ b) = toLowerCase a +:+ toLowerCase b.
Proof.
  apply chars_inj. now rewrite chars_app, !chars_toLowerCase, chars_app, map_app.
Qed.

(** ** [dropWhile] and [dropWhileEnd] *)

Lemma dropWhile_head {A} (f : A -> bool) (l : list A) x r :
  dropWhile f l = x :: r -> f x = false.
Proof.
  induction l as [|y l IH]; simpl; [discriminate|].
  destruct (f y) eqn:E; [exact IH|]. now intros [= <- <-].
Qed.

Lemma dropWhile_suffix {A} (f : A -> bool) (l : list A) :
  exists p, l = p ++ dropWhile f l /\ Forall (fun x => f x = true) p.
Proof.
  induction l as [|y l (p & Hp & Hall)]; simpl; [now exists []|].
  destruct (f y) eqn:E.
  - exists (y :: p). split; [simpl; congruence|]. now constructor.
  - now exists [].
Qed.

Lemma dropWhile_id {A} (f : A -> bool) (l : list A) :
  (forall x r, l = x :: r -> f x = false) -> dropWhile f l = l.
Proof.
  destruct l as [|x r]; [reflexivity|]. intros Hh. simpl.
  now rewrite (Hh x r eq_refl).
Qed.

Lemma dropWhile_app_keep {A} (f : A -> bool) (a b : list A) x r :
  b = x :: r -> f x = false -> dropWhile f (a ++ b) = dropWhile f a ++ b.
Proof.
  intros -> Hx. induction a as [|y a IH]; simpl.
  - now rewrite Hx.
  - destruct (f y); [exact IH|reflexivity].
Qed.

Lemma dropWhileEnd_last {A} (f : A -> bool) (l : list A) x r :
  dropWhileEnd f l = r ++ [x] -> f x = false.
Proof.
  unfold dropWhileEnd. intros E. apply (f_equal (@rev A)) in E.
  rewrite rev_involutive, rev_app_distr in E. simpl in E.
  exact (dropWhile_head _ _ _ _ E).
Qed.

Lemma dropWhileEnd_prefix {A} (f : A -> bool) (l : list A) :
  exists s, l = dropWhileEnd f l ++ s /\ Forall (fun x => f x = true) s.
Proof.
  unfold dropWhileEnd. destruct (dropWhile_suffix f (rev l)) as (p & Hp & Hall).
  exists (rev p). split.
  - apply (f_equal (@rev A)) in Hp. rewrite rev_involutive, rev_app_distr in Hp.
    exact Hp.
  - apply Forall_forall. intros x Hx. rewrite Forall_forall in Hall.
    apply Hall. apply list_elem_of_In. apply list_elem_of_In in Hx. now apply in_rev.
Qed.

Lemma dropWhileEnd_id {A} (f : A -> bool) (l : list A) :
  (forall x r, l = r ++ [x] -> f x = false) -> dropWhileEnd f l = l.
Proof.
  intros Hl. unfold dropWhileEnd. rewrite dropWhile_id; [apply rev_involutive|].
  intros x r E. apply (Hl x (rev r)).
  apply (f_equal (@rev A)) in E. rewrite rev_involutive in E. simpl in E. exact E.
Qed.

Lemma dropWhileEnd_app_keep {A} (f : A -> bool) (a b : list A) x r :
  b = r ++ [x] -> f x = false -> dropWhileEnd f (a ++ b) = a ++ b.
Proof.
  intros -> Hx. apply dropWhileEnd_id. intros y s E.
  rewrite app_assoc in E. apply app_inj_tail in E as [_ <-]. exact Hx.
Qed.

Lemma dropWhileEnd_head {A} (f : A -> bool) (l : list A) x r :
  (forall y s, l = y :: s -> f y = false) ->
  dropWhileEnd f l = x :: r -> f x = false.
Proof.
  intros Hl E. destruct (dropWhileEnd_prefix f l) as (s & Hs & _).
  rewrite E in Hs. simpl in Hs. exact (Hl _ _ Hs).
Qed.

Lemma dropWhile_In {A} (f : A -> bool) (l : list A) x :
  In x (dropWhile f l) -> In x l.
Proof.
  destruct (dropWhile_suffix f l) as (p & Hp & _). intros Hin.
  rewrite Hp. apply in_or_app. now right.
Qed.

Lemma dropWhileEnd_In {A} (f : A -> bool) (l : list A) x :
  In x (dropWhileEnd f l) -> In x l.
Proof.
  destruct (dropWhileEnd_prefix f l) as (p & Hp & _). intros Hin.
  rewrite Hp. apply in_or_app. now left.
Qed.

(** ** Normal forms of [normalizeSlashes] *)

Lemma isSlash_true (c : ascii) : isSlash c = true <-> c = slash.
Proof. unfold isSlash. apply Ascii.eqb_eq. Qed.

Lemma normalPath_chars (s : string) : normalPath s <-> normalChars (chars s).
Proof.
  unfold normalPath, normalChars.
  split; intros (Hb & Hs & He); (split; [exact Hb|split]).
  - intros x r E. destruct (isSlash x) eqn:Ex; [|reflexivity].
    apply isSlash_true in Ex. subst x.
    assert (startsWith s "/" = true); [|congruence].
    apply startsWith_chars. exists r. exact E.
  - intros x r E. destruct (isSlash x) eqn:Ex; [|reflexivity].
    apply isSlash_true in Ex. subst x.
    assert (endsWith s "/" = true); [|congruence].
    apply endsWith_chars. exists r. exact E.
  - destruct (startsWith s "/") eqn:E; [|reflexivity].
    apply startsWith_chars in E as [r Hr]. specialize (Hs _ _ Hr). discriminate Hs.
  - destruct (endsWith s "/") eqn:E; [|reflexivity].
    apply endsWith_chars in E as [r Hr]. specialize (He _ _ Hr). discriminate He.
Qed.

Lemma normalizeSlashes_chars (value : string) :
  chars (normalizeSlashes value) =
    dropWhileEnd isSlash (dropWhile isSlash (map unbackslash (chars value))).
Proof. unfold normalizeSlashes. now rewrite chars_of_chars. Qed.

Lemma unbackslash_not_backslash (l : list ascii) : ~ In backslash (map unbackslash l).
Proof.
  intros Hin. apply in_map_iff in Hin as (c & Hc & _). unfold unbackslash in Hc.
  destruct (Ascii.eqb c backslash) eqn:E; [discriminate|].
  apply Ascii.eqb_neq in E. congruence.
Qed.

Lemma unbackslash_id (l : list ascii) : ~ In backslash l -> map unbackslash l = l.
Proof.
  induction l as [|c l IH]; [reflexivity|]. intros Hn. simpl.
  rewrite IH by (intros Hi; apply Hn; now right).
  unfold unbackslash. destruct (Ascii.eqb c backslash) eqn:E; [|reflexivity].
  apply Ascii.eqb_eq in E. exfalso. apply Hn. now left.
Qed.

Lemma normalizeSlashes_normal (value : string) : normalPath (normalizeSlashes value).
Proof.
  apply normalPath_chars. rewrite normalizeSlashes_chars.
  set (m := map unbackslash (chars value)).
  split; [|split].
  - intros Hin. apply dropWhileEnd_In, dropWhile_In in Hin.
    exact (unbackslash_not_backslash _ Hin).
  - intros x r E. eapply dropWhileEnd_head; [|exact E].
    intros y s Ey. exact (dropWhile_head _ _ _ _ Ey).
  - intros x r E. exact (dropWhileEnd_last _ _ _ _ E).
Qed.

Lemma normalizeSlashes_id (s : string) : normalPath s -> normalizeSlashes s = s.
Proof.
  intros Hn. apply normalPath_chars in Hn as (Hb & Hs & He).
  apply chars_inj. rewrite normalizeSlashes_chars.
  rewrite unbackslash_id by exact Hb.
  rewrite dropWhile_id by exact Hs. now apply dropWhileEnd_id.
Qed.

(** ** [joinSegments] *)

Lemma kept_Forall (segments : list (option string)) :
  Forall (fun s => normalPath s /\ s <> "") (kept segments).
Proof.
  unfold kept. apply Forall_forall. intros s Hs. apply list_elem_of_In in Hs.
  apply filter_In in Hs as (Hin & Ht). apply in_map_iff in Hin as (seg & <- & _).
  split; [apply normalizeSlashes_normal|].
  intros E. rewrite E in Ht. discriminate.
Qed.

Lemma kept_nil (segments : list (option string)) :
  kept segments = [] <->
  forall segment, In segment segments -> normalizeSlashes (default "" segment) = "".
Proof.
  unfold kept. induction segments as [|seg rest IH]; simpl.
  - split; [intros _ ? []|reflexivity].
  - destruct (truthyString (normalizeSlashes (default "" seg))) eqn:E.
    + split; [discriminate|]. intros Hall.
      rewrite (Hall seg (or_introl eq_refl)) in E. discriminate.
    + apply truthyString_false in E. rewrite IH. split.
      * intros Hall s [<-|Hs]; auto.
      * intros Hall s Hs. apply Hall. now right.
Qed.

Lemma concat_nonempty (x : string) (l : list string) :
  x <> "" -> String.concat "/" (x :: l) <> "".
Proof.
  intros Hx. destruct l as [|y l]; simpl; [exact Hx|].
  intros E. apply append_empty in E as [E _]. contradiction.
Qed.

Lemma concat_cons (x : string) (l : list string) :
  String.concat "/" (x :: l) =
    match l with [] => x | _ => x +:+ "/" +:+ String.concat "/" l end.
Proof. destruct l; reflexivity. Qed.

Lemma normalChars_app (a b : list ascii) :
  normalChars a -> normalChars b -> a <> [] -> b <> [] ->
  normalChars (a ++ slash :: b).
Proof.
  intros (Ab & As & Ae) (Bb & Bs & Be) Ha Hb. split; [|split].
  - intros Hin. apply in_app_or in Hin as [Hin|[Hin|Hin]]; auto. discriminate.
  - intros x r E. destruct a as [|a0 a]; [contradiction|].
    simpl in E. injection E as <- _. now apply (As a0 a).
  - intros x r E. destruct (exists_last Hb) as (b' & y & ->).
    change (a ++ slash :: b' ++ [y]) with (a ++ (slash :: b') ++ [y]) in E.
    rewrite app_assoc in E. apply app_inj_tail in E as [_ <-].
    now apply (Be y b').
Qed.

Lemma concat_normal (l : list string) :
  Forall (fun s => normalPath s /\ s <> "") l -> normalPath (String.concat "/" l).
Proof.
  induction l as [|x l IH]; intros Hall.
  - simpl. split; [intros []|]. split; reflexivity.
  - inversion Hall as [|? ? [Hx Hne] Hl]; subst. rewrite concat_cons.
    destruct l as [|y l]; [exact Hx|].
    specialize (IH Hl). apply normalPath_chars. rewrite !chars_app.
    change (chars "/" ++ ?b) with (slash :: b).
    apply normalChars_app.
    + now apply normalPath_chars.
    + now apply normalPath_chars.
    + intros E. apply Hne. apply chars_inj. exact E.
    + inversion Hl as [|? ? [_ Hy] _]; subst. intros E.
      apply (concat_nonempty y l Hy). apply chars_inj. exact E.
Qed.

Lemma joinSegments_kept (segments : list (option string)) :
  joinSegments segments = String.concat "/" (kept segments).
Proof. reflexivity. Qed.

Lemma joinSegments_normal (segments : list (option string)) :
  normalPath (joinSegments segments).
Proof. rewrite joinSegments_kept. apply concat_normal, kept_Forall. Qed.

Lemma joinSegments_single (s : string) :
  joinSegments [Some s] = normalizeSlashes s.
Proof.
  unfold joinSegments. simpl.
  destruct (truthyString (normalizeSlashes s)) eqn:E; [reflexivity|].
  apply truthyString_false in E. now rewrite E.
Qed.

Lemma joinSegments_empty (segments : list (option string)) :
  joinSegments segments = "" <-> kept segments = [].
Proof.
  rewrite joinSegments_kept. split.
  - pose proof (kept_Forall segments) as Hall.
    destruct (kept segments) as [|x l]; [reflexivity|].
    inversion Hall as [|? ? [_ Hx] _]; subst. intros E.
    now apply concat_nonempty in E.
  - now intros ->.
Qed.

Lemma joinSegments_cons (segment : option string) (rest : list (option string)) :
  joinSegments (segment :: rest) =
    let first := normalizeSlashes (default "" segment) in
    if truthyString first then
      if truthyString (joinSegments rest) then first +:+ "/" +:+ joinSegments rest
      else first
    else joinSegments rest.
Proof.
  cbn zeta. rewrite !joinSegments_kept. unfold kept at 1. simpl.
  fold (kept rest).
  destruct (truthyString (normalizeSlashes (default "" segment))) eqn:E; [|reflexivity].
  rewrite concat_cons. destruct (kept rest) as [|y l] eqn:Ek; [reflexivity|].
  assert (Hy : String.concat "/" (y :: l) <> "").
  { apply concat_nonempty. pose proof (kept_Forall rest) as Hall. rewrite Ek in Hall.
    now inversion Hall as [|? ? [_ Hy] _]. }
  destruct (truthyString (String.concat "/" (y :: l))) eqn:Et; [reflexivity|].
  apply truthyString_false in Et. contradiction.
Qed.

End StringFacts.

Module PathSpec.
Import Layout OgImagePlugin PluginSetup Observations StringFacts.
Local Open Scope string_scope.
Local Open Scope list_scope.

(** ** [normalizeDirectory] *)

Lemma normalizeDirectory_cases (directory : option string) :
  normalizeDirectory directory = DEFAULT_DIRECTORY \/
  (normalizeDirectory directory <> "" /\
   exists d, directory = Some d /\
             normalizeDirectory directory = normalizeSlashes (trim d)).
Proof.
  unfold normalizeDirectory. cbn zeta.
  destruct (truthyString (normalizeSlashes _)) eqn:E; [|now left].
  destruct directory as [d|]; [|now left]. cbn [trimmed orString] in *.
  destruct (truthyString (trim d)) eqn:Et; cbn [from_option Datatypes.id] in *;
    [|now left].
  right. split.
  - intros E0. rewrite E0 in E. discriminate.
  - now exists d.
Qed.

Lemma DEFAULT_DIRECTORY_normal : normalPath DEFAULT_DIRECTORY.
Proof. split; [|split; reflexivity]. vm_compute. intuition discriminate. Qed.

Lemma normalizeDirectory_facts (directory : option string) :
  normalizeDirectory directory <> "" /\ normalPath (normalizeDirectory directory).
Proof.
  destruct (normalizeDirectory_cases directory) as [-> | (Hne & d & _ & E)].
  - split; [discriminate|apply DEFAULT_DIRECTORY_normal].
  - split; [exact Hne|]. rewrite E. apply normalizeSlashes_normal.
Qed.


(** X2. [joinSegments] returns a path in normal form: no backslash, no
    slash at either end, and joining it again changes nothing.  The result
    is empty exactly when every segment is missing, empty or made of
    slashes only; such a segment never shows in the result; and two
    segments that are not of that kind are joined by one slash. *)
Theorem joinSegments_normal_form (segments : list (option string)) :
  let joined := joinSegments segments in
  ~ In backslash (chars joined) /\
  startsWith joined "/" = false /\ endsWith joined "/" = false /\
  joinSegments [Some joined] = joined /\
  (joined = "" <->
   forall segment, In segment segments -> normalizeSlashes (default "" segment) = "") /\
  (forall before segment after,
     segments = before ++ segment :: after ->
     normalizeSlashes (default "" segment) = "" ->
     joined = joinSegments (before ++ after)) /\
  (forall a b, segments = [Some a; Some b] ->
     normalizeSlashes a <> "" -> normalizeSlashes b <> "" ->
     joined = normalizeSlashes a +:+ "/" +:+ normalizeSlashes b).
Proof.
  intros joined. pose proof (joinSegments_normal segments) as Hn. fold joined in Hn.
  destruct Hn as (Hb & Hs & He) eqn:En. clear En.
  repeat (split; [assumption|]).
  split; [rewrite joinSegments_single; apply normalizeSlashes_id; now split|].
  split; [subst joined; rewrite joinSegments_empty; apply kept_nil|].
  split.
  - intros before segment after -> Hempty. subst joined.
    rewrite !joinSegments_kept. f_equal. unfold kept.
    rewrite !map_app, !List.filter_app. cbn [map List.filter].
    now rewrite Hempty.
  - intros a b -> Ha Hb'. subst joined.
    rewrite joinSegments_cons. cbn zeta. cbn [from_option Datatypes.id].
    rewrite joinSegments_single, (truthy_nonempty _ Ha), (truthy_nonempty _ Hb').
    reflexivity.
Qed.

(** ** [trimSlashes] and [resolveRemotePrefix] *)

Lemma trimSlashes_Some (value : option string) (base : string) :
  trimSlashes value = Some base -> base <> "" /\ normalPath base.
Proof.
  unfold trimSlashes. destruct value as [v|]; [|discriminate].
  destruct (truthyString v); cbn [negb]; [|discriminate].
  destruct (0 <? _)%nat eqn:E; [|discriminate]. intros [= <-].
  split; [|apply normalizeSlashes_normal].
  intros E0. rewrite E0 in E. discriminate.
Qed.

Lemma trimSlashes_None (value : option string) :
  trimSlashes value = None <->
  match value with None => True | Some v => normalizeSlashes v = "" end.
Proof.
  unfold trimSlashes. destruct value as [v|]; [|easy].
  destruct (truthyString v) eqn:Et; cbn [negb].
  - destruct (normalizeSlashes v) eqn:En; simpl; split; easy.
  - apply truthyString_false in Et. subst v. split; [reflexivity|easy].
Qed.

Lemma resolveRemotePrefix_facts (config : StorageConfig) (directory : option string) :
  let dir := normalizeDirectory directory in
  let remotePrefix := resolveRemotePrefix config dir in
  match (if prefixBearing config then trimSlashes (prefix config) else None) with
  | Some base => remotePrefix = base +:+ "/" +:+ dir
  | None => remotePrefix = dir
  end /\
  remotePrefix <> "" /\ endsWith remotePrefix dir = true /\
  normalizeSlashes remotePrefix = remotePrefix.
Proof.
  intros dir remotePrefix.
  destruct (normalizeDirectory_facts directory) as (Hne & Hn).
  fold dir in Hne, Hn.
  assert (Hj : joinSegments [Some dir] = dir).
  { rewrite joinSegments_single. now apply normalizeSlashes_id. }
  assert (Hcase : match (if prefixBearing config then trimSlashes (prefix config)
                         else None) with
                  | Some base => remotePrefix = base +:+ "/" +:+ dir
                  | None => remotePrefix = dir
                  end).
  { subst remotePrefix. unfold resolveRemotePrefix. fold (prefixBearing config).
    destruct (prefixBearing config); [|exact Hj].
    rewrite joinSegments_cons. cbn zeta. rewrite Hj, (truthy_nonempty dir Hne).
    destruct (trimSlashes (prefix config)) as [base|] eqn:Eb;
      cbn [from_option Datatypes.id].
    - destruct (trimSlashes_Some _ _ Eb) as [Hbne Hbn].
      rewrite (normalizeSlashes_id base Hbn), (truthy_nonempty base Hbne). reflexivity.
    - reflexivity. }
  split; [exact Hcase|].
  split; [|split].
  - destruct (if prefixBearing config then _ else _) as [base|]; rewrite Hcase;
      [|exact Hne].
    intros E. apply append_empty in E as [_ E]. discriminate.
  - apply endsWith_chars.
    destruct (if prefixBearing config then _ else _) as [base|]; rewrite Hcase.
    + exists (chars base ++ chars "/"). now rewrite !chars_app, app_assoc.
    + now exists [].
  - apply normalizeSlashes_id. subst remotePrefix. unfold resolveRemotePrefix.
    destruct (_ || _ || _); apply joinSegments_normal.
Qed.

(** X3. The remote prefix of a normalised directory is the directory
    itself, preceded by the storage's own prefix and a slash when the
    provider is [s3], [oss] or [cos] and that prefix is more than slashes;
    the prefix of any other provider is not looked at.  The remote prefix
    is never empty, ends with the directory and is in normal form. *)
Theorem resolveRemotePrefix_directory (config : StorageConfig) (directory : option string) :
  let dir := normalizeDirectory directory in
  let remotePrefix := resolveRemotePrefix config dir in
  (prefixBearing config = false -> remotePrefix = dir) /\
  (prefixBearing config = true ->
   match prefix config with
   | None => remotePrefix = dir
   | Some p =>
       if truthyString (normalizeSlashes p)
       then remotePrefix = normalizeSlashes p +:+ "/" +:+ dir
       else remotePrefix = dir
   end) /\
  remotePrefix <> "" /\ endsWith remotePrefix dir = true /\
  startsWith remotePrefix "/" = false /\ endsWith remotePrefix "/" = false /\
  normalizeSlashes remotePrefix = remotePrefix.
Proof.
  intros dir remotePrefix.
  destruct (resolveRemotePrefix_facts config directory) as (Hcase & Hne & Hend & Hid).
  fold dir remotePrefix in Hcase, Hne, Hend, Hid.
  split; [intros Hp; now rewrite Hp in Hcase|].
  split.
  { intros Hp. rewrite Hp in Hcase. unfold trimSlashes in Hcase.
    destruct (prefix config) as [p|]; [|exact Hcase].
    destruct (truthyString p) eqn:Ep; cbn [negb] in Hcase.
    - destruct (normalizeSlashes p) eqn:En; simpl in *; exact Hcase.
    - apply truthyString_false in Ep. subst p. exact Hcase. }
  split; [exact Hne|]. split; [exact Hend|].
  pose proof (normalizeSlashes_normal remotePrefix) as Hn. rewrite Hid in Hn.
  destruct Hn as (_ & Hs & He). auto.
Qed.

(** ** Remote keys *)

Lemma normalizeSlashes_png (id : string) :
  normalizeSlashes (id +:+ ".png") = keyName id +:+ ".png".
Proof.
  apply chars_inj. rewrite normalizeSlashes_chars, !chars_app.
  unfold keyName. rewrite chars_of_chars, map_app.
  change (map unbackslash (chars ".png")) with (chars ".png").
  rewrite (dropWhile_app_keep isSlash _ (chars ".png") "."%char (chars "png"))
    by reflexivity.
  apply (dropWhileEnd_app_keep isSlash _ (chars ".png") "g"%char (chars ".pn"));
    reflexivity.
Qed.

Lemma keyName_plain (id : string) : plainId id -> keyName id = id.
Proof.
  intros [Hb Hs]. unfold keyName. rewrite unbackslash_id by exact Hb.
  rewrite dropWhile_id; [apply of_chars_chars|].
  intros x r E. destruct (isSlash x) eqn:Ex; [|reflexivity].
  apply isSlash_true in Ex. subst x.
  assert (startsWith id "/" = true); [|congruence].
  apply startsWith_chars. now exists r.
Qed.

Lemma remoteKeyOf_layout (cfg : ResolvedPluginConfig) (item : PhotoManifestItem) :
  remoteKeyOf cfg item =
    if truthyString (normalizeSlashes (remotePrefix cfg))
    then normalizeSlashes (remotePrefix cfg) +:+ "/" +:+ keyName (id item) +:+ ".png"
    else keyName (id item) +:+ ".png".
Proof.
  unfold remoteKeyOf. rewrite joinSegments_cons. cbn zeta.
  cbn [from_option Datatypes.id].
  rewrite joinSegments_single, normalizeSlashes_png.
  assert (Ht : truthyString (keyName (id item) +:+ ".png") = true).
  { now apply truthyString_append_r. }
  rewrite Ht. reflexivity.
Qed.

(** X4. Remote keys tell items apart: two items whose ids hold no
    backslash and do not start with a slash have the same remote key only
    if they have the same id. *)
Theorem remoteKeyOf_injective (cfg : ResolvedPluginConfig) (a b : PhotoManifestItem) :
  plainId (id a) -> plainId (id b) ->
  remoteKeyOf cfg a = remoteKeyOf cfg b -> id a = id b.
Proof.
  intros Ha Hb. rewrite !remoteKeyOf_layout, !keyName_plain by assumption.
  destruct (truthyString _).
  - intros E. apply String.app_inj in E. apply String.app_inj in E.
    now apply append_inv_tail in E.
  - apply append_inv_tail.
Qed.

Lemma remoteKeyOf_injective_witness :
  id (sampleItem "a") = id (set_ogImageUrl "https://cdn.example/a.png" (sampleItem "a")).
Proof.
  apply (remoteKeyOf_injective sampleConfig).
  - split; [vm_compute; intuition discriminate|reflexivity].
  - split; [vm_compute; intuition discriminate|reflexivity].
  - reflexivity.
Defined.

(** The ids [a] and [/a] are not both plain, and they share a key. *)
Example remoteKeyOf_leading_slash :
  remoteKeyOf sampleConfig (sampleItem "a") = ".afilmory/og-images/a.png" /\
  remoteKeyOf sampleConfig (sampleItem "/a") = ".afilmory/og-images/a.png".
Proof. split; reflexivity. Qed.

End PathSpec.

(* ===================================================================== *)
(** * Part VI: set-up and footprint of the hook                           *)
(* ===================================================================== *)

Module TraceFacts.
Import Layout OgImagePlugin PluginSetup Observations PluginSpec.
Local Open Scope string_scope.
Local Open Scope prog_scope.
Local Open Scope list_scope.

Section Always.
Context `{JsLib}.
Context {W : Type} (h : handler W).
Variable P : event -> Prop.

Lemma always_bind {A B} (p : prog A) (f : A -> prog B) :
  always P p -> (forall a, always P (f a)) -> always P (bind p f).
Proof.
  induction p as [a | X e k IH]; simpl; intros Hp Hf; [apply Hf|].
  intros x. destruct (Hp x) as [H1 H2]. split; [exact H1|]. now apply IH.
Qed.

Lemma always_bind_bind {A B C} (p : prog A) (f : A -> prog B) (g : B -> prog C) :
  always P p -> (forall a, always P (bind (f a) g)) -> always P (bind (bind p f) g).
Proof.
  induction p as [a | X e k IH]; simpl; intros Hp Hf; [apply Hf|].
  intros x. destruct (Hp x) as [H1 H2]. split; [exact H1|]. now apply IH.
Qed.

Lemma always_trigger {X} (e : eff X) :
  (forall x, P (event_of e x)) -> always P (trigger e).
Proof. intros He x. split; [apply He|exact I]. Qed.

Lemma always_run {A} (p : prog A) (w : W) :
  always P p -> forall ev, In ev (trace_of (run h p w)) -> P ev.
Proof.
  revert w. induction p as [a | X e k IH]; intros w Hp ev; simpl.
  - intros [].
  - destruct (h X e w) as [x w1] eqn:E. destruct (Hp x) as [H1 H2].
    specialize (IH x w1 H2 ev). unfold trace_of in *.
    destruct (run h (k x) w1) as [[a w2] t]. simpl in *.
    intros [<- | Hin]; auto.
Qed.

(** ** The events of the hook's parts *)

Lemma loadFontFileFrom_always (candidates : list path) :
  (forall p b, In p candidates -> P (EvStat p b)) ->
  (forall p r, In p candidates -> P (EvReadFile p r)) ->
  always P (loadFontFileFrom candidates).
Proof.
  induction candidates as [|c rest IH]; intros Hs Hr; simpl; [exact I|].
  intros isFile. split; [apply Hs; now left|].
  destruct isFile.
  - simpl. intros data. split; [apply Hr; now left|]. now destruct data.
  - apply IH; intros; [apply Hs|apply Hr]; now right.
Qed.

Lemma loadFonts_always :
  (forall p b, isFontPath p -> P (EvStat p b)) ->
  (forall p r, isFontPath p -> P (EvReadFile p r)) ->
  P (EvLog Main Warn FONTS_WARNING) ->
  always P loadFonts.
Proof.
  intros Hs Hr Hw. unfold loadFonts.
  apply always_bind.
  { apply loadFontFileFrom_always; intros; [apply Hs|apply Hr]; now left. }
  intros [geist|]; [|exact I].
  apply always_bind.
  { apply loadFontFileFrom_always; intros; [apply Hs|apply Hr]; now right. }
  intros [harmony|]; [|exact I].
  destruct geist, harmony; simpl; try exact I; intros []; (split; [exact Hw|exact I]).
Qed.

Lemma loadSiteMeta_always (options : OgImagePluginOptions) :
  (forall r, P (EvReadSiteConfig (opt_siteConfigPath options) r)) ->
  (forall m, P (EvLog Main Info m)) ->
  always P (loadSiteMeta options).
Proof.
  intros Hr Hl. unfold loadSiteMeta. simpl. intros parsed. split; [apply Hr|].
  destruct parsed; simpl; [exact I|]. intros []. split; [apply Hl|exact I].
Qed.

Lemma prepareRunState_always (options : OgImagePluginOptions) (state : PluginRunState) :
  (siteMeta state = None ->
   (forall r, P (EvReadSiteConfig (opt_siteConfigPath options) r)) /\
   (forall m, P (EvLog Main Info m))) ->
  (fonts state = None ->
   (forall p b, isFontPath p -> P (EvStat p b)) /\
   (forall p r, isFontPath p -> P (EvReadFile p r)) /\
   P (EvLog Main Warn FONTS_WARNING)) ->
  always P (prepareRunState options state).
Proof.
  intros Hm Hf. unfold prepareRunState.
  assert (Hfonts : forall st meta, fonts st = fonts state ->
            always P (match fonts st with
                      | Some _ => Ret (Ready st meta)
                      | None =>
                          let* loadedFonts := loadFonts in
                          match loadedFonts with
                          | Some loadedFonts =>
                              Ret (Ready (with_fonts loadedFonts st) meta)
                          | None => Ret (LoadRejected st)
                          end
                      end)).
  { intros st meta E. rewrite E. destruct (fonts state); [exact I|].
    destruct (Hf eq_refl) as (H1 & H2 & H3).
    apply always_bind; [now apply loadFonts_always|]. intros [lf|]; exact I. }
  destruct (siteMeta state) as [m|].
  - cbn [bind]. now apply Hfonts.
  - destruct (Hm eq_refl) as (H1 & H2).
    apply always_bind_bind; [now apply loadSiteMeta_always|].
    intros meta. cbn [bind]. now apply Hfonts.
Qed.

Lemma resolveThumbnailDataUrl_always (item : PhotoManifestItem)
    (pluginData : option ThumbnailPluginData) :
  (forall url r, P (EvFetch url r)) ->
  (forall rel r, P (EvReadFile (PublicFile rel) r)) ->
  (forall l m, P (EvLog Thumbnail l m)) ->
  always P (resolveThumbnailDataUrl item pluginData).
Proof.
  intros Hf Hr Hl. unfold resolveThumbnailDataUrl.
  destruct (pluginData ≫= buffer); [exact I|].
  destruct (orString _ _) as [url|]; [|exact I].
  destruct (truthyString url); cbn [negb]; [|exact I].
  apply always_bind.
  - destruct (isAbsoluteHttpUrl url); [|exact I]. simpl.
    intros response. split; [apply Hf|].
    destruct response as [response|]; simpl.
    + destruct (resp_ok response); [|exact I].
      destruct (resp_body response); simpl; [exact I|].
      intros []. split; [apply Hl|exact I].
    + intros []. split; [apply Hl|exact I].
  - intros [dataUrl|]; [exact I|]. simpl. intros localBuffer. split; [apply Hr|].
    destruct localBuffer; simpl; [exact I|]. intros []. split; [apply Hl|exact I].
Qed.

Lemma publish_always (cfg : ResolvedPluginConfig) (sm : StorageManager)
    (payload : Payload) (key : string) (png : bytes)
    (state : PluginRunState) (container : gmap string PluginRunState)
    (item : PhotoManifestItem) :
  (forall ok, P (EvUpload sm key png (contentType cfg) ok)) ->
  (forall r, P (EvPublicUrl sm key r)) ->
  (forall m, P (EvLog Main Error m)) ->
  always P (publish cfg sm payload key png state container item).
Proof.
  intros Hu Hp Hl. unfold publish.
  apply always_bind.
  - destruct (negb _ || _ || _); [|exact I]. simpl.
    intros ok. split; [apply Hu|].
    destruct ok; simpl; [exact I|]. intros []. split; [apply Hl|exact I].
  - intros [state1|]; [|exact I].
    destruct (truthyOptString _); [exact I|]. simpl.
    intros remoteUrl. split; [apply Hp|].
    destruct remoteUrl; simpl; [exact I|]. intros []. split; [apply Hl|exact I].
Qed.

Lemma processItem_always (cfg : ResolvedPluginConfig) (sm : StorageManager)
    (payload : Payload) (fonts : list FontEntry) (meta : SiteMeta)
    (state : PluginRunState) (container : gmap string PluginRunState)
    (item : PhotoManifestItem) :
  (forall url r, P (EvFetch url r)) ->
  (forall rel r, P (EvReadFile (PublicFile rel) r)) ->
  (forall l m, P (EvLog Thumbnail l m)) ->
  (forall thumbnailSrc r, P (EvRender (templateOf item meta thumbnailSrc) fonts r)) ->
  (forall png ok, P (EvUpload sm (remoteKeyOf cfg item) png (contentType cfg) ok)) ->
  (forall r, P (EvPublicUrl sm (remoteKeyOf cfg item) r)) ->
  (forall m, P (EvLog Main Error m)) ->
  (forall m, P (EvLog Main Info m)) ->
  always P (processItem cfg sm payload fonts meta state container item).
Proof.
  intros Hf Hr Hl Hren Hu Hp He Hi. unfold processItem.
  destruct (shouldRenderOf payload); cbn [negb].
  - apply always_bind; [now apply resolveThumbnailDataUrl_always|].
    intros thumbnailSrc. apply always_bind.
    + apply always_trigger. intros png. apply Hren.
    + intros [png|].
      * apply publish_always; auto.
      * simpl. intros []. split; [apply He|exact I].
  - unfold resolveExisting. simpl. intros remoteUrl.
    split; [apply Hp|].
    destruct remoteUrl; simpl; [exact I|]. intros []. split; [apply Hi|exact I].
Qed.

End Always.

Section HookEvents.
Context `{JsLib}.
Context {W : Type} (h : handler W).

Lemma afterPhotoProcess_always (plugin : PluginInstance) (payload : Payload)
    (runShared : gmap string PluginRunState) :
  always (hookEvent plugin payload) (afterPhotoProcess plugin payload runShared).
Proof.
  unfold afterPhotoProcess.
  destruct (resolved plugin) as [cfg|] eqn:Ec; [|exact I].
  destruct (enabled cfg); cbn [negb]; [|exact I].
  destruct (result_item payload) as [item|] eqn:Ei; [|exact I].
  destruct (storageManagerOf plugin cfg) as [sm|] eqn:Es.
  - destruct (getOrCreateRunState runShared) as [state container].
    apply always_bind.
    { apply prepareRunState_always; intros _; repeat split; intros; simpl; auto;
        try (destruct p; simpl; now auto). }
    intros [st|st meta]; [exact I|].
    destruct (fonts st) as [f|]; [|exact I].
    apply processItem_always; intros; simpl; eauto 10.
  - simpl. intros []. split; [|exact I]. right. split; [reflexivity|]. now exists cfg.
Qed.

(** Every event of a hook call is within the hook's footprint. *)
Lemma hook_footprint (plugin : PluginInstance) (payload : Payload)
    (runShared : gmap string PluginRunState) (w : W) (ev : event) :
  In ev (trace_of (run h (afterPhotoProcess plugin payload runShared) w)) ->
  hookEvent plugin payload ev.
Proof. apply always_run, afterPhotoProcess_always. Qed.

Lemma hook_disabled (plugin : PluginInstance) (cfg : ResolvedPluginConfig)
    (payload : Payload) (runShared : gmap string PluginRunState) (w : W) :
  resolved plugin = Some cfg -> enabled cfg = false ->
  run h (afterPhotoProcess plugin payload runShared) w = (idle payload runShared, w, []).
Proof. intros Hc He. unfold afterPhotoProcess. rewrite Hc, He. reflexivity. Qed.

End HookEvents.
End TraceFacts.

Module SetupSpec.
Import Layout OgImagePlugin PluginSetup Observations StringFacts PathSpec PluginSpec
  TraceFacts.
Local Open Scope string_scope.
Local Open Scope prog_scope.
Local Open Scope list_scope.

Section Init.
Context `{JsLib}.
Context {W : Type} (h : handler W).

Lemma onInit_resolved (opts : InitOptions) (userStorage : option StorageConfig)
    (builderStorage : StorageConfig) :
  let init := onInit opts userStorage builderStorage in
  exists cfg,
    resolved (instance init) = Some cfg /\
    options (instance init) = hookOptions opts /\
    enabled cfg = willEnable opts userStorage builderStorage /\
    directory cfg = normalizeDirectory (opt_directory opts) /\
    contentType cfg = default DEFAULT_CONTENT_TYPE (opt_contentType opts) /\
    (enabled cfg = true ->
     remotePrefix cfg =
       resolveRemotePrefix (effectiveStorage opts userStorage builderStorage)
         (normalizeDirectory (opt_directory opts)) /\
     storageManagerOf (instance init) cfg = Some (expectedManager opts) /\
     resolvedStorageConfig init = Some (effectiveStorage opts userStorage builderStorage) /\
     initEffects init =
       match opt_storageConfig opts with
       | Some config => [NewStorageManager config]
       | None => [AddExcludePrefix (remotePrefix cfg)]
       end) /\
    (enabled cfg = false ->
     remotePrefix cfg = "" /\ resolvedStorageConfig init = None /\
     initEffects init =
       if default true (enable opts) then [WarnUnsupported EAGLE_WARNING] else []).
Proof.
  cbn zeta. unfold onInit, willEnable, effectiveStorage, expectedManager.
  destruct (default true (enable opts)); cbn [negb andb].
  - destruct (String.eqb _ "eagle"); cbn [negb].
    + eexists. repeat (split; [reflexivity|]). split; [discriminate|]. intros _.
      repeat split.
    + eexists. repeat (split; [reflexivity|]). split; [|discriminate]. intros _.
      cbn [instance resolved remotePrefix resolvedStorageConfig initEffects].
      split; [reflexivity|].
      unfold storageManagerOf. cbn [useDefaultStorage externalStorageManager].
      destruct (opt_storageConfig opts); repeat split.
  - eexists. repeat (split; [reflexivity|]). split; [discriminate|]. intros _.
    repeat split.
Qed.

(** X5. A plugin that is switched off, or set up on the [eagle] storage
    that it does not support, does nothing: every call of the hook returns
    at once, with no effect, the item and the run's container untouched.
    [onInit] itself then only warns, and only in the second case; before
    [onInit] ran the hook is as idle. *)
Theorem disabled_plugin_is_inert (opts : InitOptions) (userStorage : option StorageConfig)
    (builderStorage : StorageConfig) (payload : Payload)
    (runShared : gmap string PluginRunState) (w : W) :
  enable opts = Some false \/
  provider (effectiveStorage opts userStorage builderStorage) = "eagle" ->
  let init := onInit opts userStorage builderStorage in
  run h (afterPhotoProcess (instance init) payload runShared) w
    = (idle payload runShared, w, []) /\
  (forall e, In e (initEffects init) -> e = WarnUnsupported EAGLE_WARNING) /\
  (In (WarnUnsupported EAGLE_WARNING) (initEffects init) <-> enable opts <> Some false) /\
  run h (afterPhotoProcess (ogImagePlugin opts) payload runShared) w
    = (idle payload runShared, w, []).
Proof.
  intros Hoff init.
  destruct (onInit_resolved opts userStorage builderStorage)
    as (cfg & Hc & _ & He & _ & _ & _ & Hd).
  fold init in Hc, Hd.
  assert (Hen : enabled cfg = false).
  { rewrite He. unfold willEnable. destruct Hoff as [-> | ->]; [reflexivity|].
    now rewrite andb_false_r. }
  destruct (Hd Hen) as (_ & _ & Heff). rewrite Heff.
  split; [now apply hook_disabled with cfg|].
  split; [|split; [|reflexivity]].
  - destruct (default true (enable opts)); intros e Hin; simpl in Hin; intuition.
  - destruct (enable opts) as [[|]|] eqn:E; cbn [from_option Datatypes.id].
    + split; [discriminate|]. intros _. now left.
    + split; [intros []|]. intros Hne. now contradiction Hne.
    + split; [discriminate|]. intros _. now left.
Qed.

(** X6. After [onInit] the hook always finds its storage manager: the
    warning of the missing storage manager is never logged, and every
    upload and every URL resolution goes to the storage manager made for
    [options.storageConfig] when that option is given, and to the
    builder's own otherwise. *)
Theorem initialized_plugin_has_storage_manager (opts : InitOptions)
    (userStorage : option StorageConfig) (builderStorage : StorageConfig)
    (payload : Payload) (runShared : gmap string PluginRunState) (w : W) :
  let init := onInit opts userStorage builderStorage in
  let t := trace_of (run h (afterPhotoProcess (instance init) payload runShared) w) in
  ~ In (EvLog Main Warn STORAGE_WARNING) t /\
  (forall sm key body ct ok, In (EvUpload sm key body ct ok) t ->
     sm = expectedManager opts /\
     ct = default DEFAULT_CONTENT_TYPE (opt_contentType opts)) /\
  (forall sm key r, In (EvPublicUrl sm key r) t -> sm = expectedManager opts) /\
  (forall config, opt_storageConfig opts = Some config ->
     willEnable opts userStorage builderStorage = true ->
     initEffects init = [NewStorageManager config]).
Proof.
  intros init t.
  destruct (onInit_resolved opts userStorage builderStorage)
    as (cfg & Hc & _ & He & _ & Hct & Hon & Hoff).
  fold init in Hc, Hon, Hoff.
  destruct (enabled cfg) eqn:Een.
  - destruct (Hon eq_refl) as (_ & Hsm & _ & Heff).
    split; [|split; [|split]].
    + intros Hin. apply (hook_footprint h) in Hin. simpl in Hin.
      destruct Hin as [E | (_ & cfg' & Hc' & Hn)]; [discriminate E|].
      congruence.
    + intros sm key body ct ok Hin. apply (hook_footprint h) in Hin.
      destruct Hin as (cfg' & item & Hc' & _ & Hs' & _ & ->).
      split; congruence.
    + intros sm key r Hin. apply (hook_footprint h) in Hin.
      destruct Hin as (cfg' & item & Hc' & _ & Hs' & _). congruence.
    + intros config Ho _. now rewrite Heff, Ho.
  - assert (Ht : t = []).
    { subst t. now rewrite (hook_disabled h _ cfg). }
    rewrite Ht. split; [intros []|]. split; [intros ? ? ? ? ? []|].
    split; [intros ? ? ? []|]. intros config _ Hw. congruence.
Qed.


End Init.

Lemma disabled_plugin_is_inert_witness :
  run (scenarioEnv allGood)
    (afterPhotoProcess (H := sampleLib)
       (instance (onInit disabledOptions None localStorage))
       (samplePayload "a" "new" false) sampleShared) tt
  = (idle (samplePayload "a" "new" false) sampleShared, tt, []).
Proof.
  apply (disabled_plugin_is_inert (H := sampleLib) (scenarioEnv allGood)
           disabledOptions None localStorage (samplePayload "a" "new" false)
           sampleShared tt).
  left. reflexivity.
Defined.

(** With the defaults and an S3 storage whose prefix is [photos/], the
    images go under [photos/.afilmory/og-images], which is excluded from
    the builder's storage manager. *)
Example onInit_s3 :
  let init := onInit {| enable := None; opt_directory := None;
                        opt_storageConfig := None; opt_contentType := None;
                        hookOptions := options samplePlugin |}
                None {| provider := "s3"; prefix := Some "photos/" |} in
  (resolved (instance init) ≫= fun cfg => Some (remotePrefix cfg, enabled cfg))
    = Some ("photos/.afilmory/og-images", true) /\
  initEffects init = [AddExcludePrefix "photos/.afilmory/og-images"].
Proof. split; reflexivity. Qed.

End SetupSpec.

(* ===================================================================== *)
(** * Part VII: the hook, call by call and over a run                     *)
(* ===================================================================== *)

Module HookSpec.
Import Layout OgImagePlugin PluginSetup Observations StringFacts PluginSpec TraceFacts.
Local Open Scope string_scope.
Local Open Scope prog_scope.
Local Open Scope list_scope.

Ltac in_solve :=
  repeat (rewrite ?in_app_iff; simpl); auto 10.

Ltac count_lia :=
  unfold count in *; rewrite ?List.filter_app, ?length_app in *; simpl; lia.

Section Hook.
Context `{JsLib}.
Context {W : Type} (h : handler W).

(** ** Counting events *)

Lemma count_zero (f : event -> bool) (t : list event) :
  (forall ev, In ev t -> f ev = false) -> count f t = 0%nat.
Proof.
  unfold count. induction t as [|ev t IH]; intros Hf; [reflexivity|].
  simpl. rewrite (Hf ev) by now left. apply IH. intros e He. apply Hf. now right.
Qed.

Lemma tail_counts (t : list event) :
  (forall ev, In ev t -> tailEvent ev) ->
  count isStat t = 0%nat /\ count isFontRead t = 0%nat /\
  count isReadSiteConfig t = 0%nat /\ count isFontsWarning t = 0%nat.
Proof.
  intros Ht. repeat split; apply count_zero; intros ev Hin;
    destruct (Ht ev Hin) as (? & ? & ? & ?); assumption.
Qed.

(** ** The ways a call of the hook goes *)

Lemma hook_cases (plugin : PluginInstance) (payload : Payload)
    (runShared : gmap string PluginRunState) (w : W) r w' t :
  run h (afterPhotoProcess plugin payload runShared) w = (r, w', t) ->
  (r = idle payload runShared /\ (t = [] \/ t = [EvLog Main Warn STORAGE_WARNING])) \/
  exists cfg item sm state container prepared w1 t0,
    resolved plugin = Some cfg /\ enabled cfg = true /\
    result_item payload = Some item /\ storageManagerOf plugin cfg = Some sm /\
    getOrCreateRunState runShared = (state, container) /\
    run h (prepareRunState (options plugin) state) w = (prepared, w1, t0) /\
    match prepared with
    | LoadRejected st =>
        r = {| hr_shared := store st container; hr_item := Some item;
               hr_outcome := Rejected |} /\ t = t0
    | Ready st meta =>
        match fonts st with
        | None =>
            r = {| hr_shared := store st container; hr_item := Some item;
                   hr_outcome := Resolved |} /\ t = t0
        | Some f =>
            exists t1,
              run h (processItem cfg sm payload f meta st container item) w1
                = (r, w', t1) /\
              t = t0 ++ t1
        end
    end.
Proof.
  unfold afterPhotoProcess, idle.
  destruct (resolved plugin) as [cfg|] eqn:Er.
  2:{ simpl. intros [= <- <- <-]. left. auto. }
  destruct (enabled cfg) eqn:Ee; cbn [negb].
  2:{ simpl. intros [= <- <- <-]. left. auto. }
  destruct (result_item payload) as [item|] eqn:Ei.
  2:{ simpl. intros [= <- <- <-]. left. auto. }
  destruct (storageManagerOf plugin cfg) as [sm|] eqn:Es.
  2:{ simpl. destruct (h unit _ w) as [[] w1]. intros [= <- <- <-]. left. auto. }
  destruct (getOrCreateRunState runShared) as [state container] eqn:Eg.
  rewrite run_bind.
  destruct (run h (prepareRunState (options plugin) state) w)
    as [[prepared w1] t0] eqn:E0.
  intros E. right. exists cfg, item, sm, state, container, prepared, w1, t0.
  repeat (split; [first [reflexivity|assumption]|]).
  destruct prepared as [st|st meta].
  - revert E. simpl. intros [= <- <- <-]. now rewrite app_nil_r.
  - destruct (fonts st) as [f|].
    + destruct (run h (processItem cfg sm payload f meta st container item) w1)
        as [[r1 w2] t1] eqn:E1.
      revert E. intros [= <- <- <-]. now exists t1.
    + revert E. simpl. intros [= <- <- <-]. now rewrite app_nil_r.
Qed.

(** ** Site metadata *)

Lemma loadSiteMeta_detail (options : OgImagePluginOptions) (w : W) m w' t :
  run h (loadSiteMeta options) w = (m, w', t) ->
  (exists parsed, t = [EvReadSiteConfig (opt_siteConfigPath options) (Some parsed)] \/
                  exists message,
                    t = [EvReadSiteConfig (opt_siteConfigPath options) None;
                         EvLog Main Info message]) /\
  truthyString (meta_siteName m) = true /\
  (exists c, meta_accentColor m = Some c /\ truthyString c = true).
Proof.
  unfold loadSiteMeta. simpl.
  set (fbName := default DEFAULT_SITE_NAME
                   (orString (trimmed (opt_siteName options)) (Some DEFAULT_SITE_NAME))).
  set (fbColor := orString (trimmed (opt_accentColor options))
                    (Some DEFAULT_ACCENT_COLOR)).
  assert (Hn : truthyString fbName = true).
  { subst fbName. destruct (opt_siteName options) as [s|]; simpl; [|reflexivity].
    destruct (truthyString (trim s)) eqn:E; simpl; [exact E|reflexivity]. }
  assert (Hc : exists c, fbColor = Some c /\ truthyString c = true).
  { subst fbColor. destruct (opt_accentColor options) as [s|]; simpl; [|eauto].
    destruct (truthyString (trim s)) eqn:E; simpl; eauto. }
  destruct (h _ (ReadSiteConfig (opt_siteConfigPath options)) w) as [[parsed|] w1];
    simpl.
  - intros [= <- <- <-]. split; [exists parsed; now left|].
    cbn [meta_siteName meta_accentColor]. split.
    + destruct (json_name parsed) as [s|]; simpl.
      * destruct (truthyString (trim s)) eqn:E; simpl; [exact E|].
        destruct (json_title parsed) as [s'|]; simpl; [|exact Hn].
        destruct (truthyString (trim s')) eqn:E'; simpl; [exact E'|exact Hn].
      * destruct (json_title parsed) as [s'|]; simpl; [|exact Hn].
        destruct (truthyString (trim s')) eqn:E'; simpl; [exact E'|exact Hn].
    + destruct (json_accentColor parsed) as [s|]; simpl; [|exact Hc].
      destruct (truthyString (trim s)) eqn:E; simpl; eauto.
  - destruct (h unit _ w1) as [[] w2]. intros [= <- <- <-].
    split; [|auto].
    exists {| json_name := None; json_title := None; json_accentColor := None |}.
    right. eauto.
Qed.

(** X8. [loadSiteMeta] reads the site configuration once, from the
    configured path, and never fails.  The site name and the accent colour
    it returns are never empty.  A name (an accent colour) of the
    configuration that is not blank wins, trimmed; when the configuration
    cannot be read the options decide, then the defaults, and one line is
    logged. *)
Theorem loadSiteMeta_never_empty (options : OgImagePluginOptions) (w : W) :
  let out := run h (loadSiteMeta options) w in
  let meta := result_of out in
  truthyString (meta_siteName meta) = true /\
  (exists c, meta_accentColor meta = Some c /\ truthyString c = true) /\
  ((exists parsed,
      trace_of out = [EvReadSiteConfig (opt_siteConfigPath options) (Some parsed)] /\
      (forall name, json_name parsed = Some name -> truthyString (trim name) = true ->
         meta_siteName meta = trim name) /\
      (forall c, json_accentColor parsed = Some c -> truthyString (trim c) = true ->
         meta_accentColor meta = Some (trim c))) \/
   (exists message,
      trace_of out = [EvReadSiteConfig (opt_siteConfigPath options) None;
                      EvLog Main Info message] /\
      (forall name, opt_siteName options = Some name ->
         truthyString (trim name) = true -> meta_siteName meta = trim name) /\
      (truthyOptString (trimmed (opt_siteName options)) = false ->
       meta_siteName meta = DEFAULT_SITE_NAME))).
Proof.
  intros out meta. subst meta out. unfold result_of, trace_of.
  destruct (run h (loadSiteMeta options) w) as [[m w'] t] eqn:E. cbn [fst snd].
  destruct (loadSiteMeta_detail _ _ _ _ _ E) as (_ & Hn & Hc).
  split; [exact Hn|]. split; [exact Hc|].
  revert E. unfold loadSiteMeta. simpl.
  destruct (h _ (ReadSiteConfig (opt_siteConfigPath options)) w) as [[parsed|] w1];
    simpl.
  - intros [= <- <- <-]. left. exists parsed. split; [reflexivity|].
    cbn [meta_siteName meta_accentColor]. split.
    + intros name -> Ht. simpl. now rewrite Ht.
    + intros c -> Ht. simpl. now rewrite Ht.
  - destruct (h unit _ w1) as [[] w2]. intros [= <- <- <-]. right.
    eexists. split; [reflexivity|]. cbn [meta_siteName]. split.
    + intros name -> Ht. simpl. now rewrite Ht.
    + destruct (opt_siteName options) as [s|]; simpl; [|reflexivity].
      now intros ->.
Qed.

(** ** Fonts *)

Lemma loadFontFileFrom_shape (candidates : list path) (w : W) r w' t :
  run h (loadFontFileFrom candidates) w = (r, w', t) ->
  (r = Some None /\ t = statMisses candidates) \/
  (exists before p after data,
     candidates = before ++ p :: after /\
     t = statMisses before ++ [EvStat p true; EvReadFile p data] /\
     r = match data with Some buffer => Some (Some buffer) | None => None end).
Proof.
  revert w r w' t. induction candidates as [|c rest IH]; intros w r w' t; simpl.
  - intros [= <- <- <-]. now left.
  - destruct (h bool (Stat c) w) as [isFile w1] eqn:E1. destruct isFile.
    + simpl. destruct (h _ (ReadFile c) w1) as [data w2] eqn:E2.
      intros E. right. exists [], c, rest, data. split; [reflexivity|].
      destruct data; revert E; simpl; intros [= <- <- <-]; auto.
    + destruct (run h (loadFontFileFrom rest) w1) as [[r1 w2] t1] eqn:E2.
      intros [= <- <- <-].
      destruct (IH _ _ _ _ E2)
        as [[-> ->] | (before & p & after & data & -> & -> & ->)].
      * now left.
      * right. exists (c :: before), p, after, data. auto.
Qed.

(** X9. [loadFontFile] probes its three candidate paths in order and
    stops at the first one that is a file: that file is read, with
    whatever outcome, and no later candidate is looked at.  Without such a
    path all three are probed and the result is [null]. *)
Theorem loadFontFile_first_match (fileName : string) (w : W) :
  let out := run h (loadFontFile fileName) w in
  length (fontCandidates fileName) = 3%nat /\
  ((result_of out = Some None /\
    trace_of out = statMisses (fontCandidates fileName)) \/
   (exists before p after data,
      fontCandidates fileName = before ++ p :: after /\
      trace_of out = statMisses before ++ [EvStat p true; EvReadFile p data] /\
      result_of out =
        match data with Some buffer => Some (Some buffer) | None => None end)).
Proof.
  intros out. split; [reflexivity|]. subst out. unfold result_of, trace_of.
  destruct (run h (loadFontFile fileName) w) as [[r w'] t] eqn:E. cbn [fst snd].
  exact (loadFontFileFrom_shape _ _ _ _ _ E).
Qed.

Lemma statMisses_In (candidates : list path) (ev : event) :
  In ev (statMisses candidates) -> exists p, In p candidates /\ ev = EvStat p false.
Proof.
  unfold statMisses. intros Hin. apply in_map_iff in Hin as (p & <- & Hp). eauto.
Qed.

Lemma loadFontFileFrom_events (candidates : list path) (w : W) r w' t :
  run h (loadFontFileFrom candidates) w = (r, w', t) ->
  forall ev, In ev t ->
    (exists p b, ev = EvStat p b /\ In p candidates) \/
    (exists p data, ev = EvReadFile p data /\ In p candidates /\
                    r = match data with
                        | Some buffer => Some (Some buffer)
                        | None => None
                        end).
Proof.
  intros E ev Hin.
  destruct (loadFontFileFrom_shape _ _ _ _ _ E)
    as [[-> ->] | (before & p & after & data & -> & -> & ->)].
  - apply statMisses_In in Hin as (p & Hp & ->). left. eauto.
  - apply in_app_or in Hin as [Hin | [<- | [<- | []]]].
    + apply statMisses_In in Hin as (q & Hq & ->). left. exists q, false.
      split; [reflexivity|]. apply in_or_app. now left.
    + left. exists p, true. split; [reflexivity|]. apply in_or_app. right. now left.
    + right. exists p, data. split; [reflexivity|]. split; [|reflexivity].
      apply in_or_app. right. now left.
Qed.

Lemma loadFontFile_result (fileName : string) (w : W) r w' t :
  run h (loadFontFile fileName) w = (r, w', t) ->
  count isFontsWarning t = 0%nat /\ count isReadSiteConfig t = 0%nat /\
  match r with
  | Some (Some buffer) =>
      (exists p, In p (fontCandidates fileName) /\ In (EvReadFile p (Some buffer)) t) /\
      (forall p, ~ In (EvReadFile p None) t)
  | Some None => fontAbsent fileName t /\ (forall p, ~ In (EvReadFile p None) t)
  | None =>
      exists p, In p (fontCandidates fileName) /\ In (EvStat p true) t /\
                In (EvReadFile p None) t
  end.
Proof.
  intros E. pose proof (loadFontFileFrom_events _ _ _ _ _ E) as Hev.
  split; [|split].
  - apply count_zero. intros ev Hin.
    destruct (Hev ev Hin) as [(p & b & -> & _) | (p & d & -> & _)]; reflexivity.
  - apply count_zero. intros ev Hin.
    destruct (Hev ev Hin) as [(p & b & -> & _) | (p & d & -> & _)]; reflexivity.
  - destruct (loadFontFileFrom_shape _ _ _ _ _ E)
      as [[-> ->] | (before & p & after & data & Hc & -> & ->)].
    + split.
      * intros p Hp. unfold statMisses. apply in_map_iff. now exists p.
      * intros p Hin. apply statMisses_In in Hin as (q & _ & [=]).
    + assert (Hp : In p (fontCandidates fileName)).
      { unfold loadFontFile in *. rewrite Hc. apply in_or_app. right. now left. }
      destruct data as [buffer|].
      * split.
        -- exists p. split; [exact Hp|]. apply in_or_app. right. right. now left.
        -- intros q Hin. apply in_app_or in Hin as [Hin | [[=] | [[=] | []]]].
           apply statMisses_In in Hin as (q' & _ & [=]).
      * exists p. split; [exact Hp|].
        split; apply in_or_app; right; [now left|right; now left].
Qed.

Lemma loadFonts_detail (w : W) r w' t :
  run h loadFonts w = (r, w', t) ->
  count isReadSiteConfig t = 0%nat /\
  match r with
  | Some (Some fonts) =>
      (exists geist harmony pg ph,
         fonts = fontEntries geist harmony /\
         In pg (fontCandidates GEIST_FILE) /\ In (EvReadFile pg (Some geist)) t /\
         In ph (fontCandidates HARMONY_FILE) /\ In (EvReadFile ph (Some harmony)) t) /\
      count isFontsWarning t = 0%nat /\ (forall p, ~ In (EvReadFile p None) t)
  | Some None =>
      (exists t1, t = t1 ++ [EvLog Main Warn FONTS_WARNING] /\
                  count isFontsWarning t1 = 0%nat) /\
      (fontAbsent GEIST_FILE t \/ fontAbsent HARMONY_FILE t) /\
      (forall p, ~ In (EvReadFile p None) t)
  | None => fontUnreadable t /\ count isFontsWarning t = 0%nat
  end.
Proof.
  unfold loadFonts. rewrite run_bind.
  destruct (run h (loadFontFile GEIST_FILE) w) as [[g w1] t1] eqn:E1.
  destruct (loadFontFile_result _ _ _ _ _ E1) as (W1 & S1 & R1).
  destruct g as [g|]; cbn beta iota.
  2:{ simpl. intros [= <- <- <-]. rewrite app_nil_r. split; [exact S1|].
      split; [|exact W1]. destruct R1 as (p & ? & ? & ?). exists GEIST_FILE, p. auto. }
  rewrite run_bind.
  destruct (run h (loadFontFile HARMONY_FILE) w1) as [[hm w2] t2] eqn:E2.
  destruct (loadFontFile_result _ _ _ _ _ E2) as (W2 & S2 & R2).
  destruct hm as [hm|]; cbn beta iota.
  2:{ simpl. intros [= <- <- <-]. rewrite app_nil_r.
      split; [rewrite count_app; lia|].
      split; [|rewrite count_app; lia].
      apply fontUnreadable_app_r. destruct R2 as (p & ? & ? & ?).
      exists HARMONY_FILE, p. auto. }
  assert (Hnone : forall p, ~ In (EvReadFile p None) (t1 ++ t2)).
  { intros p Hin. apply in_app_or in Hin as [Hin|Hin].
    - destruct g; destruct R1 as [_ R1]; exact (R1 p Hin).
    - destruct hm; destruct R2 as [_ R2]; exact (R2 p Hin). }
  destruct g as [g|], hm as [hm|]; simpl;
    try destruct (h unit (Log Main Warn FONTS_WARNING) w2) as [[] w3];
    intros [= <- <- <-].
  - rewrite app_nil_r. split; [rewrite count_app; lia|].
    destruct R1 as [(pg & Hpg & Hg) _], R2 as [(ph & Hph & Hh) _].
    split; [|split; [rewrite count_app; lia|exact Hnone]].
    exists g, hm, pg, ph. split; [reflexivity|].
    repeat split; auto; apply in_or_app; auto.
  - split; [count_lia|].
    split; [exists (t1 ++ t2); split; [now rewrite app_assoc|rewrite count_app; lia]|].
    split.
    + right. intros p Hp. apply in_or_app. right. apply in_or_app. left.
      now apply (proj1 R2).
    + intros p Hin. rewrite app_assoc in Hin. apply in_app_or in Hin as [Hin|[[=]|[]]].
      exact (Hnone p Hin).
  - split; [count_lia|].
    split; [exists (t1 ++ t2); split; [now rewrite app_assoc|rewrite count_app; lia]|].
    split.
    + left. intros p Hp. apply in_or_app. left. now apply (proj1 R1).
    + intros p Hin. rewrite app_assoc in Hin. apply in_app_or in Hin as [Hin|[[=]|[]]].
      exact (Hnone p Hin).
  - split; [count_lia|].
    split; [exists (t1 ++ t2); split; [now rewrite app_assoc|rewrite count_app; lia]|].
    split.
    + left. intros p Hp. apply in_or_app. left. now apply (proj1 R1).
    + intros p Hin. rewrite app_assoc in Hin. apply in_app_or in Hin as [Hin|[[=]|[]]].
      exact (Hnone p Hin).
Qed.

(** X10. [loadFonts] has three outcomes.  It returns the two fonts, Geist
    first, each with the bytes read from one of its candidate paths, and
    then it does not warn.  Or it returns [null]: then one of the two files
    was found at none of its paths, and the warning is the last thing it
    does, once.  Or it fails, on a font file that [stat] found and that
    could not be read, without a warning. *)
Theorem loadFonts_outcomes (w : W) :
  let out := run h loadFonts w in
  let t := trace_of out in
  match result_of out with
  | Some (Some fonts) =>
      (exists geist harmony pg ph,
         fonts = fontEntries geist harmony /\
         In pg (fontCandidates GEIST_FILE) /\ In (EvReadFile pg (Some geist)) t /\
         In ph (fontCandidates HARMONY_FILE) /\ In (EvReadFile ph (Some harmony)) t) /\
      count isFontsWarning t = 0%nat
  | Some None =>
      (exists t1, t = t1 ++ [EvLog Main Warn FONTS_WARNING] /\
                  count isFontsWarning t1 = 0%nat) /\
      (fontAbsent GEIST_FILE t \/ fontAbsent HARMONY_FILE t)
  | None => fontUnreadable t /\ count isFontsWarning t = 0%nat
  end.
Proof.
  intros out t. subst t out. unfold result_of, trace_of.
  destruct (run h loadFonts w) as [[r w'] t] eqn:E. cbn [fst snd].
  destruct (loadFonts_detail _ _ _ _ E) as (_ & D).
  destruct r as [[f|]|]; intuition.
Qed.

(** ** The run state after [prepareRunState] *)

Lemma prepareRunState_detail (options : OgImagePluginOptions)
    (state : PluginRunState) (w : W) prepared w1 t0 :
  run h (prepareRunState options state) w = (prepared, w1, t0) ->
  let st := stateOf prepared in
  uploaded st = uploaded state /\ urlCache st = urlCache state /\
  count isReadSiteConfig t0 = siteConfigReads state /\
  (exists meta, siteMeta st = Some meta /\
     (forall m, siteMeta state = Some m -> meta = m) /\
     (forall st' meta', prepared = Ready st' meta' -> meta' = meta)) /\
  (forall f, fonts state = Some f ->
     fonts st = Some f /\
     count isStat t0 = 0%nat /\ count isFontRead t0 = 0%nat /\
     count isFontsWarning t0 = 0%nat) /\
  match prepared with
  | Ready _ _ => forall p, ~ In (EvReadFile p None) t0
  | LoadRejected _ => fontUnreadable t0
  end.
Proof.
  unfold prepareRunState. rewrite run_bind.
  destruct (run h (match siteMeta state with
                   | Some meta => Ret (state, meta)
                   | None => let* meta := loadSiteMeta options in
                             Ret (with_siteMeta meta state, meta)
                   end) w) as [[[st1 meta] wa] ta] eqn:E1.
  assert (H1 : uploaded st1 = uploaded state /\ urlCache st1 = urlCache state /\
               fonts st1 = fonts state /\ siteMeta st1 = Some meta /\
               (forall m, siteMeta state = Some m -> meta = m) /\
               count isReadSiteConfig ta = siteConfigReads state /\
               count isStat ta = 0%nat /\ count isFontRead ta = 0%nat /\
               count isFontsWarning ta = 0%nat /\
               (forall p r, ~ In (EvReadFile p r) ta)).
  { unfold siteConfigReads. destruct (siteMeta state) as [m|] eqn:Em.
    - simpl in E1. injection E1 as <- <- <- <-.
      repeat split; auto; try (intros; congruence); intros ? ? [].
    - rewrite run_bind in E1.
      destruct (run h (loadSiteMeta options) w) as [[m w0] t00] eqn:E0.
      simpl in E1. injection E1 as <- <- <- <-. rewrite app_nil_r.
      destruct (loadSiteMeta_detail _ _ _ _ _ E0) as ((parsed & Ht) & Hn & Hc).
      destruct Ht as [-> | (msg & ->)];
        repeat split; auto; try discriminate;
        intros ? ? Hin; simpl in Hin; intuition discriminate. }
  destruct H1 as (A1 & A2 & A3 & A4 & A5 & A7 & A8 & A9 & A10 & A11).
  destruct (fonts st1) as [f|] eqn:Ef.
  - simpl. intros [= <- <- <-]. rewrite app_nil_r. cbn [stateOf].
    split; [exact A1|]. split; [exact A2|]. split; [exact A7|].
    split; [exists meta; split; [exact A4|]; split; [exact A5|];
            intros st' meta' [= _ ->]; reflexivity|].
    split; [intros f' Hf'; rewrite Ef; split; [congruence|auto]|].
    intros p Hin. exact (A11 p None Hin).
  - rewrite run_bind.
    destruct (run h loadFonts wa) as [[lf w2] t2] eqn:E2.
    destruct (loadFonts_detail _ _ _ _ E2) as (S2 & D2).
    destruct lf as [lf|]; simpl; intros [= <- <- <-]; rewrite app_nil_r; cbn [stateOf].
    + split; [exact A1|]. split; [exact A2|].
      split; [rewrite count_app; lia|].
      split; [exists meta; split; [exact A4|]; split; [exact A5|];
              intros st' meta' [= _ ->]; reflexivity|].
      split; [intros f' Hf'; congruence|].
      intros p Hin. apply in_app_or in Hin as [Hin|Hin]; [exact (A11 p None Hin)|].
      destruct lf; [exact (proj2 (proj2 D2) p Hin)|exact (proj2 (proj2 D2) p Hin)].
    + destruct D2 as (Hu & Wz).
      split; [exact A1|]. split; [exact A2|].
      split; [rewrite count_app; lia|].
      split; [exists meta; split; [exact A4|]; split; [exact A5|]; discriminate|].
      split; [intros f' Hf'; congruence|].
      now apply fontUnreadable_app_r.
Qed.

(** ** The tail of the hook *)

Lemma processItem_tail (cfg : ResolvedPluginConfig) (sm : StorageManager)
    (payload : Payload) (fonts : list FontEntry) (meta : SiteMeta)
    (state : PluginRunState) (container : gmap string PluginRunState)
    (item : PhotoManifestItem) (w : W) (ev : event) :
  In ev (trace_of (run h (processItem cfg sm payload fonts meta state container item) w)) ->
  tailEvent ev /\
  match ev with
  | EvRender template f _ =>
      f = fonts /\ exists thumbnailSrc, template = templateOf item meta thumbnailSrc
  | _ => True
  end.
Proof.
  revert ev.
  apply (always_run h (fun ev =>
    tailEvent ev /\
    match ev with
    | EvRender template f _ =>
        f = fonts /\ exists thumbnailSrc, template = templateOf item meta thumbnailSrc
    | _ => True
    end)).
  apply processItem_always; intros; (split; [repeat split|]); try exact I.
  split; [reflexivity|]. eauto.
Qed.

Lemma PublishRun_state cfg sm payload key png state container item r t :
  PublishRun cfg sm payload key png state container item r t ->
  exists st, hr_shared r = store st container /\
             fonts st = fonts state /\ siteMeta st = siteMeta state /\
             hr_outcome r = Resolved.
Proof.
  assert (HU : forall res tu, UploadStep cfg sm payload key png state (Some res) tu ->
                 fonts res = fonts state /\ siteMeta res = siteMeta state).
  { intros res tu HU. inversion HU; subst; auto. }
  intros [tu HUp | st1 tu url HUp Hc Ht | st1 tu url HUp Hc | st1 tu msg HUp Hc].
  - exists state. auto.
  - exists st1. destruct (HU _ _ HUp). auto.
  - exists (set_urlCache key url st1). destruct (HU _ _ HUp). auto.
  - exists st1. destruct (HU _ _ HUp). auto.
Qed.

Lemma ProcessRun_state cfg sm payload state container item r t :
  ProcessRun cfg sm payload state container item r t ->
  exists st, hr_shared r = store st container /\
             fonts st = fonts state /\ siteMeta st = siteMeta state /\
             hr_outcome r = Resolved.
Proof.
  intros [url Hs | msg Hs | t0 tpl f msg Hs Q0 | t0 tpl f png r' t1 Hs Q0 HPub].
  - exists (set_urlCache (remoteKeyOf cfg item) url state). auto.
  - exists state. auto.
  - exists state. auto.
  - eapply PublishRun_state, HPub.
Qed.

Lemma siteMetaOf_store (state : PluginRunState) (container : gmap string PluginRunState) :
  siteMetaOf (store state container) = siteMeta state.
Proof. unfold siteMetaOf, store. now rewrite lookup_insert_eq. Qed.

Lemma getOrCreateRunState_fields (runShared : gmap string PluginRunState) state container :
  getOrCreateRunState runShared = (state, container) ->
  uploaded state = uploadedKeys runShared /\
  urlCache state = cachedUrls runShared /\
  fonts state = loadedFonts runShared /\
  siteMeta state = siteMetaOf runShared.
Proof.
  intros E. pose proof (getOrCreateRunState_spec runShared) as G. rewrite E in G.
  destruct G as (G1 & G2 & G3 & _). repeat split; auto.
  revert E. unfold getOrCreateRunState, siteMetaOf.
  destruct (runShared !! RUN_STATE_KEY) as [st|]; intros [= <- <-]; reflexivity.
Qed.

(** ** How the hook's promise settles *)

(** X11. The hook's promise rejects exactly when a font file that [stat]
    found cannot be read.  Every other failure (the site configuration,
    the thumbnail, the render, the upload, the URL) is taken in: the hook
    then completes normally. *)
Theorem hook_rejects_iff_font_unreadable (plugin : PluginInstance) (payload : Payload)
    (runShared : gmap string PluginRunState) (w : W) :
  let out := run h (afterPhotoProcess plugin payload runShared) w in
  hr_outcome (result_of out) = Rejected <-> fontUnreadable (trace_of out).
Proof.
  intros out. subst out. unfold result_of, trace_of.
  destruct (run h (afterPhotoProcess plugin payload runShared) w) as [[r w'] t] eqn:E.
  cbn [fst snd].
  assert (Hfont : forall p f, In p (fontCandidates f) -> exists d n, p = RepoFile d n).
  { intros p f Hp. simpl in Hp. destruct Hp as [<-|[<-|[<-|[]]]]; eauto. }
  destruct (hook_cases _ _ _ _ _ _ _ E)
    as [[-> Ht] | (cfg & item & sm & state & container & prepared & w1 & t0 &
                   Hc & He & Hi & Hs & Hg & Hp & Hrest)].
  - split; [discriminate|]. intros (f & p & _ & _ & Hst & _).
    destruct Ht as [-> | ->]; simpl in Hst; intuition discriminate.
  - destruct (prepareRunState_detail _ _ _ _ _ _ Hp) as (_ & _ & _ & _ & _ & Hread).
    destruct prepared as [st|st meta].
    + destruct Hrest as [-> ->]. split; [intros _; exact Hread|reflexivity].
    + assert (Hno : forall t1, (forall ev, In ev t1 -> tailEvent ev) ->
                      ~ fontUnreadable (t0 ++ t1)).
      { intros t1 Ht1 (f & p & _ & Hcand & _ & Hrd).
        apply in_app_or in Hrd as [Hrd|Hrd]; [exact (Hread p Hrd)|].
        destruct (Hfont p f Hcand) as (d & n & ->).
        destruct (Ht1 _ Hrd) as (_ & Hfr & _). discriminate Hfr. }
      destruct (fonts st) as [f|].
      * destruct Hrest as (t1 & E1 & ->).
        pose proof (processItem_run h _ _ _ _ _ _ _ _ _ _ _ _ E1) as PR.
        destruct (ProcessRun_state _ _ _ _ _ _ _ _ PR) as (st' & _ & _ & _ & Hres).
        rewrite Hres. split; [discriminate|]. intros Hu. exfalso.
        apply (Hno t1); [|exact Hu]. intros ev Hin.
        apply (processItem_tail cfg sm payload f meta st container item w1).
        unfold trace_of. now rewrite E1.
      * destruct Hrest as [-> ->]. split; [discriminate|]. intros Hu. exfalso.
        apply (Hno []); [intros ? []|]. now rewrite app_nil_r.
Qed.

(** ** Write-back *)

(** X12. The hook changes nothing of the item but its [ogImageUrl], and
    the URL it writes is the one the run's cache holds for the item's key
    when the call returns: the one the storage manager just gave for that
    key, or the one that was cached before the call. *)
Theorem hook_writes_the_cached_url (plugin : PluginInstance) (payload : Payload)
    (runShared : gmap string PluginRunState) (w : W) :
  let out := run h (afterPhotoProcess plugin payload runShared) w in
  let r := result_of out in
  hr_item r = result_item payload \/
  exists cfg item url,
    resolved plugin = Some cfg /\ result_item payload = Some item /\
    hr_item r = Some (set_ogImageUrl url item) /\
    cachedUrls (hr_shared r) !! remoteKeyOf cfg item = Some url /\
    ((exists sm, In (EvPublicUrl sm (remoteKeyOf cfg item) (Some url)) (trace_of out)) \/
     cachedUrls runShared !! remoteKeyOf cfg item = Some url).
Proof.
  intros out r. subst r out. unfold result_of, trace_of.
  destruct (run h (afterPhotoProcess plugin payload runShared) w) as [[r w'] t] eqn:E.
  cbn [fst snd]. apply afterPhotoProcess_run in E.
  destruct E as [t Q | item c o t Hi Q HU HC HF HR
                | cfg item sm state container t0 r t1 Hc Hi Q HU HC HF HP].
  - now left.
  - left. now rewrite Hi.
  - destruct HP as [url Hs | msg Hs | t00 tpl fonts msg Hs Q0
                   | t00 tpl fonts png r t2 Hs Q0 HPub].
    + right. exists cfg, item, url. repeat split; auto.
      * cbn [hr_shared]. rewrite cachedUrls_store. apply lookup_insert_eq.
      * left. exists sm. in_solve.
    + left. now rewrite Hi.
    + left. now rewrite Hi.
    + assert (HUc : forall res tu,
                UploadStep cfg sm payload (remoteKeyOf cfg item) png state (Some res) tu ->
                urlCache res = urlCache state).
      { intros res tu HUp. inversion HUp; subst; reflexivity. }
      destruct HPub as [tu HUp | st1 tu url HUp Hcu Ht | st1 tu url HUp Hcu
                       | st1 tu msg HUp Hcu].
      * left. now rewrite Hi.
      * right. exists cfg, item, url. repeat split; auto.
        -- cbn [hr_shared]. now rewrite cachedUrls_store.
        -- right. rewrite <- HC, <- (HUc _ _ HUp). exact Hcu.
      * right. exists cfg, item, url. repeat split; auto.
        -- cbn [hr_shared]. rewrite cachedUrls_store. apply lookup_insert_eq.
        -- left. exists sm. in_solve.
      * left. now rewrite Hi.
Qed.

(** ** The order of the calls *)

Lemma pipeline_app (t1 t2 : list event) : pipeline (t1 ++ t2) = pipeline t1 ++ pipeline t2.
Proof. apply List.filter_app. Qed.

Lemma pipeline_quiet (t : list event) : quiet t -> pipeline t = [].
Proof.
  unfold pipeline. induction t as [|ev t IH]; intros Q; [reflexivity|].
  destruct (Q ev (or_introl eq_refl)) as (H1 & H2 & H3). simpl.
  rewrite H1, H2, H3. apply IH. intros e He. apply Q. now right.
Qed.

(** X13. One call of the hook renders at most once, uploads at most once
    and resolves at most one URL, in this order.  Nothing is uploaded
    unless a render succeeded just before, and what is uploaded are the
    bytes of that render; a failed render or a failed upload ends the
    call; the URL resolved after an upload is the one of the uploaded
    key. *)
Theorem hook_pipeline (plugin : PluginInstance) (payload : Payload)
    (runShared : gmap string PluginRunState) (w : W) :
  pipelineShape
    (pipeline (trace_of (run h (afterPhotoProcess plugin payload runShared) w))).
Proof.
  unfold trace_of.
  destruct (run h (afterPhotoProcess plugin payload runShared) w) as [[r w'] t] eqn:E.
  cbn [snd]. apply afterPhotoProcess_run in E.
  destruct E as [t Q | item c o t Hi Q HU HC HF HR
                | cfg item sm state container t0 r t1 Hc Hi Q HU HC HF HP].
  - rewrite pipeline_quiet by exact Q. now left.
  - rewrite pipeline_quiet by exact Q. now left.
  - rewrite pipeline_app, (pipeline_quiet t0 Q). cbn [app].
    destruct HP as [url Hs | msg Hs | t00 tpl fonts msg Hs Q0
                   | t00 tpl fonts png r t2 Hs Q0 HPub].
    + right. left. simpl. eauto.
    + right. left. simpl. eauto.
    + right. right. left. rewrite pipeline_app, (pipeline_quiet t00 Q0). simpl. eauto.
    + right. right. right. rewrite pipeline_app, (pipeline_quiet t00 Q0).
      exists tpl, fonts, png, (pipeline t2). split; [reflexivity|].
      assert (HUs : forall res tu,
                UploadStep cfg sm payload (remoteKeyOf cfg item) png state res tu ->
                (pipeline tu = [] /\ res <> None) \/
                (pipeline tu =
                   [EvUpload sm (remoteKeyOf cfg item) png (contentType cfg) true]
                 /\ res <> None) \/
                (pipeline tu =
                   [EvUpload sm (remoteKeyOf cfg item) png (contentType cfg) false]
                 /\ res = None)).
      { intros res tu HUp.
        inversion HUp; subst; [left|right; left|right; right];
          (split; [reflexivity|try discriminate; try reflexivity]). }
      destruct HPub as [tu HUp | st1 tu url HUp Hcu Ht | st1 tu url HUp Hcu
                       | st1 tu msg HUp Hcu];
        destruct (HUs _ _ HUp) as [[E1 E2] | [[E1 E2] | [E1 E2]]];
        try congruence; rewrite ?pipeline_app, E1; simpl; eauto 10.
Qed.

(** ** The URL cache *)

(** X14. On the rendering path a URL that the run's cache holds for the
    item's key is used as it is: the storage manager is not asked for the
    URL again, the cache stays as it was, and the item gets the cached URL
    whenever the render succeeded and no upload failed. *)
Theorem cached_url_is_reused (plugin : PluginInstance) (payload : Payload)
    (runShared : gmap string PluginRunState) (w : W)
    (cfg : ResolvedPluginConfig) (item : PhotoManifestItem) (url : string) :
  resolved plugin = Some cfg -> result_item payload = Some item ->
  shouldRenderOf payload = true ->
  cachedUrls runShared !! remoteKeyOf cfg item = Some url -> truthyString url = true ->
  let out := run h (afterPhotoProcess plugin payload runShared) w in
  let r := result_of out in
  count isPublicUrl (trace_of out) = 0%nat /\
  cachedUrls (hr_shared r) = cachedUrls runShared /\
  (hr_item r = Some item \/ hr_item r = Some (set_ogImageUrl url item)) /\
  (forall template fonts png,
     In (EvRender template fonts (Some png)) (trace_of out) ->
     (forall sm key body ct, ~ In (EvUpload sm key body ct false) (trace_of out)) ->
     hr_item r = Some (set_ogImageUrl url item)).
Proof.
  intros Hcfg Hitem Hsr Hcache Htruthy out r. subst r out. unfold result_of, trace_of.
  destruct (run h (afterPhotoProcess plugin payload runShared) w) as [[r w'] t] eqn:E.
  cbn [fst snd]. apply afterPhotoProcess_run in E.
  destruct E as [t Q | item' c o t Hi Q HU HC HF HR
                | cfg' item' sm state container t0 r t1 Hc Hi Q HU HC HF HP].
  - split; [apply (quiet_count t Q)|]. split; [reflexivity|].
    split; [left; exact Hitem|]. intros tpl f png Hin. now destruct (Q _ Hin).
  - split; [apply (quiet_count t Q)|]. split; [exact HC|].
    split; [left; cbn [hr_item]; congruence|].
    intros tpl f png Hin. now destruct (Q _ Hin).
  - rewrite Hcfg in Hc. rewrite Hitem in Hi. simplify_eq.
    destruct (quiet_count t0 Q) as (_ & _ & Q3).
    destruct HP as [url' Hs | msg Hs | t00 tpl fonts msg Hs Q0
                   | t00 tpl fonts png r t2 Hs Q0 HPub]; try congruence.
    + destruct (quiet_count t00 Q0) as (_ & _ & Q03).
      split; [rewrite !count_app; unfold count at 3; simpl; lia|].
      split; [cbn [hr_shared]; rewrite cachedUrls_store; congruence|].
      split; [now left|]. intros tpl' f' png' Hin. exfalso.
      apply in_app_or in Hin as [Hin|Hin]; [now destruct (Q _ Hin)|].
      apply in_app_or in Hin as [Hin|[[=]|[[=]|[]]]]. now destruct (Q0 _ Hin).
    + destruct (quiet_count t00 Q0) as (_ & _ & Q03).
      assert (HUc : forall res tu,
                UploadStep cfg' sm payload (remoteKeyOf cfg' item') png state res tu ->
                count isPublicUrl tu = 0%nat /\
                (forall st, res = Some st -> urlCache st = urlCache state) /\
                (res = None ->
                 exists ct, In (EvUpload sm (remoteKeyOf cfg' item') png ct false) tu)).
      { intros res tu HUp. inversion HUp; subst; (split; [reflexivity|]);
          (split; [now intros ? [= <-]|]); try discriminate.
        intros _. eexists. now left. }
      assert (Hhit : forall st, urlCache st = urlCache state ->
                truthyOptString (urlCache st !! remoteKeyOf cfg' item') = true).
      { intros st ->. rewrite HC, Hcache. exact Htruthy. }
      destruct HPub as [tu HUp | st1 tu url' HUp Hcu Ht | st1 tu url' HUp Hcu
                       | st1 tu msg HUp Hcu];
        destruct (HUc _ _ HUp) as (Cz & Cs & Cn).
      * split; [rewrite !count_app; unfold count at 3; simpl;
                fold (count isPublicUrl tu); lia|].
        split; [cbn [hr_shared]; rewrite cachedUrls_store; congruence|].
        split; [now left|]. intros tpl' f' png' _ Hno. exfalso.
        destruct (Cn eq_refl) as (ct & Hin).
        apply (Hno sm (remoteKeyOf cfg' item') png ct). in_solve.
      * split; [rewrite !count_app; unfold count at 3; simpl;
                fold (count isPublicUrl tu); lia|].
        split; [cbn [hr_shared]; rewrite cachedUrls_store, (Cs _ eq_refl); congruence|].
        assert (url' = url).
        { rewrite (Cs _ eq_refl), HC, Hcache in Hcu. congruence. }
        subst url'. split; [now right|]. reflexivity.
      * rewrite (Hhit st1 (Cs _ eq_refl)) in Hcu. discriminate.
      * rewrite (Hhit st1 (Cs _ eq_refl)) in Hcu. discriminate.
Qed.

(** ** What a run caches *)

Lemma hook_caches (plugin : PluginInstance) (payload : Payload)
    (runShared : gmap string PluginRunState) (w : W) r w' t :
  run h (afterPhotoProcess plugin payload runShared) w = (r, w', t) ->
  (count isReadSiteConfig t <= 1)%nat /\
  (forall m, siteMetaOf runShared = Some m ->
     count isReadSiteConfig t = 0%nat /\ siteMetaOf (hr_shared r) = Some m) /\
  (count isReadSiteConfig t = 1%nat -> siteMetaOf (hr_shared r) <> None) /\
  (forall f, loadedFonts runShared = Some f ->
     count isStat t = 0%nat /\ count isFontRead t = 0%nat /\
     count isFontsWarning t = 0%nat /\ loadedFonts (hr_shared r) = Some f).
Proof.
  intros E.
  destruct (hook_cases _ _ _ _ _ _ _ E)
    as [[-> Ht] | (cfg & item & sm & state & container & prepared & w1 & t0 &
                   Hc & He & Hi & Hs & Hg & Hp & Hrest)].
  - assert (Hz : forall f, f (EvLog Main Warn STORAGE_WARNING) = false ->
                   count f t = 0%nat).
    { intros f Hf. destruct Ht as [-> | ->]; unfold count; simpl; [reflexivity|].
      now rewrite Hf. }
    rewrite (Hz isReadSiteConfig eq_refl). split; [lia|]. split; [auto|].
    split; [discriminate|]. intros f Hf. cbn [idle hr_shared].
    rewrite !Hz by reflexivity. auto.
  - destruct (getOrCreateRunState_fields _ _ _ Hg) as (_ & _ & Gf & Gm).
    destruct (prepareRunState_detail _ _ _ _ _ _ Hp)
      as (_ & _ & Hcount & (meta & Hmeta & Hkeep & Hready) & Hfonts & _).
    unfold siteConfigReads in Hcount. rewrite Gm in Hcount, Hkeep. rewrite Gf in Hfonts.
    assert (Hfin : exists t1 st',
              t = t0 ++ t1 /\ (forall ev, In ev t1 -> tailEvent ev) /\
              hr_shared r = store st' container /\
              siteMeta st' = siteMeta (stateOf prepared) /\
              fonts st' = fonts (stateOf prepared)).
    { destruct prepared as [st|st meta'].
      - destruct Hrest as [-> ->]. exists [], st. rewrite app_nil_r.
        split; [reflexivity|]. split; [intros ? []|]. auto.
      - cbn [stateOf] in *. destruct (fonts st) as [f|] eqn:Ef.
        + destruct Hrest as (t1 & E1 & ->).
          pose proof (processItem_run h _ _ _ _ _ _ _ _ _ _ _ _ E1) as PR.
          destruct (ProcessRun_state _ _ _ _ _ _ _ _ PR)
            as (st' & Hsh & Hf' & Hm' & _).
          exists t1, st'. split; [reflexivity|]. split; [|split; [exact Hsh|]].
          * intros ev Hin.
            apply (processItem_tail cfg sm payload f meta' st container item w1).
            unfold trace_of. now rewrite E1.
          * split; congruence.
        + destruct Hrest as [-> ->]. exists [], st. rewrite app_nil_r.
          split; [reflexivity|]. split; [intros ? []|]. auto. }
    destruct Hfin as (t1 & st' & -> & Htail & Hsh & Hm' & Hf').
    destruct (tail_counts t1 Htail) as (T1 & T2 & T3 & T4).
    rewrite Hsh, siteMetaOf_store, loadedFonts_store, Hm', Hf', Hmeta.
    rewrite !count_app, T1, T2, T3, T4, !Nat.add_0_r.
    split; [rewrite Hcount; destruct (siteMetaOf runShared); lia|].
    split; [intros m Hm; rewrite Hm in Hcount; split; [exact Hcount|];
            f_equal; now apply Hkeep|].
    split; [discriminate|].
    intros f Hf. destruct (Hfonts f Hf) as (F1 & F2 & F3 & F4). auto.
Qed.

Lemma hook_render (plugin : PluginInstance) (payload : Payload)
    (runShared : gmap string PluginRunState) (w : W) r w' t :
  run h (afterPhotoProcess plugin payload runShared) w = (r, w', t) ->
  forall template f res, In (EvRender template f res) t ->
    loadedFonts (hr_shared r) = Some f /\
    exists item meta thumbnailSrc,
      result_item payload = Some item /\ siteMetaOf (hr_shared r) = Some meta /\
      template = templateOf item meta thumbnailSrc.
Proof.
  intros E tpl f res Hin.
  destruct (hook_cases _ _ _ _ _ _ _ E)
    as [[-> Ht] | (cfg & item & sm & state & container & prepared & w1 & t0 &
                   Hc & He & Hi & Hs & Hg & Hp & Hrest)].
  - destruct Ht as [-> | ->]; simpl in Hin; intuition discriminate.
  - destruct (prepareRunState_run h _ _ _ _ _ _ Hp) as (Q0 & _).
    destruct (prepareRunState_detail _ _ _ _ _ _ Hp)
      as (_ & _ & _ & (meta & Hmeta & _ & Hready) & _).
    destruct prepared as [st|st meta'].
    + destruct Hrest as [-> ->]. now destruct (Q0 _ Hin).
    + cbn [stateOf] in *. rewrite (Hready st meta' eq_refl) in *.
      destruct (fonts st) as [f0|] eqn:Ef.
      * destruct Hrest as (t1 & E1 & ->).
        apply in_app_or in Hin as [Hin|Hin]; [now destruct (Q0 _ Hin)|].
        pose proof (processItem_run h _ _ _ _ _ _ _ _ _ _ _ _ E1) as PR.
        destruct (ProcessRun_state _ _ _ _ _ _ _ _ PR) as (st' & Hsh & Hf' & Hm' & _).
        destruct (processItem_tail cfg sm payload f0 meta st container item w1
                    (EvRender tpl f res)) as (_ & -> & thumb & ->).
        { unfold trace_of. now rewrite E1. }
        rewrite Hsh, loadedFonts_store, siteMetaOf_store. split; [congruence|].
        exists item, meta, thumb. split; [exact Hi|]. split; [congruence|reflexivity].
      * destruct Hrest as [-> ->]. now destruct (Q0 _ Hin).
Qed.

(** X15. Once the run state holds the fonts, no later call of the run
    looks for them again: no [stat], no read of a font file and no fonts
    warning for the rest of the run, the fonts stay in the run state, and
    every render of the run is given these fonts. *)
Theorem loaded_fonts_are_kept (plugin : PluginInstance) (payloads : list Payload)
    (runShared : gmap string PluginRunState) (w : W) (fonts : list FontEntry) :
  loadedFonts runShared = Some fonts ->
  let out := run h (runPlugin plugin payloads runShared) w in
  count isStat (trace_of out) = 0%nat /\
  count isFontRead (trace_of out) = 0%nat /\
  count isFontsWarning (trace_of out) = 0%nat /\
  loadedFonts (fst (result_of out)) = Some fonts /\
  (forall template f r, In (EvRender template f r) (trace_of out) -> f = fonts).
Proof.
  revert runShared w. induction payloads as [|p rest IH]; intros runShared w Hf out;
    subst out.
  - unfold result_of, trace_of. cbn [runPlugin run fst snd].
    repeat split; auto. intros ? ? ? [].
  - rewrite run_runPlugin_cons.
    destruct (run h (afterPhotoProcess plugin p runShared) w) as [[r w1] t1] eqn:E1.
    destruct (hook_caches _ _ _ _ _ _ _ E1) as (_ & _ & _ & Hfonts).
    destruct (Hfonts fonts Hf) as (F1 & F2 & F3 & F4).
    pose proof (hook_render _ _ _ _ _ _ _ E1) as Hren.
    specialize (IH (hr_shared r) w1 F4). unfold result_of, trace_of in *.
    destruct (run h (runPlugin plugin rest (hr_shared r)) w1) as [[o w2] t2].
    cbn [fst snd] in *. destruct IH as (I1 & I2 & I3 & I4 & I5).
    rewrite !count_app. repeat split; try lia; auto.
    intros tpl f res Hin. apply in_app_or in Hin as [Hin|Hin]; [|eauto].
    destruct (Hren _ _ _ Hin) as (Hl & _). congruence.
Qed.

(** X16. The site configuration is read at most once in a run, whatever
    happens to the items, always from the configured path, and not at all
    when the run state holds the site metadata already. *)
Theorem site_config_is_read_once (plugin : PluginInstance) (payloads : list Payload)
    (runShared : gmap string PluginRunState) (w : W) :
  let out := run h (runPlugin plugin payloads runShared) w in
  (count isReadSiteConfig (trace_of out) <= 1)%nat /\
  (siteMetaOf runShared <> None -> count isReadSiteConfig (trace_of out) = 0%nat) /\
  (forall p r, In (EvReadSiteConfig p r) (trace_of out) ->
     p = opt_siteConfigPath (options plugin)).
Proof.
  intros out. subst out.
  assert (Hcached : forall payloads runShared w m,
            siteMetaOf runShared = Some m ->
            count isReadSiteConfig
              (trace_of (run h (runPlugin plugin payloads runShared) w)) = 0%nat).
  { clear. intros payloads. induction payloads as [|p rest IH]; intros runShared w m Hm.
    - reflexivity.
    - rewrite run_runPlugin_cons.
      destruct (run h (afterPhotoProcess plugin p runShared) w) as [[r w1] t1] eqn:E1.
      destruct (hook_caches _ _ _ _ _ _ _ E1) as (_ & Hkeep & _).
      destruct (Hkeep m Hm) as (C1 & C2).
      specialize (IH (hr_shared r) w1 m C2). unfold trace_of in *.
      destruct (run h (runPlugin plugin rest (hr_shared r)) w1) as [[o w2] t2].
      cbn [snd] in *. rewrite count_app. lia. }
  split; [|split].
  - revert runShared w. induction payloads as [|p rest IH]; intros runShared w.
    + unfold trace_of. cbn [runPlugin run snd]. unfold count. simpl. lia.
    + pose proof (Hcached rest) as Hrest. rewrite run_runPlugin_cons.
      destruct (run h (afterPhotoProcess plugin p runShared) w) as [[r w1] t1] eqn:E1.
      destruct (hook_caches _ _ _ _ _ _ _ E1) as (Hle & _ & Hone & _).
      specialize (IH (hr_shared r) w1). specialize (Hrest (hr_shared r) w1).
      unfold trace_of in *.
      destruct (run h (runPlugin plugin rest (hr_shared r)) w1) as [[o w2] t2].
      cbn [snd] in *. rewrite count_app.
      destruct (count isReadSiteConfig t1) as [|[|n]] eqn:Ec; [lia| |lia].
      destruct (siteMetaOf (hr_shared r)) as [m|] eqn:Em; [|now destruct (Hone eq_refl)].
      rewrite (Hrest m eq_refl). lia.
  - destruct (siteMetaOf runShared) as [m|] eqn:Em; [|congruence]. intros _.
    now apply (Hcached payloads runShared w m).
  - revert runShared w. induction payloads as [|p rest IH]; intros runShared w q res.
    + intros [].
    + rewrite run_runPlugin_cons.
      pose proof (hook_footprint h plugin p runShared w (EvReadSiteConfig q res))
        as Hfoot.
      destruct (run h (afterPhotoProcess plugin p runShared) w) as [[r w1] t1] eqn:E1.
      specialize (IH (hr_shared r) w1 q res). unfold trace_of in *.
      destruct (run h (runPlugin plugin rest (hr_shared r)) w1) as [[o w2] t2].
      cbn [snd] in *. intros Hin.
      apply in_app_or in Hin as [Hin|Hin]; [exact (Hfoot Hin)|auto].
Qed.

(** ** What is rendered *)

Lemma templateOf_title (item : PhotoManifestItem) (meta : SiteMeta) thumbnailSrc :
  photoTitle (templateOf item meta thumbnailSrc) = titleOf item /\
  truthyString (titleOf item) = true.
Proof.
  unfold templateOf, titleOf, orString, truthyOptString. cbn [photoTitle].
  destruct (title item) as [s|]; [destruct (truthyString s) eqn:Es|];
    try destruct (truthyString (id item)) eqn:Ei;
    cbn; rewrite ?Es, ?Ei; cbn; rewrite ?Es, ?Ei; auto.
Qed.

(** X17. Whatever the hook renders is the template of the payload's own
    item: the title is the item's title, else its id, else [Untitled
    Photo], and never empty; the site name is never empty; the tags are
    the item's first three; the metadata summary is the item's; the
    dimensions are neither 0 nor NaN; and the fonts and the site metadata
    are the ones the run state holds when the call returns. *)
Theorem rendered_template_is_complete (plugin : PluginInstance) (payload : Payload)
    (runShared : gmap string PluginRunState) (w : W) :
  let out := run h (afterPhotoProcess plugin payload runShared) w in
  forall template f res, In (EvRender template f res) (trace_of out) ->
    exists item meta,
      result_item payload = Some item /\
      siteMetaOf (hr_shared (result_of out)) = Some meta /\
      loadedFonts (hr_shared (result_of out)) = Some f /\
      photoTitle template = titleOf item /\ photoTitle template <> "" /\
      siteName template =
        (if truthyString (meta_siteName meta) then meta_siteName meta
         else DEFAULT_SITE_NAME) /\
      siteName template <> "" /\
      accentColor template = default DEFAULT_ACCENT_COLOR (meta_accentColor meta) /\
      templateTags template = take 3 (default [] (tags item)) /\
      (length (templateTags template) <= 3)%nat /\
      exifInfo template = buildExifInfo item /\
      truthyNumber (dim_width (photoDimensions template)) = true /\
      truthyNumber (dim_height (photoDimensions template)) = true.
Proof.
  intros out tpl f res Hin. subst out. unfold result_of, trace_of in *.
  destruct (run h (afterPhotoProcess plugin payload runShared) w) as [[r w'] t] eqn:E.
  cbn [fst snd] in *.
  destruct (hook_render _ _ _ _ _ _ _ E _ _ _ Hin)
    as (Hf & item & meta & thumb & Hi & Hm & ->).
  exists item, meta. destruct (templateOf_title item meta thumb) as (Ht1 & Ht2).
  split; [exact Hi|]. split; [exact Hm|]. split; [exact Hf|]. split; [exact Ht1|].
  split; [rewrite Ht1; intros E0; rewrite E0 in Ht2; discriminate|].
  split; [reflexivity|].
  split.
  { cbn [templateOf siteName].
    destruct (truthyString (meta_siteName meta)) eqn:Es; [|discriminate].
    intros E0. rewrite E0 in Es. discriminate. }
  split; [reflexivity|]. split; [reflexivity|].
  split; [cbn [templateOf templateTags]; rewrite length_take; lia|].
  split; [reflexivity|].
  cbn [templateOf photoDimensions getPhotoDimensions dim_width dim_height].
  split.
  - destruct (truthyNumber (item_width item)) eqn:Ew; [exact Ew|reflexivity].
  - destruct (truthyNumber (item_height item)) eqn:Eh; [exact Eh|reflexivity].
Qed.

End Hook.

(** ** On the sample environment *)

Lemma cached_url_is_reused_witness :
  let out := run (scenarioEnv allGood)
               (afterPhotoProcess (H := sampleLib) samplePlugin
                  (samplePayload "a" "new" false) cachedShared) tt in
  count isPublicUrl (trace_of out) = 0%nat /\
  hr_item (result_of out)
    = Some (set_ogImageUrl "https://cdn.example/a.png" (sampleItem "a")).
Proof.
  destruct (cached_url_is_reused (H := sampleLib) (scenarioEnv allGood)
              samplePlugin (samplePayload "a" "new" false) cachedShared tt
              sampleConfig (sampleItem "a") "https://cdn.example/a.png")
    as (HC & _ & _ & HI); try reflexivity.
  split; [exact HC|]. apply (HI (templateOf (H := sampleLib) (sampleItem "a")
                                   {| meta_siteName := DEFAULT_SITE_NAME;
                                      meta_accentColor := Some DEFAULT_ACCENT_COLOR |}
                                   None) [] []).
  - vm_compute. do 2 right. left. reflexivity.
  - intros sm key body ct Hin. vm_compute in Hin.
    repeat (destruct Hin as [Hin|Hin]; [discriminate Hin|]). destruct Hin.
Defined.

Lemma loaded_fonts_are_kept_witness :
  let out := run (scenarioEnv allGood)
               (runPlugin (H := sampleLib) samplePlugin
                  [samplePayload "a" "new" false; samplePayload "b" "new" false]
                  sampleShared) tt in
  count isStat (trace_of out) = 0%nat /\
  loadedFonts (fst (result_of out)) = Some [].
Proof.
  destruct (loaded_fonts_are_kept (H := sampleLib) (scenarioEnv allGood) samplePlugin
              [samplePayload "a" "new" false; samplePayload "b" "new" false]
              sampleShared tt []) as (HS & _ & _ & HF & _).
  - reflexivity.
  - split; assumption.
Defined.

Lemma rendered_template_is_complete_witness :
  let out := run (scenarioEnv allGood)
               (afterPhotoProcess (H := sampleLib) samplePlugin
                  (samplePayload "a" "new" false) sampleShared) tt in
  let template := templateOf (H := sampleLib) (sampleItem "a")
                    {| meta_siteName := DEFAULT_SITE_NAME;
                       meta_accentColor := Some DEFAULT_ACCENT_COLOR |} None in
  In (EvRender template [] (Some [])) (trace_of out) /\
  photoTitle template = titleOf (sampleItem "a") /\
  loadedFonts (hr_shared (result_of out)) = Some [].
Proof.
  intros out template.
  assert (Hin : In (EvRender template [] (Some [])) (trace_of out)).
  { vm_compute. do 2 right. left. reflexivity. }
  split; [exact Hin|].
  destruct (rendered_template_is_complete (H := sampleLib) (scenarioEnv allGood)
              samplePlugin (samplePayload "a" "new" false) sampleShared tt
              template [] (Some []) Hin)
    as (item & meta & _ & _ & Hfonts & Htitle & _).
  split; [reflexivity|exact Hfonts].
Defined.

(** A run on an empty container in which everything succeeds: the site
    configuration is read once, the two fonts are read once, and each item
    is rendered, uploaded and given its URL. *)
Example run_loads_once :
  let out := run (scenarioEnv allGood)
               (runPlugin (H := sampleLib) samplePlugin
                  [samplePayload "a" "new" false; samplePayload "b" "new" false] ∅) tt in
  count isReadSiteConfig (trace_of out) = 1%nat /\
  count isFontRead (trace_of out) = 2%nat /\
  count isRender (trace_of out) = 2%nat /\
  count isUpload (trace_of out) = 2%nat /\
  map (fun r => hr_item r ≫= ogImageUrl) (snd (result_of out))
    = [Some "https://cdn.example/.afilmory/og-images/a.png";
       Some "https://cdn.example/.afilmory/og-images/b.png"].
Proof. vm_compute. repeat split. Qed.

End HookSpec.

(* ===================================================================== *)
(** * Part VIII: what the template shows                                  *)
(* ===================================================================== *)

Module TemplateSpec.
Import Layout OgImagePlugin Template Observations StringFacts LayoutSpec PluginSpec HookSpec.
Local Open Scope string_scope.
Local Open Scope list_scope.

(** X18. Every layout keeps its photo box, of positive sides, inside the
    canvas less the padding on both sides, whatever the aspect (NaN and
    the infinities included).  Only the wide layout is compact,
    letter-boxed and arranged as [wide]; a stacked arrangement is a
    landscape one. *)
Theorem layout_stays_on_canvas (a : float) :
  let layout := determineLayout a in
  let box := photoBox layout in
  (maxWidth box <=? CANVAS_width - padding layout * num_lit 2 1)%num = true /\
  (maxHeight box <=? CANVAS_height - padding layout * num_lit 2 1)%num = true /\
  (num_lit 0 1 <? maxWidth box)%num = true /\
  (num_lit 0 1 <? maxHeight box)%num = true /\
  (infoCompact layout = true <-> type layout = Wide) /\
  (photoFit layout = Contain <-> type layout = Wide) /\
  (arrangement layout = ArrWide <-> type layout = Wide) /\
  (arrangement layout = ArrStack -> type layout = Landscape).
Proof.
  cbn zeta. unfold determineLayout.
  destruct (finalAspect a <? num_lit 9 10)%num;
    [|destruct (finalAspect a <=? num_lit 11 10)%num;
      [|destruct (finalAspect a >=? num_lit 235 100)%num;
        [|destruct (finalAspect a / ogAspect <=? num_lit 82 100)%num]]];
    cbn [photoBox maxWidth maxHeight padding infoCompact photoFit type arrangement];
    repeat (split; [vm_compute; reflexivity|]);
    repeat split; intros; try discriminate; try reflexivity.
Qed.

Section ExactTemplate.
Local Open Scope Q_scope.





End ExactTemplate.

Section TemplateFacts.
Context `{JsLib}.

Lemma exifLine_eq (photo : PhotoManifestItem) :
  buildExifItems (buildExifInfo photo) = exifLine photo.
Proof.
  unfold buildExifInfo, exifLine. destruct (exif photo) as [e|]; [|reflexivity].
  set (fl := orString (FocalLengthIn35mmFormat e) (FocalLength e)).
  assert (Ha : forall v, truthyOptString
              (match v with
               | Some f => if truthy f then Some ("f/" +:+ interpolate f) else None
               | None => None end) = from_option truthy false v).
  { intros [v|]; [|reflexivity]. simpl. destruct (truthy v); reflexivity. }
  assert (Hs : forall v, truthyOptString
              (match v with
               | Some t => if truthy t then Some (interpolate t +:+ "s") else None
               | None => None end) = from_option truthy false v).
  { intros [v|]; [|reflexivity]. simpl. destruct (truthy v); [|reflexivity].
    now apply truthyString_append_r. }
  rewrite Ha, Hs.
  match goal with |- buildExifItems (if ?c then _ else _) = _ => destruct c eqn:Ec end.
  - apply andb_prop in Ec as [Ec _]. apply andb_prop in Ec as [Ec E4].
    apply andb_prop in Ec as [Ec E3]. apply andb_prop in Ec as [E1 E2].
    apply negb_true_iff in E1, E2, E3, E4.
    unfold numberItem, buildExifItems. cbn [mbind option_bind app].
    destruct (FNumber e) as [v1|]; cbn [from_option] in E2; rewrite ?E2;
      destruct (ISO e) as [v2|]; cbn [from_option] in E3; rewrite ?E3;
      destruct (ExposureTime e) as [v3|]; cbn [from_option] in E4; rewrite ?E4;
      cbn [app]; unfold exifItem; destruct fl as [s|];
      cbn [truthyOptString] in E1; rewrite ?E1; reflexivity.
  - unfold buildExifItems, numberItem.
    cbn [mbind option_bind option_ret aperture shutterSpeed iso focalLength].
    f_equal; [|f_equal].
    + destruct (FNumber e) as [v|]; [|reflexivity]. destruct (truthy v); reflexivity.
    + destruct (ExposureTime e) as [v|]; [|reflexivity].
      destruct (truthy v) eqn:Ev; [|reflexivity]. cbn [exifItem].
      now rewrite (truthyString_append_r (interpolate v) "s").
Qed.

(** X20. The EXIF line the template shows for an item is read off the
    item's EXIF block: the aperture as [f/<FNumber>], the shutter speed as
    [<ExposureTime>s], the ISO, and the focal length, the 35mm one first;
    in this order, each one exactly when its field is truthy, so at most
    four entries, and none for an item without a summary. *)
Theorem exif_line_of_item (photo : PhotoManifestItem) :
  buildExifItems (buildExifInfo photo) = exifLine photo /\
  (length (exifLine photo) <= 4)%nat /\
  (buildExifInfo photo = None -> exifLine photo = []).
Proof.
  pose proof (exifLine_eq photo) as Heq.
  split; [exact Heq|]. split.
  - unfold exifLine, numberItem, exifItem. destruct (exif photo) as [e|]; [|simpl; lia].
    rewrite !length_app.
    destruct (FNumber e) as [v1|]; [destruct (truthy v1)|];
      (destruct (ExposureTime e) as [v2|]; [destruct (truthy v2)|]);
      (destruct (ISO e) as [v3|]; [destruct (truthy v3)|]);
      (destruct (orString _ _) as [s|]; [destruct (truthyString s)|]); simpl; lia.
  - intros Hn. rewrite <- Heq, Hn. reflexivity.
Qed.

(** X21. The info panel of an item's preview shows the item's title (else
    its id, else [Untitled Photo]), never an empty one; the item's first
    two tags in the compact, wide layout and its first three in every
    other; and the item's EXIF line. *)
Theorem info_panel_of_item (item : PhotoManifestItem) (meta : SiteMeta)
    (thumbnailSrc : option string) :
  let view := InfoPanel (infoPanelProps (templateOf item meta thumbnailSrc)) in
  let layout := determineLayout (photoAspect (getPhotoDimensions item)) in
  view_title view = titleOf item /\ view_title view <> "" /\
  view_tags view =
    take (if infoCompact layout then 2 else 3)%nat (default [] (tags item)) /\
  (length (view_tags view) <= 3)%nat /\
  view_exifItems view = exifLine item.
Proof.
  intros view layout.
  destruct (templateOf_title item meta thumbnailSrc) as (Ht1 & Ht2).
  assert (Htitle : view_title view = titleOf item).
  { subst view. cbn [InfoPanel infoPanelProps view_title info_title].
    rewrite Ht1, Ht2. reflexivity. }
  split; [exact Htitle|].
  split; [rewrite Htitle; intros E; rewrite E in Ht2; discriminate|].
  assert (Htags : view_tags view =
            take (if infoCompact layout then 2 else 3)%nat (default [] (tags item))).
  { subst view layout.
    cbn [InfoPanel infoPanelProps view_tags info_tags info_compact templateOf
         templateTags photoDimensions].
    set (n := if infoCompact _ then 2%nat else 3%nat).
    assert (Hn : (n <= 3)%nat) by (subst n; destruct (infoCompact _); lia).
    destruct (default [] (tags item)) as [|x l]; [now destruct n|].
    assert (Hc : (0 <? length (take 3 (x :: l)))%nat = true) by reflexivity.
    rewrite Hc, take_take. f_equal. lia. }
  split; [exact Htags|].
  split; [rewrite Htags, length_take; destruct (infoCompact layout); lia|].
  subst view. cbn [InfoPanel infoPanelProps view_exifItems info_exifItems templateOf exifInfo].
  rewrite exifLine_eq. destruct (exifLine item); reflexivity.
Qed.

End TemplateFacts.
End TemplateSpec.

(* ===================================================================== *)
(** * Part IX: the thumbnail lookup of the OG service                     *)
(* ===================================================================== *)

Module ServiceSpec.
Import Layout OgImagePlugin OgService Observations StringFacts PluginSpec.
Local Open Scope string_scope.
Local Open Scope prog_scope.
Local Open Scope list_scope.

Lemma replaceWebpSuffix_not_webp (value : string) :
  endsWith (toLowerCase (replaceWebpSuffix value)) ".webp" = false.
Proof.
  unfold replaceWebpSuffix. destruct (endsWith (toLowerCase value) ".webp") eqn:E.
  - destruct (endsWith (toLowerCase (_ +:+ ".jpg")) ".webp") eqn:E2; [|reflexivity].
    rewrite toLowerCase_app in E2.
    apply (endsWith_last _ ".webp" "p"%char (chars ".web")) in E2 as [r Hr];
      [|reflexivity].
    rewrite chars_app in Hr.
    change (chars (toLowerCase ".jpg")) with (chars ".jp" ++ ["g"%char]) in Hr.
    rewrite app_assoc in Hr. apply app_inj_tail in Hr as [_ Hr]. discriminate.
  - exact E.
Qed.

Lemma replaceWebpSuffix_nonempty (value : string) :
  replaceWebpSuffix value <> "" \/ value = "".
Proof.
  unfold replaceWebpSuffix. destruct (endsWith _ ".webp").
  - left. intros E. apply append_empty in E as [_ E]. discriminate.
  - destruct value; [now right|now left].
Qed.

Lemma normalizeThumbnailPath_None (value : option string) :
  normalizeThumbnailPath value = None <-> value = None \/ value = Some "".
Proof.
  destruct value as [v|]; simpl; [|intuition].
  destruct v; simpl; split; intuition; discriminate.
Qed.

(** X22. The service never asks for a [.webp] thumbnail:
    [normalizeThumbnailPath] turns that extension, in any letter case,
    into [.jpg] and leaves every other path as it is; it gives nothing
    exactly for a missing or an empty path, and what it gives is not
    changed by normalizing it again. *)
Theorem normalizeThumbnailPath_never_webp (value : option string) :
  (normalizeThumbnailPath value = None <-> value = None \/ value = Some "") /\
  (forall v, value = Some v -> endsWith (toLowerCase v) ".webp" = false -> v <> "" ->
     normalizeThumbnailPath value = Some v) /\
  (forall stem ext, value = Some (stem +:+ ext) -> toLowerCase ext = ".webp" ->
     normalizeThumbnailPath value = Some (stem +:+ ".jpg")) /\
  (forall r, normalizeThumbnailPath value = Some r ->
     r <> "" /\ endsWith (toLowerCase r) ".webp" = false /\
     normalizeThumbnailPath (Some r) = Some r).
Proof.
  split; [apply normalizeThumbnailPath_None|split; [|split]].
  - intros v -> Hw Hne. unfold normalizeThumbnailPath, replaceWebpSuffix.
    rewrite Hw. destruct v; [contradiction|reflexivity].
  - intros stem ext -> Hext. unfold normalizeThumbnailPath, replaceWebpSuffix.
    assert (Hlen : length (chars ext) = 5%nat).
    { apply (f_equal chars) in Hext. rewrite chars_toLowerCase in Hext.
      apply (f_equal (@length ascii)) in Hext. now rewrite length_map in Hext. }
    assert (Hends : endsWith (toLowerCase (stem +:+ ext)) ".webp" = true).
    { rewrite toLowerCase_app, Hext. apply endsWith_chars.
      exists (chars (toLowerCase stem)). apply chars_app. }
    rewrite Hends.
    assert (Ht : truthyString (stem +:+ ext) = true).
    { apply truthyString_chars. rewrite chars_app. intros E.
      apply app_eq_nil in E as [_ E]. rewrite E in Hlen. discriminate. }
    rewrite Ht. cbn [negb]. do 2 f_equal.
    rewrite chars_app, length_app, Hlen.
    replace (length (chars stem) + 5 - 5)%nat with (length (chars stem)) by lia.
    rewrite take_app_length. apply of_chars_chars.
  - intros r Hr. unfold normalizeThumbnailPath in Hr.
    destruct value as [v|]; [|discriminate].
    destruct (truthyString v) eqn:Ev; cbn [negb] in Hr; [|discriminate].
    injection Hr as <-.
    pose proof (replaceWebpSuffix_not_webp v) as Hn.
    assert (Hne : replaceWebpSuffix v <> "").
    { destruct (replaceWebpSuffix_nonempty v) as [Hne | ->]; [exact Hne|discriminate]. }
    split; [exact Hne|]. split; [exact Hn|].
    unfold normalizeThumbnailPath. rewrite (truthy_nonempty _ Hne). cbn [negb].
    f_equal. unfold replaceWebpSuffix at 1. now rewrite Hn.
Qed.

Lemma uniqueFrom_spec (seen l : list string) :
  NoDup (uniqueFrom seen l) /\
  (forall x, In x (uniqueFrom seen l) <-> In x l /\ ~ In x seen) /\
  (length (uniqueFrom seen l) <= length l)%nat.
Proof.
  revert seen. induction l as [|x rest IH]; intros seen; simpl.
  - split; [constructor|]. split; [intuition|lia].
  - destruct (bool_decide (x ∈ seen)) eqn:E.
    + apply bool_decide_eq_true in E. apply list_elem_of_In in E.
      destruct (IH seen) as (N & I & L). split; [exact N|]. split; [|lia].
      intros y. rewrite I. split; [intuition|].
      intros [[<-|Hy] Hn]; [contradiction|auto].
    + apply bool_decide_eq_false in E. rewrite list_elem_of_In in E.
      destruct (IH (x :: seen)) as (N & I & L). split; [|split; [|simpl; lia]].
      * apply list.NoDup_cons. split; [|exact N]. rewrite list_elem_of_In, I.
        intros [_ Hn]. apply Hn. now left.
      * intros y. simpl. rewrite I. simpl. split.
        -- intros [<-|[Hy Hn]]; [auto|]. split; [auto|]. intros Hs. apply Hn. now right.
        -- intros [[<-|Hy] Hn]; [now left|].
           destruct (string_dec x y) as [->|Hne]; [now left|].
           right. split; [exact Hy|]. intros [->|Hs]; auto.
Qed.

Section ServiceFacts.
Context `{JsLib}.
Context {W : Type} (h : handler W).

Lemma tryFetchUrl_run (url : string) (w : W) :
  exists response w',
    run h (tryFetchUrl url) w = (fetchResult response, w', [EvFetch url response]).
Proof.
  unfold tryFetchUrl. simpl. destruct (h _ (Fetch url) w) as [response w1].
  exists response, w1. unfold fetchResult, fetchedBody.
  destruct response as [response|]; [|reflexivity].
  destruct (resp_ok response); cbn [negb]; [|reflexivity].
  destruct (resp_body response); reflexivity.
Qed.

Lemma fetchFirst_shape (requests : list string) (w : W) r w' t :
  run h (fetchFirst requests) w = (r, w', t) ->
  exists responses,
    Forall (fun response => fetchResult response = None) responses /\
    ((r = None /\ length responses = length requests /\
      t = fetches requests responses) \/
     (exists before url after response fetched,
        requests = before ++ url :: after /\ length responses = length before /\
        t = fetches before responses ++ [EvFetch url response] /\
        fetchResult response = Some fetched /\ r = Some fetched)).
Proof.
  revert w r w' t. induction requests as [|url rest IH]; intros w r w' t.
  - intros [= <- <- <-]. exists []. split; [constructor|]. left. repeat split.
  - cbn [fetchFirst]. rewrite run_bind.
    destruct (tryFetchUrl_run url w) as (response & w1 & ->).
    destruct (fetchResult response) as [fetched|] eqn:Ef.
    + intros [= <- <- <-]. exists []. split; [constructor|]. right.
      exists [], url, rest, response, fetched. repeat split. exact Ef.
    + destruct (run h (fetchFirst rest) w1) as [[r1 w2] t1] eqn:E.
      intros [= <- <- <-].
      destruct (IH _ _ _ _ E) as (responses & Hall & [(-> & Hlen & ->) |
        (before & u & after & resp & fetched & -> & Hlen & -> & Hres & ->)]).
      * exists (response :: responses). split; [now constructor|]. left.
        repeat split. simpl. now rewrite Hlen.
      * exists (response :: responses). split; [now constructor|]. right.
        exists (url :: before), u, after, resp, fetched.
        repeat split; auto. simpl. now rewrite Hlen.
Qed.

Lemma fetches_In (urls : list string) (responses : list (option Response)) ev :
  In ev (fetches urls responses) -> exists url response, ev = EvFetch url response.
Proof.
  unfold fetches. revert responses.
  induction urls as [|u urls IH]; intros [|r responses]; simpl; try tauto.
  intros [<-|Hin]; eauto.
Qed.

(** X23. [fetchThumbnailBuffer]'s loop asks for its candidates in order
    and stops at the first one that answers with a body: the requests made
    are a prefix of the candidates, all but the last one failed, and the
    result is what the last one brought, with its declared content type
    or, without one, image/jpeg.  When every candidate fails, each one was
    asked for once and the result is [null]. *)
Theorem fetchFirst_first_success (requests : list string) (w : W) :
  let out := run h (fetchFirst requests) w in
  exists responses,
    Forall (fun response => fetchResult response = None) responses /\
    ((result_of out = None /\ length responses = length requests /\
      trace_of out = fetches requests responses) \/
     (exists before url after response fetched,
        requests = before ++ url :: after /\ length responses = length before /\
        trace_of out = fetches before responses ++ [EvFetch url response] /\
        fetchResult response = Some fetched /\ result_of out = Some fetched)).
Proof.
  intros out. subst out. unfold result_of, trace_of.
  destruct (run h (fetchFirst requests) w) as [[r w'] t] eqn:E. cbn [fst snd].
  exact (fetchFirst_shape _ _ _ _ _ E).
Qed.

Section Candidates.
Variable Base : Type.
Variable URL_resolve : string -> Base -> option string.

(** X24. The candidates for a thumbnail are at most three URLs, without
    repetition.  An absolute [http://] or [https://] path is its own and
    only candidate; without a base URL and without an external origin
    there is none; and building them fails only when a relative path
    cannot be resolved against an existing base. *)
Theorem thumbnail_candidates (base : option Base) (origin : option string)
    (thumbnailPath : string) :
  let candidates :=
    buildThumbnailUrlCandidates Base URL_resolve base origin thumbnailPath in
  (isAbsolute thumbnailPath = true -> candidates = Some [thumbnailPath]) /\
  (forall l, candidates = Some l -> NoDup l /\ (length l <= 3)%nat) /\
  (isAbsolute thumbnailPath = false -> base = None ->
   truthyOptString (trimmed origin) = false -> candidates = Some []) /\
  (candidates = None -> isAbsolute thumbnailPath = false /\ base <> None).
Proof.
  intros candidates. subst candidates. unfold buildThumbnailUrlCandidates, isAbsolute.
  set (np := if startsWith thumbnailPath "/" then thumbnailPath
             else "/" +:+ thumbnailPath).
  set (ov := match trimmed origin with
             | Some o => if truthyString o then [stripTrailingSlashes o +:+ np] else []
             | None => []
             end).
  assert (Hov : (length ov <= 1)%nat).
  { subst ov. destruct (trimmed origin) as [o|]; [destruct (truthyString o)|];
      simpl; lia. }
  destruct (startsWith thumbnailPath "http://" || startsWith thumbnailPath "https://")
    eqn:Ea.
  - cbn. rewrite bool_decide_eq_false_2 by (intros Hin; inversion Hin).
    split; [reflexivity|]. split.
    + intros l [= <-]. split; [|simpl; lia]. repeat constructor.
      intros Hin. inversion Hin.
    + split; [discriminate|discriminate].
  - split; [discriminate|].
    assert (Hu : forall r l, Some (unique r) = Some l -> (length r <= 3)%nat ->
                   NoDup l /\ (length l <= 3)%nat).
    { intros r l [= <-] Hr. destruct (uniqueFrom_spec [] r) as (N & _ & L).
      split; [exact N|]. unfold unique. lia. }
    destruct base as [b|]; cbn [mbind option_bind].
    + destruct (URL_resolve np b) as [u1|] eqn:E1; cbn [mbind option_bind].
      2:{ split; [discriminate|]. split; [discriminate|].
          intros _. split; [reflexivity|discriminate]. }
      destruct (startsWith np "/static/web/"); cbn [negb].
      * cbn [mbind option_bind]. split.
        -- intros l Hl. apply (Hu _ _ Hl). simpl. lia.
        -- split; [discriminate|discriminate].
      * destruct (URL_resolve ("/static/web" +:+ np) b) as [u2|] eqn:E2;
          cbn [mbind option_bind].
        -- split; [intros l Hl; apply (Hu _ _ Hl); simpl; lia|].
           split; [discriminate|discriminate].
        -- split; [discriminate|]. split; [discriminate|].
           intros _. split; [reflexivity|discriminate].
    + split; [intros l Hl; apply (Hu _ _ Hl); simpl; lia|].
      split; [|discriminate]. intros _ _ Ht. subst ov.
      destruct (trimmed origin) as [o|]; [|reflexivity].
      cbn [truthyOptString] in Ht. rewrite Ht. reflexivity.
Qed.

(** X25. A photo without a thumbnail URL gets no thumbnail and costs no
    request.  Otherwise the service does nothing but fetch, and the data
    URL it returns encodes what one of its requests brought, with the
    declared content type or, failing that, image/jpeg.  The lookup fails
    only when the candidates cannot be built. *)
Theorem service_thumbnail (base : option Base) (origin : option string)
    (photo : PhotoManifestItem) (w : W) :
  let out := run h (resolveThumbnailSrc Base URL_resolve base origin photo) w in
  (thumbnailUrl photo = None \/ thumbnailUrl photo = Some "" ->
   result_of out = Some None /\ trace_of out = []) /\
  (forall ev, In ev (trace_of out) -> exists url response, ev = EvFetch url response) /\
  (forall src, result_of out = Some (Some src) ->
     exists url response fetched,
       In (EvFetch url response) (trace_of out) /\
       fetchResult response = Some fetched /\
       src = bufferToDataUrl (tc_buffer fetched) (tc_contentType fetched)) /\
  (result_of out = None ->
   exists path, normalizeThumbnailPath (thumbnailUrl photo) = Some path /\
     buildThumbnailUrlCandidates Base URL_resolve base origin path = None).
Proof.
  intros out. subst out. unfold resolveThumbnailSrc.
  destruct (normalizeThumbnailPath (thumbnailUrl photo)) as [path|] eqn:En.
  2:{ split; [intros _; split; reflexivity|]. split; [intros ev []|].
      split; [discriminate|discriminate]. }
  assert (Hsome : ~ (thumbnailUrl photo = None \/ thumbnailUrl photo = Some "")).
  { intros Hn. apply normalizeThumbnailPath_None in Hn. congruence. }
  split; [intros Hn; contradiction|].
  unfold fetchThumbnailBuffer.
  destruct (buildThumbnailUrlCandidates Base URL_resolve base origin path)
    as [requests|] eqn:Ec.
  2:{ simpl. split; [intros ev []|]. split; [discriminate|].
      intros _. now exists path. }
  rewrite run_bind, run_bind. unfold result_of, trace_of.
  destruct (run h (fetchFirst requests) w) as [[r w1] t] eqn:E.
  destruct (fetchFirst_shape _ _ _ _ _ E) as (responses & Hall & Hcase).
  destruct Hcase as [(-> & Hlen & ->) |
    (before & u & after & resp & fetched & -> & Hlen & -> & Hres & ->)]; simpl;
    rewrite !app_nil_r.
  - split; [apply fetches_In|]. split; [discriminate|discriminate].
  - split.
    + intros ev Hin.
      apply in_app_or in Hin as [Hin|[<-|[]]]; [now apply (fetches_In before responses)|eauto].
    + split; [|discriminate]. intros src [= <-]. exists u, resp, fetched.
      split; [apply in_or_app; right; now left|]. auto.
Qed.

End Candidates.
End ServiceFacts.
End ServiceSpec.

(* ===================================================================== *)
(** * Part X: the caches of a run                                         *)
(* ===================================================================== *)

Module CacheSpec.
Import Layout OgImagePlugin PluginSetup Observations PluginSpec HookSpec.
Local Open Scope string_scope.
Local Open Scope prog_scope.
Local Open Scope list_scope.

(** X26. [getOrCreateRunState] creates the run state once: the state it
    returns is the one the container holds afterwards, so that a second
    call returns the same state and leaves the container alone.  A state
    that was there is returned as it is, with the container unchanged; a
    created one is empty, without fonts and without site metadata; and no
    other key of the container is touched. *)
Theorem getOrCreateRunState_once (container : gmap string PluginRunState) :
  let state := fst (getOrCreateRunState container) in
  let container' := snd (getOrCreateRunState container) in
  container' !! RUN_STATE_KEY = Some state /\
  getOrCreateRunState container' = (state, container') /\
  (forall s, container !! RUN_STATE_KEY = Some s -> state = s /\ container' = container) /\
  (container !! RUN_STATE_KEY = None ->
   uploaded state = ∅ /\ urlCache state = ∅ /\ fonts state = None /\
   siteMeta state = None) /\
  (forall k, k <> RUN_STATE_KEY -> container' !! k = container !! k).
Proof.
  cbn zeta. unfold getOrCreateRunState.
  destruct (container !! RUN_STATE_KEY) as [s|] eqn:E; cbn [fst snd].
  - rewrite E. repeat split; auto; congruence.
  - rewrite lookup_insert_eq. repeat split; auto; try discriminate;
      intros k Hk; now rewrite lookup_insert_ne.
Qed.

Section Caches.
Context `{JsLib}.
Context {W : Type} (h : handler W).

Lemma HookRun_urlCache (plugin : PluginInstance) (payload : Payload)
    (runShared : gmap string PluginRunState) r t :
  HookRun plugin payload runShared r t ->
  cachedUrls (hr_shared r) = cachedUrls runShared \/
  exists cfg item sm url,
    resolved plugin = Some cfg /\ result_item payload = Some item /\
    In (EvPublicUrl sm (remoteKeyOf cfg item) (Some url)) t /\
    cachedUrls (hr_shared r) = <[remoteKeyOf cfg item := url]> (cachedUrls runShared).
Proof.
  intros [t0 Q | item c o t0 Hi Q HU HC HF HR
         | cfg item sm state container t0 r0 t1 Hc Hi Q HU HC HF HP].
  - now left.
  - left. exact HC.
  - destruct HP as [url Hs | msg Hs | t00 tpl fonts msg Hs Q0
                   | t00 tpl fonts png r1 t2 Hs Q0 HPub].
    + right. exists cfg, item, sm, url. repeat split; auto.
      * in_solve.
      * cbn [hr_shared]. rewrite cachedUrls_store. cbn [set_urlCache urlCache].
        now rewrite HC.
    + left. cbn [hr_shared]. now rewrite cachedUrls_store.
    + left. cbn [hr_shared]. now rewrite cachedUrls_store.
    + assert (HUc : forall res tu,
                UploadStep cfg sm payload (remoteKeyOf cfg item) png state (Some res) tu ->
                urlCache res = urlCache state).
      { intros res tu HUp. inversion HUp; subst; reflexivity. }
      destruct HPub as [tu HUp | st1 tu url HUp Hcu Ht | st1 tu url HUp Hcu
                       | st1 tu msg HUp Hcu]; cbn [hr_shared];
        rewrite cachedUrls_store.
      * left. exact HC.
      * left. now rewrite (HUc _ _ HUp).
      * right. exists cfg, item, sm, url. repeat split; auto.
        -- in_solve.
        -- cbn [set_urlCache urlCache]. now rewrite (HUc _ _ HUp), HC.
      * left. now rewrite (HUc _ _ HUp).
Qed.

(** X27. Within a run the URL cache never loses a key, and every URL it
    holds at the end is either the one it held for that key at the start
    or one that the storage manager returned for that key during the run.
    One call of the hook changes the cache at most at the key of its own
    item. *)
Theorem url_cache_only_grows (plugin : PluginInstance) (payloads : list Payload)
    (runShared : gmap string PluginRunState) (w : W) :
  let out := run h (runPlugin plugin payloads runShared) w in
  let final := fst (result_of out) in
  (forall k, is_Some (cachedUrls runShared !! k) -> is_Some (cachedUrls final !! k)) /\
  (forall k url, cachedUrls final !! k = Some url ->
     cachedUrls runShared !! k = Some url \/
     exists sm, In (EvPublicUrl sm k (Some url)) (trace_of out)) /\
  (forall payload shared w',
     let call := run h (afterPhotoProcess plugin payload shared) w' in
     forall k,
       cachedUrls (hr_shared (result_of call)) !! k <> cachedUrls shared !! k ->
       exists cfg item,
         resolved plugin = Some cfg /\ result_item payload = Some item /\
         k = remoteKeyOf cfg item).
Proof.
  intros out final. subst final out. split; [|split].
  - revert runShared w. induction payloads as [|p rest IH]; intros runShared w k Hk.
    + exact Hk.
    + rewrite run_runPlugin_cons.
      destruct (run h (afterPhotoProcess plugin p runShared) w) as [[r w1] t1] eqn:E1.
      apply afterPhotoProcess_run in E1. apply HookRun_urlCache in E1.
      specialize (IH (hr_shared r) w1 k). unfold result_of in *.
      destruct (run h (runPlugin plugin rest (hr_shared r)) w1) as [[o w2] t2].
      cbn [fst snd] in *. apply IH.
      destruct E1 as [-> | (cfg & item & sm & url & _ & _ & _ & ->)]; [exact Hk|].
      destruct (decide (remoteKeyOf cfg item = k)) as [<-|Hne].
      * rewrite lookup_insert_eq. eauto.
      * now rewrite lookup_insert_ne.
  - revert runShared w. induction payloads as [|p rest IH]; intros runShared w k url Hk.
    + now left.
    + revert Hk. rewrite run_runPlugin_cons.
      destruct (run h (afterPhotoProcess plugin p runShared) w) as [[r w1] t1] eqn:E1.
      apply afterPhotoProcess_run in E1. apply HookRun_urlCache in E1.
      specialize (IH (hr_shared r) w1 k url). unfold result_of, trace_of in *.
      destruct (run h (runPlugin plugin rest (hr_shared r)) w1) as [[o w2] t2].
      cbn [fst snd] in *. intros Hk.
      destruct (IH Hk) as [Hmid | (sm & Hin)].
      2:{ right. exists sm. apply in_or_app. now right. }
      destruct E1 as [E1 | (cfg & item & sm & u & _ & _ & Hin & E1)];
        rewrite E1 in Hmid; [now left|].
      destruct (decide (remoteKeyOf cfg item = k)) as [<-|Hne].
      * rewrite lookup_insert_eq in Hmid. injection Hmid as ->.
        right. exists sm. apply in_or_app. now left.
      * rewrite lookup_insert_ne in Hmid by exact Hne. now left.
  - intros payload shared w' call k Hk. subst call. unfold result_of in Hk.
    destruct (run h (afterPhotoProcess plugin payload shared) w') as [[r w1] t1] eqn:E1.
    cbn [fst] in Hk. apply afterPhotoProcess_run in E1. apply HookRun_urlCache in E1.
    destruct E1 as [E1 | (cfg & item & sm & u & Hc & Hi & _ & E1)];
      rewrite E1 in Hk; [congruence|].
    exists cfg, item. split; [exact Hc|]. split; [exact Hi|].
    destruct (decide (remoteKeyOf cfg item = k)) as [<-|Hne]; [reflexivity|].
    rewrite lookup_insert_ne in Hk by exact Hne. congruence.
Qed.

End Caches.
End CacheSpec.
